(** * Combined analyzer service (Python_Prog/Single_Prog_ALL.py)

    A shallow embedding of the service's engine and the properties its
    specification states about it.

    Python floats are IEEE-754 binary64 numbers and are embedded as Rocq's
    primitive floats; [None]-or-value results are [option]s; dictionaries
    are [gmap]s (or association lists where the iteration order matters).
    Everything the program obtains from outside (the clock, the shutdown
    event, the Modbus devices, the SQL server, the other producer threads)
    is read from an environment of oracles indexed by the instant at which
    the call is made, so that every definition below is an executable
    function and every theorem quantifies over all environments.

    A function is followed from its call to its return; what the other
    threads do meanwhile to the shared objects reaches it through the
    oracles (rows put on the queue) or is part of the world in which its
    next call starts.  The locks of [SharedModbus] and [RangeCache], which
    make the guarded blocks atomic, are therefore not represented.  The
    thread table is the exception: the monitors are studied as a
    transition system in which the other threads move between two steps
    of the monitor. *)

From Stdlib Require Import ZArith Floats List String Bool Lia.
From Stdlib.Strings Require Import Byte Ascii.
From Stdlib Require Import DecimalString.
From stdpp Require Import gmap strings.
Import ListNotations.

#[local] Set Warnings "-inexact-float".

Close Scope float_scope.
Open Scope string_scope.
Open Scope list_scope.
Open Scope Z_scope.

(* ===================================================================== *)
(** * Python values and exceptions                                        *)
(* ===================================================================== *)

Inductive exn : Type :=
| KeyError
| IndexError
| TypeError
| ValueError
| ZeroDivisionError
| QueueEmpty
| PyodbcError
| RuntimeError.

(** Outcome of running a piece of code: a value, a raised exception, or
    [OutOfFuel] when a [while] loop was cut by the step bound of the model
    (never caught by an [except] clause). *)
Inductive Res (A : Type) : Type :=
| Ok (a : A)
| Raise (e : exn)
| OutOfFuel.
Arguments Ok {A} a.
Arguments Raise {A} e.
Arguments OutOfFuel {A}.

(** Values that are bound to the [?] place holders of an SQL statement. *)
Inductive pyval : Type :=
| PNone
| PFloat (f : float)
| PInt (z : Z)
| PStr (s : string)
| PTime (t : float).

(** A queue item [{"sql": ..., "params": ...}]. *)
Record Item : Type := mkItem { sql : string; params : list pyval }.

Definition float_or_null (v : option float) : pyval :=
  match v with Some f => PFloat f | None => PNone end.

(** [x / y] on floats: Python raises on a zero divisor. *)
Definition py_truediv (x y : float) : Res float :=
  if PrimFloat.eqb y 0%float then Raise ZeroDivisionError
  else Ok (PrimFloat.div x y).

(** int -> float conversion of small integers. *)
Definition float_of_Z (z : Z) : float :=
  match z with
  | Z0 => 0%float
  | Zpos _ => PrimFloat.of_uint63 (Uint63.of_Z z)
  | Zneg p => PrimFloat.opp (PrimFloat.of_uint63 (Uint63.of_Z (Zpos p)))
  end.

(** [l[i]] with Python's negative indices. *)
Definition py_getitem {A : Type} (l : list A) (i : Z) : Res A :=
  let n := Z.of_nat (length l) in
  let j := if i <? 0 then i + n else i in
  if (j <? 0) || (n <=? j) then Raise IndexError
  else match nth_error l (Z.to_nat j) with
       | Some x => Ok x
       | None => Raise IndexError
       end.

(** [(l + [None]*n)[:n]] *)
Definition pad_to {A : Type} (n : nat) (l : list (option A)) : list (option A) :=
  firstn n (l ++ repeat None n).

(* ===================================================================== *)
(** * decode_float                                                        *)
(* ===================================================================== *)

(** A Modbus register is a 16-bit word; it is kept as its high and low
    byte, which is what [struct.pack(">H", w)] produces. *)
Definition word16 : Type := (Byte.byte * Byte.byte)%type.

Definition word16_of_Z (z : Z) : word16 :=
  (default Byte.x00 (Byte.of_N (Z.to_N ((z / 256) mod 256))),
   default Byte.x00 (Byte.of_N (Z.to_N (z mod 256)))).

Definition pack_H (w : word16) : list Byte.byte := [fst w; snd w].

Definition be_bytes_to_Z (bs : list Byte.byte) : Z :=
  fold_left (fun acc b => acc * 256 + Z.of_N (Byte.to_N b)) bs 0.

(** The binary32 number with bit pattern [w], as a binary64 float. *)
Definition binary32_of_bits (w : Z) : float :=
  let s := Z.testbit w 31 in
  let e := Z.land (Z.shiftr w 23) 255 in
  let m := Z.land w 8388607 in
  if e =? 255 then
    (if m =? 0 then (if s then neg_infinity else infinity) else nan)
  else if e =? 0 then
    match m with
    | Zpos p => SF2Prim (S754_finite s p (-149))
    | _ => SF2Prim (S754_zero s)
    end
  else
    match (m + 8388608)%Z with
    | Zpos p => SF2Prim (S754_finite s p (e - 150))
    | _ => nan
    end.

(** [struct.unpack(">f", data)[0]] *)
Definition unpack_f (data : list Byte.byte) : float :=
  binary32_of_bits (be_bytes_to_Z data).

Definition decode_float (w1 w2 : word16) (order : string) : float :=
  let b1 := pack_H w1 in
  let b2 := pack_H w2 in
  let data :=
    if String.eqb order "ABCD" then b1 ++ b2
    else if String.eqb order "CDAB" then b2 ++ b1
    else if String.eqb order "BADC" then rev b1 ++ rev b2
    else if String.eqb order "DCBA" then rev b2 ++ rev b1
    else b1 ++ b2 in
  unpack_f data.

(* ===================================================================== *)
(** * The world: environment oracles and program state                    *)
(* ===================================================================== *)

(** The shared Modbus clients, one per device. *)
Inductive Mb : Type := MB_STATUS | MB_RANGE | MB_FLOW | MB_AN1 | MB_AN2.

Global Instance Mb_eq_dec : EqDecision Mb.
Proof. solve_decision. Defined.

Definition STATUS_IP := "192.168.0.10".
Definition RANGE_IP := "127.0.0.1".
Definition FLOW_IP := "192.168.0.14".
Definition AN1_IP := "192.168.0.4".
Definition AN2_IP := "192.168.0.5".

Definition host (mb : Mb) : string :=
  match mb with
  | MB_STATUS => STATUS_IP
  | MB_RANGE => RANGE_IP
  | MB_FLOW => FLOW_IP
  | MB_AN1 => AN1_IP
  | MB_AN2 => AN2_IP
  end.

(** What [ModbusTcpClient(...)] followed by [connect()] does: it connects,
    it returns [False], or one of the two calls raises. *)
Inductive connect_outcome : Type :=
| Connected
| Refused
| CtorRaises
| ConnectRaises.

(** What a library read does: a response carrying values, an error
    response ([r.isError()]), or an exception. *)
Inductive reply (A : Type) : Type :=
| Values (a : A)
| ErrorReply
| IoRaises.
Arguments Values {A} a.
Arguments ErrorReply {A}.
Arguments IoRaises {A}.

Inductive sink_outcome : Type :=
| SinkOk
| SinkError        (* pyodbc.Error *)
| SinkUnexpected.  (* any other exception *)

(** The oracles.  The [nat] argument is the instant of the call; a read
    also tells the value of the client's [connected] attribute once the
    call is over (the library owns that attribute). *)
Record Env : Type := mkEnv {
  time_time : nat -> float;
  stop_is_set : nat -> bool;
  mb_connect : Mb -> nat -> connect_outcome;
  mb_discrete : Mb -> Z -> Z -> nat -> reply (list bool) * bool;
  mb_input : Mb -> Z -> Z -> nat -> reply (list word16) * bool;
  mb_holding : Mb -> Z -> Z -> nat -> reply (list word16) * bool;
  db_connect : nat -> sink_outcome;
  db_execute : nat -> Item -> sink_outcome;
  db_commit : nat -> sink_outcome;
  q_arrivals : nat -> list Item
}.

(** Calls that leave the process or may block, logged in the order they
    are made. *)
Inductive io_event : Type :=
| EvConnect (mb : Mb)
| EvRead (mb : Mb) (address count : Z)
| EvSleep (seconds : float)
| EvQueueWait (timeout : float)
| EvDbConnect
| EvDbClose.

(** State of one [SharedModbus] object: [client] is [None] or a client
    whose [connected] attribute has the given value. *)
Record SharedModbus : Type := mkSharedModbus {
  client : option bool;
  last_fail : float
}.

Definition is_connected (l : SharedModbus) : bool :=
  match client l with
  | Some connected => connected
  | None => false
  end.

(** The five module-level clients. *)
Record Links : Type := mkLinks {
  l_status : SharedModbus;
  l_range : SharedModbus;
  l_flow : SharedModbus;
  l_an1 : SharedModbus;
  l_an2 : SharedModbus
}.

Definition get_link (mb : Mb) (ls : Links) : SharedModbus :=
  match mb with
  | MB_STATUS => l_status ls
  | MB_RANGE => l_range ls
  | MB_FLOW => l_flow ls
  | MB_AN1 => l_an1 ls
  | MB_AN2 => l_an2 ls
  end.

Definition put_link (mb : Mb) (l : SharedModbus) (ls : Links) : Links :=
  match mb with
  | MB_STATUS => mkLinks l (l_range ls) (l_flow ls) (l_an1 ls) (l_an2 ls)
  | MB_RANGE => mkLinks (l_status ls) l (l_flow ls) (l_an1 ls) (l_an2 ls)
  | MB_FLOW => mkLinks (l_status ls) (l_range ls) l (l_an1 ls) (l_an2 ls)
  | MB_AN1 => mkLinks (l_status ls) (l_range ls) (l_flow ls) l (l_an2 ls)
  | MB_AN2 => mkLinks (l_status ls) (l_range ls) (l_flow ls) (l_an1 ls) l
  end.

(** What a thread was started for. *)
Inductive job : Type :=
| CalJob (owner : string) (trig_addr : Z)
| LevelJob (owner : string) (level_key : string).

Global Instance job_eq_dec : EqDecision job.
Proof. solve_decision. Defined.

Record thread : Type := mkThread { th_job : job; th_alive : bool }.

(** An open SQL connection and the rows executed on it since the last
    commit. *)
Record SqlConn : Type := mkSqlConn { pending : list Item }.

(** A [RangeCache] object: [cache] maps a key to [(ts, value)]. *)
Record RangeCache : Type := mkRangeCache {
  ttl : float;
  cache : gmap (Z * string) (float * float)
}.

Record World : Type := mkWorld {
  w_step : nat;                                   (* instant of the next call *)
  w_links : Links;                                (* MB_STATUS ... MB_AN2 *)
  w_cache : RangeCache;                           (* RANGE_CACHE *)
  w_queue : list Item;                            (* sql_q *)
  w_threads : list thread;                        (* started threads, by thread id *)
  w_committed : list Item;                        (* rows committed to the sink *)
  w_io : list io_event                            (* calls made so far, oldest first *)
}.

Definition set_step (n : nat) (w : World) : World :=
  mkWorld n (w_links w) (w_cache w) (w_queue w) (w_threads w) (w_committed w) (w_io w).
Definition set_links (l : Links) (w : World) : World :=
  mkWorld (w_step w) l (w_cache w) (w_queue w) (w_threads w) (w_committed w) (w_io w).
Definition set_cache (c : RangeCache) (w : World) : World :=
  mkWorld (w_step w) (w_links w) c (w_queue w) (w_threads w) (w_committed w) (w_io w).
Definition set_queue (q : list Item) (w : World) : World :=
  mkWorld (w_step w) (w_links w) (w_cache w) q (w_threads w) (w_committed w) (w_io w).
Definition set_threads (t : list thread) (w : World) : World :=
  mkWorld (w_step w) (w_links w) (w_cache w) (w_queue w) t (w_committed w) (w_io w).
Definition set_committed (c : list Item) (w : World) : World :=
  mkWorld (w_step w) (w_links w) (w_cache w) (w_queue w) (w_threads w) c (w_io w).
Definition set_io (l : list io_event) (w : World) : World :=
  mkWorld (w_step w) (w_links w) (w_cache w) (w_queue w) (w_threads w) (w_committed w) l.

Definition initial_link : SharedModbus := mkSharedModbus None 0%float.

Definition initial_world : World :=
  mkWorld 0 (mkLinks initial_link initial_link initial_link initial_link initial_link)
    (mkRangeCache 5%float ∅) [] [] [] [].

(* ===================================================================== *)
(** * A state-and-exception monad                                         *)
(* ===================================================================== *)

Definition M (S A : Type) : Type := S -> Res A * S.

Definition ret {S A : Type} (a : A) : M S A := fun s => (Ok a, s).

Definition bind {S A B : Type} (m : M S A) (k : A -> M S B) : M S B :=
  fun s =>
    match m s with
    | (Ok a, s') => k a s'
    | (Raise e, s') => (Raise e, s')
    | (OutOfFuel, s') => (OutOfFuel, s')
    end.

Definition raise {S A : Type} (e : exn) : M S A := fun s => (Raise e, s).

Definition out_of_fuel {S A : Type} : M S A := fun s => (OutOfFuel, s).

(** [try: m  except Exception: h] *)
Definition try_except {S A : Type} (m : M S A) (h : exn -> M S A) : M S A :=
  fun s =>
    match m s with
    | (Raise e, s') => h e s'
    | r => r
    end.

(** [try: m  except E: h]: only the exception [E] is handled. *)
Definition try_except_only {S A : Type} (E : exn -> bool) (m : M S A) (h : M S A) : M S A :=
  fun s =>
    match m s with
    | (Raise e, s') => if E e then h s' else (Raise e, s')
    | r => r
    end.

Definition is_QueueEmpty (e : exn) : bool :=
  match e with QueueEmpty => true | _ => false end.

Definition is_PyodbcError (e : exn) : bool :=
  match e with PyodbcError => true | _ => false end.

Definition gets {S A : Type} (f : S -> A) : M S A := fun s => (Ok (f s), s).

Definition modify {S : Type} (f : S -> S) : M S unit := fun s => (Ok tt, f s).

(** Code of a method: the object's fields next to the world. *)
Definition in_world {T A : Type} (m : M World A) : M (T * World) A :=
  fun s =>
    match m (snd s) with
    | (r, w') => (r, (fst s, w'))
    end.

Definition self {T : Type} : M (T * World) T := gets fst.

Definition set_self {T : Type} (f : T -> T) : M (T * World) unit :=
  modify (fun s => (f (fst s), snd s)).

Declare Scope py_scope.
Delimit Scope py_scope with py.
Notation "'let*' x ':=' m 'in' k" := (bind m (fun x => k))
  (at level 10, x pattern, m at level 100, k at level 200) : py_scope.
Notation "m ';;' k" := (bind m (fun _ => k))
  (at level 100, k at level 200, right associativity) : py_scope.
Open Scope py_scope.

(** [for x in xs: body x] *)
Fixpoint for_each {S A : Type} (xs : list A) (body : A -> M S unit) : M S unit :=
  match xs with
  | [] => ret tt
  | x :: xs' => body x ;; for_each xs' body
  end.

(* ===================================================================== *)
(** * Configuration and objects                                           *)
(* ===================================================================== *)

(** An entry of a MIN map: [{"ip": ..., "reg": ..., "order": ...}]. *)
Record MinCfg : Type := mkMinCfg { mc_ip : string; mc_reg : Z; mc_order : option string }.

Definition AN1_MIN_MAP : gmap Z MinCfg :=
  <[1 := mkMinCfg RANGE_IP 100 (Some "CDAB")]>
  (<[2 := mkMinCfg RANGE_IP 104 (Some "CDAB")]>
  (<[3 := mkMinCfg RANGE_IP 108 (Some "CDAB")]>
  (<[4 := mkMinCfg RANGE_IP 112 (Some "CDAB")]>
  (<[5 := mkMinCfg RANGE_IP 118 (Some "CDAB")]> ∅)))).

Definition AN2_MIN_MAP : gmap Z MinCfg :=
  <[1 := mkMinCfg RANGE_IP 114 (Some "CDAB")]>
  (<[2 := mkMinCfg RANGE_IP 118 (Some "CDAB")]> ∅).

Definition AN1_LIVE_REGS : list (Z * string) := [(0, "ABCD"); (2, "CDAB"); (6, "ABCD")].
Definition AN2_LIVE_REGS : list (Z * string) := [(0, "ABCD"); (2, "CDAB")].

Record Historian : Type := mkHistorian {
  h_name : string;
  mb_an : Mb;
  live_regs : list (Z * string);
  min_map : gmap Z MinCfg;
  h_table : string;
  val_count : nat;
  last_good : list (option float)
}.

Definition set_last_good (v : list (option float)) (h : Historian) : Historian :=
  mkHistorian (h_name h) (mb_an h) (live_regs h) (min_map h) (h_table h) (val_count h) v.

(** [Historian.__init__] *)
Definition new_Historian (name : string) (mb : Mb) (regs : list (Z * string))
    (mins : gmap Z MinCfg) (table : string) (count : nat) : Historian :=
  mkHistorian name mb regs mins table count (repeat (Some 0%float) count).

(** Level references. *)
Record LevelRef : Type := mkLevelRef { expected_reg : Z; lr_order : option string }.

(** [AN2_LEVEL_REF.get(key)] *)
Definition AN2_LEVEL_REF (key : string) : option LevelRef :=
  if String.eqb key "LOW" then Some (mkLevelRef 130 (Some "CDAB"))
  else if String.eqb key "MID" then Some (mkLevelRef 132 (Some "CDAB"))
  else if String.eqb key "HIGH" then Some (mkLevelRef 130 (Some "CDAB"))
  else None.

(** [AN1_ACTUAL_REF.get(key)]: [None] for "LOW" (stored [None]) and for a
    missing key alike. *)
Definition AN1_ACTUAL_REF (key : string) : option Z :=
  if String.eqb key "LOW" then None
  else if String.eqb key "MID" then Some 111
  else if String.eqb key "HIGH" then Some 123
  else None.

Record LevelMonitor : Type := mkLevelMonitor {
  lm_name : string;
  lm_mb_an : Mb;
  lm_table : string;
  lm_actual_ref_mode : string;
  lm_last : gmap string bool
}.

Definition set_lm_last (l : gmap string bool) (m : LevelMonitor) : LevelMonitor :=
  mkLevelMonitor (lm_name m) (lm_mb_an m) (lm_table m) (lm_actual_ref_mode m) l.

(** An entry of a range map:
    [(measured_input_reg, measured_order, expected_reg, min_reg, max_reg, factor)]. *)
Record RangeEntry : Type := mkRangeEntry {
  in_reg : Z;
  in_order : string;
  exp_reg : option Z;
  min_reg : option Z;
  max_reg : option Z;
  factor : Z
}.

Definition AN1_RANGE_MAP : gmap string RangeEntry :=
  <["N2O" := mkRangeEntry 0 "ABCD" (Some 124) (Some 100) (Some 102) 100]>
  (<["NO" := mkRangeEntry 2 "CDAB" (Some 126) (Some 104) (Some 106) 101]>
  (<["O2" := mkRangeEntry 6 "ABCD" (Some 128) (Some 108) (Some 110) 102]> ∅)).

Definition AN2_RANGE_MAP : gmap string RangeEntry :=
  <["N2O" := mkRangeEntry 0 "ABCD" (Some 130) (Some 114) (Some 116) 100]>
  (<["NO" := mkRangeEntry 2 "CDAB" (Some 132) (Some 118) (Some 120) 101]> ∅).

(** A calibration trigger: [{"name": ..., "delay": ..., "capture": [...]}]. *)
Record TrigInfo : Type := mkTrigInfo {
  ti_name : string;
  ti_delay : Z;
  ti_capture : list string
}.

Definition CAL_TRIG_AN1 : list (Z * TrigInfo) :=
  [(1201, mkTrigInfo "N2O ZERO" 120 ["N2O"; "NO"; "O2"]);
   (1202, mkTrigInfo "N2O SPAN" 60 ["N2O"]);
   (1203, mkTrigInfo "NO SPAN" 60 ["NO"]);
   (1204, mkTrigInfo "O2 SPAN" 30 ["O2"])].

Definition CAL_TRIG_AN2 : list (Z * TrigInfo) :=
  [(1201, mkTrigInfo "N2O ZERO" 120 ["N2O"; "NO"]);
   (1202, mkTrigInfo "N2O SPAN" 60 ["N2O"]);
   (1203, mkTrigInfo "NO SPAN" 60 ["NO"])].

Record CalWorker : Type := mkCalWorker {
  cw_name_prefix : string;
  cw_trig_addr : Z;
  cw_info : TrigInfo;
  cw_mb_an : Mb;
  cw_table : string;
  cw_range_map : gmap string RangeEntry
}.

Record CalMonitor : Type := mkCalMonitor {
  cm_name : string;
  cm_trig_map : list (Z * TrigInfo);
  cm_mb_an : Mb;
  cm_table : string;
  cm_range_map : gmap string RangeEntry;
  cm_last : gmap Z bool;
  cm_workers : gmap Z nat      (* trigger address -> id of its worker thread *)
}.

Definition set_cm_last (l : gmap Z bool) (m : CalMonitor) : CalMonitor :=
  mkCalMonitor (cm_name m) (cm_trig_map m) (cm_mb_an m) (cm_table m) (cm_range_map m)
    l (cm_workers m).

Definition set_cm_workers (ws : gmap Z nat) (m : CalMonitor) : CalMonitor :=
  mkCalMonitor (cm_name m) (cm_trig_map m) (cm_mb_an m) (cm_table m) (cm_range_map m)
    (cm_last m) ws.

(** [CalMonitor.__init__] *)
Definition new_CalMonitor (name : string) (trig_map : list (Z * TrigInfo)) (mb : Mb)
    (table : string) (range_map : gmap string RangeEntry) : CalMonitor :=
  mkCalMonitor name trig_map mb table range_map
    (list_to_map (map (fun kv => (fst kv, false)) trig_map)) ∅.

(** [LevelMonitor.__init__] *)
Definition new_LevelMonitor (name : string) (mb : Mb) (table actual_ref_mode : string)
    (keys : list string) : LevelMonitor :=
  mkLevelMonitor name mb table actual_ref_mode
    (list_to_map (map (fun k => (k, false)) keys)).

(** The writer thread: [conn] is [None] or an open connection. *)
Record SQLWriter : Type := mkSQLWriter { conn : option SqlConn }.

Definition value_insert (table : string) : string :=
  ("INSERT INTO " ++ table ++
   " ([DATE], VAL_1, VAL_2, VAL_3, VAL_4, VAL_5, Flow, Analyzer_Mode, Level_Mode, IsCalibration, Plant_Status) VALUES (?, ?, ?, ?, ?, ?, ?, ?, ?, ?, ?)")%string.

(** The queue item of a historian record:
    [(datetime.now(), *vals_for_sql, float(flow), analyzer_mode, level_mode, int(is_cal), pstat)]. *)
Definition value_row (table : string) (ts : float) (vals_for_sql : list (option float))
    (flow : float) (analyzer_mode level_mode : string) (is_cal : Z) (pstat : string) : Item :=
  mkItem (value_insert table)
    ([PTime ts] ++ map float_or_null vals_for_sql ++
     [PFloat flow; PStr analyzer_mode; PStr level_mode; PInt is_cal; PStr pstat]).

(** The queue item of a level row. *)
Definition level_row (table : string) (ts : float) (level_name value_type : string)
    (value : float) : Item :=
  mkItem
    ("INSERT INTO " ++ table ++ " ([Timestamp],[LevelName],[ValueType],[Value]) VALUES (?,?,?,?)")%string
    [PTime ts; PStr level_name; PStr value_type; PFloat value].

(** ** String helpers *)

Definition is_ascii_lower (c : ascii) : bool :=
  (97 <=? nat_of_ascii c)%nat && (nat_of_ascii c <=? 122)%nat.
Definition is_ascii_upper (c : ascii) : bool :=
  (65 <=? nat_of_ascii c)%nat && (nat_of_ascii c <=? 90)%nat.
Definition ascii_upper (c : ascii) : ascii :=
  if is_ascii_lower c then ascii_of_nat (nat_of_ascii c - 32) else c.
Definition ascii_lower (c : ascii) : ascii :=
  if is_ascii_upper c then ascii_of_nat (nat_of_ascii c + 32) else c.

(** [s.upper()] *)
Fixpoint py_upper (s : string) : string :=
  match s with
  | EmptyString => EmptyString
  | String c s' => String (ascii_upper c) (py_upper s')
  end.

Fixpoint title_from (in_word : bool) (s : string) : string :=
  match s with
  | EmptyString => EmptyString
  | String c s' =>
      if is_ascii_lower c || is_ascii_upper c
      then String (if in_word then ascii_lower c else ascii_upper c) (title_from true s')
      else String c (title_from false s')
  end.

(** [s.title()] *)
Definition py_title (s : string) : string := title_from false s.

(** [str(i)] *)
Definition str_of_Z (i : Z) : string := NilZero.string_of_int (Z.to_int i).

Section Service.

Variable env : Env.

(** ** Primitive calls *)

Definition tick : M World nat :=
  fun w => (Ok (w_step w), set_step (S (w_step w)) w).

Definition log_io (e : io_event) : M World unit :=
  modify (fun w => set_io (w_io w ++ [e]) w).

(** [time.time()] and [datetime.now()] *)
Definition now : M World float :=
  let* n := tick in ret (time_time env n).

(** [time.sleep(seconds)] *)
Definition sleep (seconds : float) : M World unit :=
  tick ;; log_io (EvSleep seconds).

(** [stop_event.is_set()] *)
Definition is_set : M World bool :=
  let* n := tick in ret (stop_is_set env n).

(** [sql_q.put(item)]: the queue is far from full, the call returns at once. *)
Definition q_put (it : Item) : M World unit :=
  modify (fun w => set_queue (w_queue w ++ [it]) w).

Definition link (mb : Mb) : M World SharedModbus := gets (fun w => get_link mb (w_links w)).

Definition set_link (mb : Mb) (l : SharedModbus) : M World unit :=
  modify (fun w => set_links (put_link mb l (w_links w)) w).

(** ** SharedModbus: one client per device, reconnect on failure *)

Definition MODBUS_PORT := 502.
Definition MODBUS_TIMEOUT := 3.

(** The old client, if any, is closed (errors of [close] are ignored), a
    new one is created and connected.  A closed client, a client whose
    [connect()] returned [False] and a client whose [connect()] raised are
    not connected. *)
Definition _connect (mb : Mb) : M World bool :=
  let* l := link mb in
  let* n := tick in
  log_io (EvConnect mb) ;;
  match mb_connect env mb n with
  | Connected =>
      set_link mb (mkSharedModbus (Some true) (last_fail l)) ;; ret true
  | Refused =>
      set_link mb (mkSharedModbus (Some false) (last_fail l)) ;; ret false
  | CtorRaises =>
      set_link mb (mkSharedModbus (option_map (fun _ => false) (client l)) (last_fail l)) ;;
      ret false
  | ConnectRaises =>
      set_link mb (mkSharedModbus (Some false) (last_fail l)) ;; ret false
  end.

Definition _ensure (mb : Mb) : M World bool :=
  let* l := link mb in
  if is_connected l then ret true
  else
    (* throttle reconnect attempts *)
    let* t := now in
    if PrimFloat.ltb (PrimFloat.sub t (last_fail l)) 1.5%float then ret false
    else
      let* ok := _connect mb in
      (if negb ok
       then let* l' := link mb in set_link mb (mkSharedModbus (client l') t)
       else ret tt) ;;
      ret ok.

(** A library read on the current client: [Some] values, [None] for an
    error response, or an exception.  The library leaves the client's
    [connected] attribute as the oracle says. *)
Definition library_read {A : Type} (mb : Mb) (address count : Z)
    (oracle : Mb -> Z -> Z -> nat -> reply A * bool) : M World (option A) :=
  let* n := tick in
  log_io (EvRead mb address count) ;;
  let* l := link mb in
  set_link mb (mkSharedModbus (Some (snd (oracle mb address count n))) (last_fail l)) ;;
  match fst (oracle mb address count n) with
  | Values v => ret (Some v)
  | ErrorReply => ret None
  | IoRaises => raise RuntimeError
  end.

Definition record_failure (mb : Mb) : M World unit :=
  let* t := now in
  let* l := link mb in
  set_link mb (mkSharedModbus (client l) t).

Definition read_discrete (mb : Mb) (address count : Z) : M World (option (list bool)) :=
  let* ok := _ensure mb in
  if negb ok then ret None
  else
    try_except
      (library_read mb address count (mb_discrete env))
      (fun _ => record_failure mb ;; ret None).

Definition read_input_regs (mb : Mb) (address count : Z) : M World (option (list word16)) :=
  let* ok := _ensure mb in
  if negb ok then ret None
  else
    try_except
      (library_read mb address count (mb_input env))
      (fun _ => record_failure mb ;; ret None).

Definition read_holding_regs (mb : Mb) (address count : Z) : M World (option (list word16)) :=
  let* ok := _ensure mb in
  if negb ok then ret None
  else
    try_except
      (library_read mb address count (mb_holding env))
      (fun _ => record_failure mb ;; ret None).

(** ** RangeCache *)

Definition RANGE_ADDR_OFFSET := 0.

Definition fresh_entry (rc : RangeCache) (key : Z * string) (t : float) : option float :=
  match cache rc !! key with
  | Some (ts, val) =>
      if PrimFloat.leb (PrimFloat.sub t ts) (ttl rc) then Some val else None
  | None => None
  end.

Definition get_float_holding (reg : Z) (order : string) : M World (option float) :=
  let addr := if RANGE_ADDR_OFFSET =? 0 then reg else reg - RANGE_ADDR_OFFSET in
  let key := (addr, order) in
  let* t := now in
  let* rc := gets w_cache in
  match fresh_entry rc key t with
  | Some val => ret (Some val)
  | None =>
      let* regs := read_holding_regs MB_RANGE addr 2 in
      match regs with
      | Some (r0 :: r1 :: _) =>
          let val := decode_float r0 r1 order in
          modify (fun w =>
            set_cache (mkRangeCache (ttl (w_cache w)) (<[key := (t, val)]> (cache (w_cache w)))) w) ;;
          ret (Some val)
      | _ => ret None
      end
  end.

(** ** Common helpers *)

Definition FLOW_STOP_THRESHOLD : float := 100%float.

Definition plant_status (flow_val : option float) : string :=
  match flow_val with
  | Some f => if PrimFloat.leb FLOW_STOP_THRESHOLD f then "PLANT RUNNING" else "PLANT STOP"
  | None => "PLANT STOP"
  end.

Definition lift_res {S A : Type} (r : Res A) : M S A := fun s => (r, s).

(** [max(...)] of a sequence: [ValueError] when it is empty. *)
Definition py_max (l : list Z) : Res Z :=
  match l with
  | [] => Raise ValueError
  | x :: xs => Ok (fold_left Z.max xs x)
  end.

Definition decode_at (regs : list word16) (addr : Z) (fmt : string) : float :=
  match py_getitem regs addr, py_getitem regs (addr + 1) with
  | Ok a, Ok b => decode_float a b fmt
  | _, _ => 0%float
  end.

Definition read_block_input (mb : Mb) (reg_map : list (Z * string)) : M World (option (list float)) :=
  let* m := lift_res (py_max (map fst reg_map)) in
  let max_reg := m + 2 in
  let* regs := read_input_regs mb 0 max_reg in
  match regs with
  | None | Some [] => ret None
  | Some regs => ret (Some (map (fun '(addr, fmt) => decode_at regs addr fmt) reg_map))
  end.

Definition FLOW_REGS : list (Z * string) := [(1, "ABCD")].

Definition read_flow : M World float :=
  let* vals := read_block_input MB_FLOW FLOW_REGS in
  match vals with
  | Some (v :: _) => ret v
  | _ => ret 0%float
  end.

Definition read_bit_status (di_addr : Z) : M World (option bool) :=
  let* bits := read_discrete MB_STATUS di_addr 1 in
  match bits with
  | None => ret None
  | Some bits => let* b := lift_res (py_getitem bits 0) in ret (Some b)
  end.

(** ** Historians *)

Definition HIST_INTERVAL_S := 60.
Definition RANGE_HOLDING_ORDER_DEFAULT := "CDAB".

Definition CAL_BITS : list (Z * string) :=
  [(1201, "N2O ZERO"); (1202, "N2O SPAN"); (1203, "NO SPAN"); (1204, "O2 SPAN")].

Definition LEVEL_DI : list (string * Z) := [("LOW", 3); ("MID", 4); ("HIGH", 5)].

Definition LEVEL_BITS : list (string * Z) :=
  [("LOW LEVEL", 3); ("MID LEVEL", 4); ("HIGH LEVEL", 5)].

(** The trigger bits that read true, in the order of the list. *)
Fixpoint active_modes (bits : list (Z * string)) : M World (list string) :=
  match bits with
  | [] => ret []
  | (addr, mode) :: rest =>
      let* b := read_bit_status addr in
      let* active := active_modes rest in
      ret (match b with Some true => mode :: active | _ => active end)
  end.

Definition _is_calibration : M World (string * Z) :=
  let* active := active_modes CAL_BITS in
  match active with
  | mode :: _ => ret (mode, 1)
  | [] => ret ("ANALYZER IDLE", 0)
  end.

Fixpoint first_level (bits : list (string * Z)) : M World string :=
  match bits with
  | [] => ret "LEVEL IDLE"
  | (nm, addr) :: rest =>
      let* b := read_bit_status addr in
      match b with
      | Some true => ret nm
      | _ => first_level rest
      end
  end.

Definition _level_mode : M World string := first_level LEVEL_BITS.

(** [for idx, v in enumerate(values, start=idx)] of [_invalid_min_only] *)
Fixpoint invalid_from (min_map : gmap Z MinCfg) (idx : Z) (values : list (option float))
    : M World bool :=
  match values with
  | [] => ret false
  | v :: rest =>
      match min_map !! idx with
      | None => invalid_from min_map (idx + 1) rest
      | Some cfg =>
          let* mn := get_float_holding (mc_reg cfg)
                       (default RANGE_HOLDING_ORDER_DEFAULT (mc_order cfg)) in
          match mn with
          | None => invalid_from min_map (idx + 1) rest
          | Some mn =>
              match v with
              | None => raise TypeError
              | Some x =>
                  if PrimFloat.ltb x mn then ret true
                  else invalid_from min_map (idx + 1) rest
              end
          end
      end
  end.

Definition _invalid_min_only (values : list (option float)) : M (Historian * World) bool :=
  let* h := self in
  in_world (invalid_from (min_map h) 1 values).


(** The [try] block of one pass of [Historian.run]. *)
Definition Historian_sample : M (Historian * World) unit :=
  let* flow := in_world read_flow in
  let pstat := plant_status (Some flow) in
  let* (analyzer_mode, is_cal) := in_world _is_calibration in
  let* level_mode := in_world _level_mode in
  let* h := self in
  let* new_vals := in_world (read_block_input (mb_an h) (live_regs h)) in
  let* (analyzer_mode, is_cal, new_vals) :=
    match new_vals with
    | None => ret ("ANALYZER OFFLINE", 0, last_good h)
    | Some new_vals =>
        (* Ensure correct length *)
        let new_vals := pad_to (val_count h) (map Some new_vals) in
        if String.eqb analyzer_mode "ANALYZER IDLE" then
          let* invalid := _invalid_min_only new_vals in
          if invalid then ret ("ANALYZER INVALID", is_cal, new_vals)
          else
            set_self (set_last_good new_vals) ;;
            ret (analyzer_mode, is_cal, new_vals)
        else
          (* Calibration freeze *)
          ret (analyzer_mode, is_cal, last_good h)
    end in
  let vals_for_sql := pad_to 5 new_vals in
  let* ts := in_world now in
  in_world (q_put (value_row (h_table h) ts vals_for_sql flow analyzer_mode level_mode is_cal pstat)).

(** Sleep with responsiveness: [for _ in range(n): if stop: break; sleep(0.1)] *)
Fixpoint responsive_sleep (n : nat) : M World unit :=
  match n with
  | O => ret tt
  | S n' =>
      let* stop := is_set in
      if stop then ret tt else sleep 0.1%float ;; responsive_sleep n'
  end.

(** One pass of the [while] loop of [Historian.run]. *)
Definition Historian_pass : M (Historian * World) unit :=
  try_except Historian_sample (fun _ => ret tt) ;;
  in_world (responsive_sleep (Z.to_nat (HIST_INTERVAL_S * 10))).


(** ** Level capture *)

Definition LEVEL_DELAYS : list Z := [120; 10; 10].

Definition sql_put_level (table : string) (ts : float) (level_name value_type : string)
    (value : float) : M World unit :=
  q_put (level_row table ts level_name value_type value).

Definition read_input_float (mb : Mb) (address : Z) (order : string) : M World (option float) :=
  let* regs := read_input_regs mb address 2 in
  match regs with
  | Some (r0 :: r1 :: _) => ret (Some (decode_float r0 r1 order))
  | _ => ret None
  end.

Definition read_holding_float_cached (reg : Z) (order : string) : M World (option float) :=
  get_float_holding reg order.

(** The three delayed readings: [for i, delay_s in enumerate(LEVEL_DELAYS, start=i)] *)
Fixpoint level_readings (mb_an : Mb) (table level_name : string) (i : Z) (delays : list Z)
    (vals : list float) : M World (list float) :=
  match delays with
  | [] => ret vals
  | delay_s :: rest =>
      sleep (float_of_Z delay_s) ;;
      let* v := read_input_float mb_an 0 "ABCD" in
      let* ts := now in
      match v with
      | Some v =>
          sql_put_level table ts level_name ("Val " ++ str_of_Z i)%string v ;;
          level_readings mb_an table level_name (i + 1) rest (vals ++ [v])
      | None =>
          level_readings mb_an table level_name (i + 1) rest vals
      end
  end.

(** [sum(vals)], added from left to right. *)
Definition py_sum (vals : list float) : float :=
  fold_left PrimFloat.add vals 0%float.

Definition actual_reference (level_key actual_ref_mode : string) : M World float :=
  if String.eqb actual_ref_mode "AN1_LEGACY" then
    match AN1_ACTUAL_REF (py_upper level_key) with
    | None => ret 0%float
    | Some reg =>
        let* actual_val := read_holding_float_cached reg "CDAB" in
        ret (default 0%float actual_val)
    end
  else
    match AN2_LEVEL_REF (py_upper level_key) with
    | Some cfg =>
        let* actual_val := read_holding_float_cached (expected_reg cfg)
                             (default "CDAB" (lr_order cfg)) in
        ret (default 0%float actual_val)
    | None => ret 0%float
    end.

(** [((err / actual_val) * 100.0) if actual_val != 0 else 0.0] *)
Definition percent_error (err actual_val : float) : Res float :=
  if negb (PrimFloat.eqb actual_val 0%float) then
    match py_truediv err actual_val with
    | Ok q => Ok (PrimFloat.mul q 100%float)
    | Raise e => Raise e
    | OutOfFuel => OutOfFuel
    end
  else Ok 0%float.

Definition level_capture_body (mb_an : Mb) (table level_key actual_ref_mode : string)
    : M World unit :=
  let level_name := (py_title level_key ++ " Level")%string in
  let* vals := level_readings mb_an table level_name 1 LEVEL_DELAYS [] in
  match vals with
  | [] => ret tt
  | _ :: _ =>
      let* avg_val := lift_res (py_truediv (py_sum vals) (float_of_Z (Z.of_nat (length vals)))) in
      let* ts := now in
      sql_put_level table ts level_name "Avg" avg_val ;;
      (* actual reference *)
      let* actual_val := actual_reference level_key actual_ref_mode in
      let err := PrimFloat.sub avg_val actual_val in
      let* pct := lift_res (percent_error err actual_val) in
      let* t := now in
      sql_put_level table t level_name "Actual" actual_val ;;
      sql_put_level table t level_name "Error" err ;;
      sql_put_level table t level_name "% Error" pct
  end.

Definition level_capture_worker (name : string) (mb_an : Mb) (table level_key actual_ref_mode : string)
    : M World unit :=
  try_except (level_capture_body mb_an table level_key actual_ref_mode) (fun _ => ret tt).

(** [threading.Thread(...).start()]: the new thread is alive; its id is its
    position in the table. *)
Definition start_thread (j : job) : M World nat :=
  let* ts := gets w_threads in
  modify (fun w => set_threads (w_threads w ++ [mkThread j true]) w) ;;
  ret (length ts).

Definition is_alive (tid : nat) : M World bool :=
  let* ts := gets w_threads in
  ret (match nth_error ts tid with Some t => th_alive t | None => false end).

(** Body of [for key, di in LEVEL_DI.items()] in [LevelMonitor.run]. *)
Definition LevelMonitor_visit (kd : string * Z) : M (LevelMonitor * World) unit :=
  let '(key, di) := kd in
  let* st := in_world (read_bit_status di) in
  match st with
  | None => ret tt
  | Some st =>
      let* m := self in
      let* last := lift_res (match lm_last m !! key with Some b => Ok b | None => Raise KeyError end) in
      (if st && negb last
       then in_world (start_thread (LevelJob (lm_name m) key)) ;; ret tt
       else ret tt) ;;
      set_self (set_lm_last (<[key := st]> (lm_last m)))
  end.

(** One pass of the [while] loop of [LevelMonitor.run]. *)
Definition LevelMonitor_pass : M (LevelMonitor * World) unit :=
  try_except (for_each LEVEL_DI LevelMonitor_visit) (fun _ => ret tt) ;;
  in_world (sleep 0.5%float).


(** ** Calibration engine *)


(** [range_map[tag]] *)
Definition range_entry (range_map : gmap string RangeEntry) (tag : string) : Res RangeEntry :=
  match range_map !! tag with
  | Some e => Ok e
  | None => Raise KeyError
  end.

(** [read_holding_float_cached(reg, "CDAB") if reg else None] *)
Definition read_reference (reg : option Z) : M World (option float) :=
  match reg with
  | Some r => if r =? 0 then ret None else read_holding_float_cached r "CDAB"
  | None => ret None
  end.

Definition read_expected_min_max (range_map : gmap string RangeEntry) (tag : string)
    : M World (option float * option float * option float) :=
  let* e := lift_res (range_entry range_map tag) in
  let* exp := read_reference (exp_reg e) in
  let* mn := read_reference (min_reg e) in
  let* mx := read_reference (max_reg e) in
  ret (exp, mn, mx).

Definition read_measured (mb : Mb) (range_map : gmap string RangeEntry) (tag : string)
    : M World (option float) :=
  let* e := lift_res (range_entry range_map tag) in
  let* regs := read_input_regs mb (in_reg e) 2 in
  match regs with
  | Some (r0 :: r1 :: _) => ret (Some (decode_float r0 r1 (in_order e)))
  | _ => ret None
  end.

Definition CAL_OK := "CAL OK".
Definition OUT_OF_CONTROL := "OUT OF CONTROL".
Definition READ_ERROR := "READ ERROR".

(** The last four lines of [evaluate], once the references are known. *)
Definition score (val expected min_r max_r : float) (factor : Z)
    : Res (option float * option float * option float * string) :=
  let error := PrimFloat.sub val expected in
  let accuracy :=
    if negb (PrimFloat.eqb expected 0%float) then
      match py_truediv (PrimFloat.abs error) expected with
      | Ok q => Ok (PrimFloat.mul q (float_of_Z factor))
      | Raise e => Raise e
      | OutOfFuel => OutOfFuel
      end
    else Ok (PrimFloat.mul (PrimFloat.abs val) (float_of_Z factor)) in
  let status :=
    if PrimFloat.leb min_r val && PrimFloat.leb val max_r then CAL_OK else OUT_OF_CONTROL in
  match accuracy with
  | Ok acc => Ok (Some expected, Some error, Some acc, status)
  | Raise e => Raise e
  | OutOfFuel => OutOfFuel
  end.

Definition evaluate (tag : string) (val : float) (cal_name : string)
    (range_map : gmap string RangeEntry)
    : M World (option float * option float * option float * string) :=
  let* e := lift_res (range_entry range_map tag) in
  if String.eqb cal_name "N2O ZERO" then
    lift_res (score val 0%float (PrimFloat.opp 0.2%float) 0.2%float (factor e))
  else
    let* refs := read_expected_min_max range_map tag in
    match refs with
    | (Some expected, Some min_r, Some max_r) =>
        lift_res (score val expected min_r max_r (factor e))
    | _ => ret (None, None, None, READ_ERROR)
    end.

Definition cal_insert (table : string) : string :=
  ("INSERT INTO " ++ table ++
   " (DATE, CAL_NAME, NAME, VAL, EXPECTED, ERROR, ACCURACY, STATUS) VALUES (?, ?, ?, ?, ?, ?, ?, ?)")%string.


(** Body of [for tag in tags] in [CalWorker.run]. *)
Definition capture_tag (cw : CalWorker) (ts : float) (tag : string) : M World unit :=
  let cal_name := ti_name (cw_info cw) in
  match cw_range_map cw !! tag with
  | None => ret tt
  | Some _ =>
      let* val := read_measured (cw_mb_an cw) (cw_range_map cw) tag in
      match val with
      | None => ret tt
      | Some val =>
          let* (expected, err, acc, status) := evaluate tag val cal_name (cw_range_map cw) in
          q_put (mkItem (cal_insert (cw_table cw))
            [PTime ts; PStr cal_name; PStr tag; PFloat val; float_or_null expected;
             float_or_null err; float_or_null acc; PStr status])
      end
  end.



(** Body of [for addr, info in self.trig_map.items()] in [CalMonitor.run]. *)
Definition CalMonitor_visit (ai : Z * TrigInfo) : M (CalMonitor * World) unit :=
  let addr := fst ai in
  let* st := in_world (read_bit_status addr) in
  match st with
  | None => ret tt
  | Some st =>
      let* m := self in
      let* last := lift_res (match cm_last m !! addr with Some b => Ok b | None => Raise KeyError end) in
      (if st && negb last then
         let* alive :=
           match cm_workers m !! addr with
           | Some tid => in_world (is_alive tid)
           | None => ret false
           end in
         if negb alive then
           let* tid := in_world (start_thread (CalJob (cm_name m) addr)) in
           set_self (fun m => set_cm_workers (<[addr := tid]> (cm_workers m)) m)
         else ret tt
       else ret tt) ;;
      set_self (fun m => set_cm_last (<[addr := st]> (cm_last m)) m)
  end.

(** One pass of the [while] loop of [CalMonitor.run]. *)
Definition CalMonitor_pass : M (CalMonitor * World) unit :=
  let* m := self in
  try_except (for_each (cm_trig_map m) CalMonitor_visit) (fun _ => ret tt) ;;
  in_world (sleep 0.5%float).


(** ** SQL writer *)

Definition BATCH_MAX : nat := 300.

Definition sql_connect : M World SqlConn :=
  let* n := tick in
  log_io EvDbConnect ;;
  match db_connect env n with
  | SinkOk => ret (mkSqlConn [])
  | SinkError => raise PyodbcError
  | SinkUnexpected => raise RuntimeError
  end.

(** Items put by the producer threads since the queue was last looked at. *)
Definition absorb_arrivals : M World unit :=
  let* n := tick in
  modify (fun w => set_queue (w_queue w ++ q_arrivals env n) w).

Definition q_pop : M World Item :=
  let* q := gets w_queue in
  match q with
  | [] => raise QueueEmpty
  | it :: rest => modify (set_queue rest) ;; ret it
  end.

(** [self.q.get(timeout=timeout)]: waits for an item, up to the timeout. *)
Definition q_get_timeout (timeout : float) : M World Item :=
  log_io (EvQueueWait timeout) ;; absorb_arrivals ;; q_pop.

(** [self.q.get_nowait()] *)
Definition q_get_nowait : M World Item := absorb_arrivals ;; q_pop.

(** [while len(batch) < 300: ...], with [room = 300 - len(batch)]. *)
Fixpoint drain (room : nat) (batch : list Item) : M World (list Item) :=
  match room with
  | O => ret batch
  | S room' =>
      try_except_only is_QueueEmpty
        (let* it := q_get_nowait in drain room' (batch ++ [it]))
        (ret batch)
  end.

(** The inner [try]: [None] stands for the [continue] of [except queue.Empty]. *)
Definition take_batch : M World (option (list Item)) :=
  try_except_only is_QueueEmpty
    (let* item := q_get_timeout 1%float in
     let* batch := drain (BATCH_MAX - length [item]) [item] in
     ret (Some batch))
    (ret None).

(** [cur.execute(it["sql"], it["params"])]: the row joins the open transaction. *)
Definition execute (it : Item) : M (SQLWriter * World) unit :=
  let* n := in_world tick in
  match db_execute env n it with
  | SinkOk =>
      set_self (fun s => mkSQLWriter (option_map (fun c => mkSqlConn (pending c ++ [it])) (conn s)))
  | SinkError => raise PyodbcError
  | SinkUnexpected => raise RuntimeError
  end.

(** [self.conn.commit()] *)
Definition commit : M (SQLWriter * World) unit :=
  let* n := in_world tick in
  match db_commit env n with
  | SinkOk =>
      let* s := self in
      in_world (modify (fun w =>
        set_committed (w_committed w ++ match conn s with Some c => pending c | None => [] end) w)) ;;
      set_self (fun s => mkSQLWriter (option_map (fun _ => mkSqlConn []) (conn s)))
  | SinkError => raise PyodbcError
  | SinkUnexpected => raise RuntimeError
  end.

Definition flush (batch : list Item) : M (SQLWriter * World) unit :=
  for_each batch execute ;; commit.

(** [except pyodbc.Error]: close, forget the connection, back off. *)
Definition on_pyodbc_error : M (SQLWriter * World) unit :=
  let* s := self in
  (match conn s with
   | Some _ => in_world (log_io EvDbClose)
   | None => ret tt
   end) ;;
  set_self (fun _ => mkSQLWriter None) ;;
  in_world (sleep 5%float).

(** [if self.conn is None: self.conn = sql_connect()] *)
Definition open_connection : M (SQLWriter * World) unit :=
  let* s := self in
  match conn s with
  | None =>
      let* c := in_world sql_connect in
      set_self (fun _ => mkSQLWriter (Some c))
  | Some _ => ret tt
  end.

(** The [try] block of one pass of [SQLWriter.run]. *)
Definition SQLWriter_try : M (SQLWriter * World) unit :=
  open_connection ;;
  let* batch := in_world take_batch in
  match batch with
  | None => ret tt
  | Some batch => flush batch
  end.

(** One pass of the [while] loop of [SQLWriter.run]. *)
Definition SQLWriter_pass : M (SQLWriter * World) unit :=
  try_except SQLWriter_try
    (fun e => if is_PyodbcError e then on_pyodbc_error else in_world (sleep 1%float)).

Fixpoint SQLWriter_run (fuel : nat) : M (SQLWriter * World) unit :=
  match fuel with
  | O => out_of_fuel
  | S fuel' =>
      let* stop := in_world is_set in
      if stop then
        let* s := self in
        match conn s with
        | Some _ => in_world (log_io EvDbClose)
        | None => ret tt
        end
      else SQLWriter_pass ;; SQLWriter_run fuel'
  end.

End Service.

(* ===================================================================== *)
(** * Sample environments                                                 *)
(* ===================================================================== *)

(** A clock that advances by one second per call. *)
Definition clock (n : nat) : float :=
  PrimFloat.add 1700000000%float (float_of_Z (Z.of_nat n)).

(** The two registers of the binary32 number with bit pattern [bits]. *)
Definition regs_of_bits (bits : Z) : list word16 :=
  [word16_of_Z (bits / 65536); word16_of_Z bits].

(** Registers holding 20.0 in the order "ABCD" and in the order "CDAB". *)
Definition regs_20_ABCD : list word16 := regs_of_bits 0x41A00000.
Definition regs_20_CDAB : list word16 := rev regs_20_ABCD.

(** Every device answers; every trigger bit is false; every analyzer
    channel and every reference register pair reads 20.0; the SQL server
    accepts everything; nobody else produces rows. *)
Definition env_idle : Env :=
  mkEnv clock (fun _ => false)
    (fun _ _ => Connected)
    (fun _ _ _ _ => (Values [false; false; false; false; false; false; false; false], true))
    (fun _ _ _ _ => (Values (regs_20_ABCD ++ regs_20_CDAB ++ regs_20_ABCD ++ regs_20_ABCD), true))
    (fun _ _ _ _ => (Values regs_20_CDAB, true))
    (fun _ => SinkOk) (fun _ _ => SinkOk) (fun _ => SinkOk)
    (fun _ => []).

(** A clock that advances by a tenth of a second per call. *)
Definition clock_tenths (n : nat) : float :=
  PrimFloat.add 1700000000%float (PrimFloat.mul 0.1%float (float_of_Z (Z.of_nat n))).

(** No device accepts a connection; time is read in tenths of a second. *)
Definition env_refused : Env :=
  mkEnv clock_tenths (fun _ => false)
    (fun _ _ => Refused)
    (fun _ _ _ _ => (ErrorReply, false))
    (fun _ _ _ _ => (ErrorReply, false))
    (fun _ _ _ _ => (ErrorReply, false))
    (fun _ => SinkOk) (fun _ _ => SinkOk) (fun _ => SinkOk)
    (fun _ => []).


(** The initial world, but with a connected client for analyzer 1. *)
Definition world_an1_connected : World :=
  set_links (put_link MB_AN1 (mkSharedModbus (Some true) 0%float) (w_links initial_world))
    initial_world.

(** The status device answers with bit 1201 set; analyzer 1 refuses the
    connection when [an1_up] is false. *)
Definition env_calibrating (an1_up : bool) : Env :=
  mkEnv clock (fun _ => false)
    (fun mb _ => match mb with MB_AN1 => if an1_up then Connected else Refused | _ => Connected end)
    (fun _ address _ _ => (Values [address =? 1201], true))
    (fun _ _ _ _ => (Values (regs_20_ABCD ++ regs_20_CDAB ++ regs_20_ABCD ++ regs_20_ABCD), true))
    (fun _ _ _ _ => (Values regs_20_CDAB, true))
    (fun _ => SinkOk) (fun _ _ => SinkOk) (fun _ => SinkOk)
    (fun _ => []).

(** Registers holding 5.0 and 10.0. *)
Definition regs_5_ABCD : list word16 := regs_of_bits 0x40A00000.
Definition regs_10_CDAB : list word16 := rev (regs_of_bits 0x41200000).

(** Scenario D: every channel reads 5.0 and every minimum is 10.0. *)
Definition env_below_min : Env :=
  mkEnv clock (fun _ => false)
    (fun _ _ => Connected)
    (fun _ _ _ _ => (Values [false], true))
    (fun _ _ _ _ => (Values (regs_5_ABCD ++ rev regs_5_ABCD ++ regs_5_ABCD ++ regs_5_ABCD), true))
    (fun _ _ _ _ => (Values regs_10_CDAB, true))
    (fun _ => SinkOk) (fun _ _ => SinkOk) (fun _ => SinkOk)
    (fun _ => []).

(** The historian of analyzer 1, as [main] creates it and once it has
    adopted 20.0. *)
Definition hist1 : Historian :=
  new_Historian "AN1-HIST" MB_AN1 AN1_LIVE_REGS AN1_MIN_MAP "Value" 3.
Definition hist1_at_20 : Historian :=
  set_last_good [Some 20%float; Some 20%float; Some 20%float] hist1.

(** Two rows waiting in the queue. *)
Definition row_a : Item := level_row "LevelCapture" (clock 0) "Low Level" "Val 1" 20%float.
Definition row_b : Item := level_row "LevelCapture" (clock 1) "Low Level" "Val 2" 20%float.
Definition world_two_rows : World := set_queue [row_a; row_b] initial_world.

(** The SQL server accepts connections and fails every statement with a
    [pyodbc.Error]. *)
Definition env_sink_error : Env :=
  mkEnv clock (fun _ => false)
    (fun _ _ => Connected)
    (fun _ _ _ _ => (Values [false], true))
    (fun _ _ _ _ => (Values regs_20_ABCD, true))
    (fun _ _ _ _ => (Values regs_20_CDAB, true))
    (fun _ => SinkOk) (fun _ _ => SinkError) (fun _ => SinkOk)
    (fun _ => []).

(** The worker of the zero calibration of analyzer 1. *)
Definition zero_worker : CalWorker :=
  mkCalWorker "AN1-CAL" 1201 (mkTrigInfo "N2O ZERO" 120 ["N2O"; "NO"; "O2"])
    MB_AN1 "CAL" AN1_RANGE_MAP.


(** The level trigger DI 3 reads true, then false, then true again on
    three successive passes of a level monitor started in the initial
    world (it is polled at the instants 2, 6 and 10); DI 4 and DI 5 read
    false. *)
Definition env_retrigger : Env :=
  mkEnv clock_tenths (fun _ => false)
    (fun _ _ => Connected)
    (fun _ address _ n => (Values [(address =? 3) && negb (n =? 6)%nat], true))
    (fun _ _ _ _ => (Values regs_20_ABCD, true))
    (fun _ _ _ _ => (Values regs_20_CDAB, true))
    (fun _ => SinkOk) (fun _ _ => SinkOk) (fun _ => SinkOk)
    (fun _ => []).


(** The level monitor and the calibration monitor of analyzer 1, as [main]
    creates them. *)
Definition lvl1 : LevelMonitor :=
  new_LevelMonitor "AN1-LVL" MB_AN1 "LevelCapture" "AN1_LEGACY" (map fst LEVEL_DI).
Definition cal1 : CalMonitor :=
  new_CalMonitor "AN1-CAL" CAL_TRIG_AN1 MB_AN1 "CAL" AN1_RANGE_MAP.

(** The calibration trigger 1201 reads true, then false, then true again
    on three successive passes of a calibration monitor of analyzer 1
    started in the initial world (it is polled at the instants 2, 7 and
    12); the other triggers read false. *)
Definition env_cal_retrigger : Env :=
  mkEnv clock_tenths (fun _ => false)
    (fun _ _ => Connected)
    (fun _ address _ n => (Values [(address =? 1201) && negb (n =? 7)%nat], true))
    (fun _ _ _ _ => (Values regs_20_ABCD, true))
    (fun _ _ _ _ => (Values regs_20_CDAB, true))
    (fun _ => SinkOk) (fun _ _ => SinkOk) (fun _ => SinkOk)
    (fun _ => []).

(* ===================================================================== *)
(** * Vocabulary of the statements                                        *)
(* ===================================================================== *)

(** The reference values of a calibration are available: the fixed ones of
    the zero kind, or the three values read through the cache. *)
Definition references_available (env : Env) (cal_name : string)
    (range_map : gmap string RangeEntry) (tag : string) (w : World)
    (expected min_r max_r : float) (w' : World) : Prop :=
  if String.eqb cal_name "N2O ZERO" then
    expected = 0%float /\ min_r = PrimFloat.opp 0.2%float /\ max_r = 0.2%float /\ w' = w
  else
    read_expected_min_max env range_map tag w = (Ok (Some expected, Some min_r, Some max_r), w').

(** [post m s Q]: run from [s], [m] returns normally, with a value and a
    final state that satisfy [Q]. *)
Definition post {S A : Type} (m : M S A) (s : S) (Q : A -> S -> Prop) : Prop :=
  exists a s', m s = (Ok a, s') /\ Q a s'.

(** What the transport layer leaves alone: the cache, the queue, the
    threads and the sink; time only moves forward. *)
Definition transport_frame (w w' : World) : Prop :=
  w_cache w' = w_cache w /\ w_queue w' = w_queue w /\
  w_threads w' = w_threads w /\ w_committed w' = w_committed w /\
  (w_step w <= w_step w')%nat.

(** The shape the three read methods of [SharedModbus] share. *)
Definition guarded_read {A : Type} (env : Env)
    (oracle : Mb -> Z -> Z -> nat -> reply A * bool) (mb : Mb) (address count : Z)
    : M World (option A) :=
  let* ok := _ensure env mb in
  if negb ok then ret None
  else
    try_except
      (library_read mb address count oracle)
      (fun _ => record_failure env mb ;; ret None).


(** The cache holds for [key] a value [v] fetched at most [ttl] before [t]. *)
Definition cache_hit (rc : RangeCache) (key : Z * string) (t v : float) : Prop :=
  exists ts, cache rc !! key = Some (ts, v) /\
    PrimFloat.leb (PrimFloat.sub t ts) (ttl rc) = true.

(** The cache holds nothing for [key], or something older than [ttl]. *)
Definition cache_miss (rc : RangeCache) (key : Z * string) (t : float) : Prop :=
  forall ts v, cache rc !! key = Some (ts, v) ->
    PrimFloat.leb (PrimFloat.sub t ts) (ttl rc) = false.

(** A live read that yields no value: no answer, or fewer than two registers. *)
Definition no_float (regs : option (list word16)) : Prop :=
  match regs with
  | None => True
  | Some l => (length l < 2)%nat
  end.

(** What a cached lookup leaves alone: the queue, the threads and the sink. *)
Definition data_frame (w w' : World) : Prop :=
  w_queue w' = w_queue w /\ w_threads w' = w_threads w /\ w_committed w' = w_committed w.

(** The level capture has no reference to compare with: none is configured
    for the level, or the cached read of the configured one gives [None]. *)
Definition reference_unavailable (env : Env) (level_key actual_ref_mode : string)
    (w : World) : Prop :=
  if String.eqb actual_ref_mode "AN1_LEGACY" then
    match AN1_ACTUAL_REF (py_upper level_key) with
    | None => True
    | Some reg => fst (read_holding_float_cached env reg "CDAB" w) = Ok None
    end
  else
    match AN2_LEVEL_REF (py_upper level_key) with
    | None => True
    | Some cfg =>
        fst (read_holding_float_cached env (expected_reg cfg) (default "CDAB" (lr_order cfg)) w)
          = Ok None
    end.

(** Whatever the outcome, the final state is related to the initial one. *)
Definition keeps {S A : Type} (R : S -> S -> Prop) (m : M S A) : Prop :=
  forall s, R s (snd (m s)).

(** What one pass of a historian reads before it decides: the flow, the
    calibration mode, the level mode and the live values. *)
Definition Historian_inputs (env : Env) (h : Historian)
    : M World (float * (string * Z) * string * option (list float)) :=
  let* flow := read_flow env in
  let* cal := _is_calibration env in
  let* level_mode := _level_mode env in
  let* new_vals := read_block_input env (mb_an h) (live_regs h) in
  ret (flow, cal, level_mode, new_vals).

(** The end of a pass that emits a record: the time is read and the row
    is queued. *)
Definition emitted (env : Env) (h : Historian) (w : World) (flow : float)
    (analyzer_mode level_mode : string) (is_cal : Z) (vals : list (option float))
    : Res unit * (Historian * World) :=
  (Ok tt,
   (h, set_queue
         (w_queue w ++
          [value_row (h_table h) (time_time env (w_step w)) (pad_to 5 vals) flow
             analyzer_mode level_mode is_cal (plant_status (Some flow))])
         (set_step (S (w_step w)) w))).

(** The rows executed on the writer's connection and not yet committed. *)
Definition pending_rows (s : SQLWriter) : list Item :=
  match conn s with
  | Some c => pending c
  | None => []
  end.

(** At instant [k] the status device does not report the trigger bit at
    [addr] as true (it reports false, an error, or does not answer). *)
Definition trigger_not_true (env : Env) (addr : Z) (k : nat) : Prop :=
  match fst (mb_discrete env MB_STATUS addr 1 k) with
  | Values (true :: _) => False
  | _ => True
  end.


Definition job_owner (j : job) : string :=
  match j with
  | CalJob owner _ => owner
  | LevelJob owner _ => owner
  end.

(** No two live threads were started for the job [j] (a monitor and one
    of its triggers). *)
Definition at_most_one_session (j : job) (w : World) : Prop :=
  forall (tid1 tid2 : nat) (t1 t2 : thread),
    nth_error (w_threads w) tid1 = Some t1 ->
    nth_error (w_threads w) tid2 = Some t2 ->
    th_alive t1 = true -> th_alive t2 = true ->
    th_job t1 = j -> th_job t2 = j ->
    tid1 = tid2.

(** What the rest of the program may do to the thread table while a
    monitor is between two steps: threads end, other owners start theirs;
    no live thread of [owner] appears. *)
Definition threads_evolve (owner : string) (ts ts' : list thread) : Prop :=
  forall (tid : nat) (t' : thread),
    nth_error ts' tid = Some t' -> th_alive t' = true -> job_owner (th_job t') = owner ->
    nth_error ts tid = Some t'.

(** The steps of a calibration monitor running among the other threads:
    it looks at one of its triggers, it makes a whole pass, or the rest of
    the program moves. *)
Inductive cal_system (env : Env) : CalMonitor * World -> CalMonitor * World -> Prop :=
| monitor_visits (ai : Z * TrigInfo) (m : CalMonitor) (w : World) :
    In ai (cm_trig_map m) ->
    cal_system env (m, w) (snd (CalMonitor_visit env ai (m, w)))
| monitor_passes (m : CalMonitor) (w : World) :
    cal_system env (m, w) (snd (CalMonitor_pass env (m, w)))
| world_moves (m : CalMonitor) (w w' : World) :
    threads_evolve (cm_name m) (w_threads w) (w_threads w') ->
    cal_system env (m, w) (m, w').

(** Every live worker of the monitor is the one it remembers for the
    trigger. *)
Definition workers_known (s : CalMonitor * World) : Prop :=
  forall (tid : nat) (t : thread) (addr : Z),
    nth_error (w_threads (snd s)) tid = Some t ->
    th_alive t = true ->
    th_job t = CalJob (cm_name (fst s)) addr ->
    cm_workers (fst s) !! addr = Some tid.

(** The state after [n] passes of a calibration monitor, of a level monitor. *)
Definition cal_passes (env : Env) (n : nat) (s : CalMonitor * World) : CalMonitor * World :=
  Nat.iter n (fun s => snd (CalMonitor_pass env s)) s.
Definition level_passes (env : Env) (n : nat) (s : LevelMonitor * World) : LevelMonitor * World :=
  Nat.iter n (fun s => snd (LevelMonitor_pass env s)) s.

(* ===================================================================== *)
(** * Table creation at start-up (ensure_tables)                         *)
(* ===================================================================== *)

Definition T_VALUE_1 : string := "Value".
Definition T_VALUE_2 : string := "Value_1".
Definition T_LVL_1 : string := "LevelCapture".
Definition T_LVL_2 : string := "LevelCapture_1".
Definition T_CAL_1 : string := "CAL".
Definition T_CAL_2 : string := "CAL_1".

(** The line feed. *)
Definition NL : string := String (Ascii.ascii_of_nat 10) EmptyString.

(** [s.replace(old, new)]: the occurrences of [old] are found from left to
    right, without overlap; [skip] is what is left of an occurrence that
    has just been replaced.  An empty [old] matches before every
    character and at the end. *)
Fixpoint replace_from (old new : string) (skip : nat) (s : string) : string :=
  match s with
  | EmptyString => if (String.length old =? 0)%nat then new else EmptyString
  | String c s' =>
      match skip with
      | S k => replace_from old new k s'
      | O =>
          if (String.length old =? 0)%nat then (new ++ String c (replace_from old new 0 s'))%string
          else if String.prefix old s
               then (new ++ replace_from old new (String.length old - 1) s')%string
               else String c (replace_from old new 0 s')
      end
  end.

Definition py_replace (s old new : string) : string := replace_from old new 0 s.

(** [sub in s] *)
Fixpoint py_in (sub s : string) : bool :=
  String.prefix sub s ||
  match s with
  | EmptyString => false
  | String _ s' => py_in sub s'
  end.

(** The f-string of [ddl_value], as a function of the table name that
    fills its place holders. *)
Definition ddl_value_template (t : string) : string :=
  String.concat NL
    ["";
     "    IF NOT EXISTS (SELECT * FROM sys.tables WHERE name = '" ++ t ++ "')";
     "    BEGIN";
     "      CREATE TABLE " ++ t ++ "(";
     "        [DATE] DATETIME NOT NULL,";
     "        VAL_1 FLOAT NULL, VAL_2 FLOAT NULL, VAL_3 FLOAT NULL, VAL_4 FLOAT NULL, VAL_5 FLOAT NULL,";
     "        Flow FLOAT NULL,";
     "        Analyzer_Mode VARCHAR(50) NULL,";
     "        Level_Mode VARCHAR(50) NULL,";
     "        IsCalibration BIT NOT NULL DEFAULT 0,";
     "        Plant_Status VARCHAR(20) NOT NULL DEFAULT 'PLANT STOP'";
     "      )";
     "    END";
     "    ELSE";
     "    BEGIN";
     "      IF NOT EXISTS(SELECT * FROM sys.columns WHERE Name='Plant_Status' AND Object_ID=Object_ID('" ++ t ++ "'))";
     "        ALTER TABLE " ++ t ++ " ADD Plant_Status VARCHAR(20) NOT NULL DEFAULT 'PLANT STOP';";
     "    END";
     "    "]%string.

(** The f-string of [ddl_level]. *)
Definition ddl_level_template (t : string) : string :=
  String.concat NL
    ["";
     "    IF NOT EXISTS (SELECT * FROM sys.tables WHERE name = '" ++ t ++ "')";
     "    BEGIN";
     "      CREATE TABLE " ++ t ++ "(";
     "        [Timestamp] DATETIME NOT NULL,";
     "        LevelName VARCHAR(50) NOT NULL,";
     "        ValueType VARCHAR(50) NOT NULL,";
     "        Value FLOAT NULL";
     "      )";
     "    END";
     "    "]%string.

(** The f-string of [ddl_cal]. *)
Definition ddl_cal_template (t : string) : string :=
  String.concat NL
    ["";
     "    IF NOT EXISTS (SELECT * FROM sys.tables WHERE name = '" ++ t ++ "')";
     "    BEGIN";
     "      CREATE TABLE " ++ t ++ "(";
     "        [DATE] DATETIME NOT NULL,";
     "        CAL_NAME VARCHAR(50) NOT NULL,";
     "        NAME VARCHAR(50) NOT NULL,";
     "        VAL FLOAT NULL,";
     "        EXPECTED FLOAT NULL,";
     "        ERROR FLOAT NULL,";
     "        ACCURACY FLOAT NULL,";
     "        STATUS VARCHAR(50) NULL";
     "      )";
     "    END";
     "    "]%string.

Definition ddl_value : string := ddl_value_template T_VALUE_1.
Definition ddl_value2 : string := py_replace ddl_value T_VALUE_1 T_VALUE_2.
Definition ddl_level : string := ddl_level_template T_LVL_1.
Definition ddl_level2 : string := py_replace ddl_level T_LVL_1 T_LVL_2.
Definition ddl_cal : string := ddl_cal_template T_CAL_1.
Definition ddl_cal2 : string := py_replace ddl_cal T_CAL_1 T_CAL_2.

(** The statements of the [for ddl in [...]] loop, as [cur.execute(ddl)]
    passes them on: no parameters. *)
Definition ensure_tables_statements : list Item :=
  map (fun ddl => mkItem ddl []) [ddl_value; ddl_value2; ddl_level; ddl_level2; ddl_cal; ddl_cal2].

(** Code that works on a connection of its own, [conn], local to the
    caller. *)
Definition with_connection {A : Type} (c : SqlConn) (m : M (SQLWriter * World) A) : M World A :=
  fun w =>
    match m (mkSQLWriter (Some c), w) with
    | (r, (_, w')) => (r, w')
    end.

Definition ensure_tables (env : Env) : M World unit :=
  try_except
    (let* c := sql_connect env in
     with_connection c (for_each ensure_tables_statements (execute env) ;; commit env) ;;
     log_io EvDbClose)
    (fun _ => ret tt).

(** The SQL server accepts every call. *)
Definition sink_accepts (env : Env) : Prop :=
  (forall n, db_connect env n = SinkOk) /\
  (forall n it, db_execute env n it = SinkOk) /\
  (forall n, db_commit env n = SinkOk).

(* ===================================================================== *)
(** * Vocabulary of the further properties                               *)
(* ===================================================================== *)

(** The 16-bit word with its two bytes exchanged. *)
Definition swap_bytes (z : Z) : Z := (z mod 256) * 256 + z / 256.

(** The device never accepts a connection. *)
Definition unreachable (env : Env) (mb : Mb) : Prop :=
  forall n, mb_connect env mb n <> Connected.

(** The objects of the other devices are as they were. *)
Definition other_links_kept (mb : Mb) (w w' : World) : Prop :=
  forall mb', mb' <> mb -> get_link mb' (w_links w') = get_link mb' (w_links w).

(** What one call of a read method may do outside the process: nothing,
    one connection attempt, one request, or an attempt followed by a
    request; a result other than [None] comes with a request. *)
Definition read_footprint {A : Type}
    (read : Env -> Mb -> Z -> Z -> M World (option A)) : Prop :=
  forall (env : Env) (mb : Mb) (address count : Z) (w : World),
    post (read env mb address count) w (fun r w' =>
      other_links_kept mb w w' /\
      exists evs, w_io w' = w_io w ++ evs /\
        (evs = [] \/ evs = [EvConnect mb] \/ evs = [EvRead mb address count] \/
         evs = [EvConnect mb; EvRead mb address count]) /\
        (r <> None -> In (EvRead mb address count) evs)).

(** What a read method returns in terms of what the device delivers. *)
Definition read_delivery {A : Type}
    (read : Env -> Mb -> Z -> Z -> M World (option A))
    (oracle : Env -> Mb -> Z -> Z -> nat -> reply A * bool) : Prop :=
  forall (env : Env) (mb : Mb) (address count : Z) (w : World),
    let l := get_link mb (w_links w) in
    (forall v w', read env mb address count w = (Ok (Some v), w') ->
       exists n, (w_step w <= n < w_step w')%nat /\
         fst (oracle env mb address count n) = Values v) /\
    (is_connected l = true ->
     forall v, fst (oracle env mb address count (w_step w)) = Values v ->
       exists w', read env mb address count w = (Ok (Some v), w') /\
         last_fail (get_link mb (w_links w')) = last_fail l) /\
    (is_connected l = true ->
     fst (oracle env mb address count (w_step w)) = ErrorReply ->
     exists w', read env mb address count w = (Ok None, w') /\
       w_io w' = w_io w ++ [EvRead mb address count] /\
       last_fail (get_link mb (w_links w')) = last_fail l).

(** A call to a Modbus device: a connection attempt or a request. *)
Definition is_device_call (e : io_event) : Prop :=
  match e with
  | EvConnect _ | EvRead _ _ _ => True
  | _ => False
  end.

(** The device accepts no connection and its client is not connected. *)
Definition down (env : Env) (mb : Mb) (w : World) : Prop :=
  unreachable env mb /\ is_connected (get_link mb (w_links w)) = false.

(** What code that only reads devices does to the world: the queue, the
    threads and the sink are as before, time moves forward, the calls made
    are calls to devices, a device that is down stays down, and the cache
    is as before while the range device is down. *)
Definition reads_only (env : Env) (w w' : World) : Prop :=
  w_queue w' = w_queue w /\ w_threads w' = w_threads w /\
  w_committed w' = w_committed w /\ (w_step w <= w_step w')%nat /\
  (exists evs, w_io w' = w_io w ++ evs /\ Forall is_device_call evs) /\
  (forall mb, down env mb w -> down env mb w') /\
  (down env MB_RANGE w -> w_cache w' = w_cache w).

(** Time does not go back. *)
Definition moves_on (w w' : World) : Prop := (w_step w <= w_step w')%nat.

(** A relation on worlds, for code that runs next to the fields of an object. *)
Definition on_world {T : Type} (R : World -> World -> Prop) (s s' : T * World) : Prop :=
  R (snd s) (snd s').

(** [safe R m]: whatever the outcome, a value or an exception, [m] ends
    (no loop of it is cut short) in a state related to the initial one. *)
Definition safe {S A : Type} (R : S -> S -> Prop) (m : M S A) : Prop :=
  forall s, fst (m s) <> OutOfFuel /\ R s (snd (m s)).

(** [total R m]: [m] returns a value, in a state related to the initial one. *)
Definition total {S A : Type} (R : S -> S -> Prop) (m : M S A) : Prop :=
  forall s, post m s (fun _ s' => R s s').

(** The two registers that hold the float at [addr] in a block read from
    address 0, when the block reaches that far. *)
Definition block_pair (regs : list word16) (addr : Z) : option (word16 * word16) :=
  match nth_error regs (Z.to_nat addr), nth_error regs (S (Z.to_nat addr)) with
  | Some r0, Some r1 => Some (r0, r1)
  | _, _ => None
  end.

(** The float of an entry of a register map in a block: 0.0 when the block
    is too short. *)
Definition block_value (regs : list word16) (entry : Z * string) : float :=
  match block_pair regs (fst entry) with
  | Some (r0, r1) => decode_float r0 r1 (snd entry)
  | None => 0%float
  end.

(** The status device never answers a one-bit request with an empty list
    of bits. *)
Definition bits_answered (env : Env) : Prop :=
  forall (addr : Z) (n : nat), fst (mb_discrete env MB_STATUS addr 1 n) <> Values [].

(** A record of a historian: a row for its table with the eleven
    parameters of the statement. *)
Definition historian_row (h : Historian) (row : Item) : Prop :=
  sql row = value_insert (h_table h) /\ length (params row) = 11%nat.

(** A record written while the analyzer is offline: the values are the
    last good ones, the calibration flag is 0. *)
Definition offline_row (h : Historian) (row : Item) : Prop :=
  exists ts flow level_mode,
    row = value_row (h_table h) ts (pad_to 5 (last_good h)) flow
            "ANALYZER OFFLINE" level_mode 0 (plant_status (Some flow)).

(** The state after [n] passes of a historian. *)
Definition historian_passes (env : Env) (n : nat) (s : Historian * World) : Historian * World :=
  Nat.iter n (fun s => snd (Historian_pass env s)) s.

Definition is_sleep (e : io_event) : bool :=
  match e with
  | EvSleep _ => true
  | _ => false
  end.

(** The sleeps made so far, oldest first. *)
Definition sleeps (w : World) : list io_event := List.filter is_sleep (w_io w).


(** At instant [k] the status device does not report the bit at [addr] as
    false (it reports true, an error, or does not answer). *)
Definition trigger_not_false (env : Env) (addr : Z) (k : nat) : Prop :=
  match fst (mb_discrete env MB_STATUS addr 1 k) with
  | Values (false :: _) => False
  | _ => True
  end.

(** The thread table grew by [new], none of which was started for [j]. *)
Definition no_session_started (j : job) (w w' : World) : Prop :=
  exists new, w_threads w' = w_threads w ++ new /\ Forall (fun t => th_job t <> j) new.

(** The last reading a level monitor has of the level [key] was true. *)
Definition held (key : string) (s : LevelMonitor * World) : Prop :=
  lm_last (fst s) !! key = Some true.

(** A row of a calibration table written by the worker [cw] in the cycle
    stamped [ts]: the calibration's name, one of the given tags, the
    measured value, and either the three numbers of the evaluation with
    the status CAL OK or OUT OF CONTROL, or three NULLs with the status
    READ ERROR. *)
Definition cal_row (cw : CalWorker) (ts : float) (tags : list string) (row : Item) : Prop :=
  exists (tag : string) (val : float) (expected err acc : option float) (status : string),
    row = mkItem (cal_insert (cw_table cw))
            [PTime ts; PStr (ti_name (cw_info cw)); PStr tag; PFloat val;
             float_or_null expected; float_or_null err; float_or_null acc; PStr status] /\
    In tag tags /\ cw_range_map cw !! tag <> None /\
    ((status = READ_ERROR /\ expected = None /\ err = None /\ acc = None) \/
     ((status = CAL_OK \/ status = OUT_OF_CONTROL) /\
      expected <> None /\ err <> None /\ acc <> None)).

(** The rows the producer threads put on the queue at the instants
    [a], ..., [b - 1], in order. *)
Definition arrived (env : Env) (a b : nat) : list Item :=
  flat_map (q_arrivals env) (seq a (b - a)).

(** From the instant [N] on the stop event is set. *)
Definition stopped_from (env : Env) (N : nat) : Prop :=
  forall k, (N <= k)%nat -> stop_is_set env k = true.

(* ===================================================================== *)
(** * Further sample environments                                        *)
(* ===================================================================== *)

(** Every channel reads 5.0 and every minimum register holds 10.0, as in
    scenario D, but the range device refuses the connection: the minima
    cannot be read. *)
Definition env_min_unreadable : Env :=
  mkEnv clock (fun _ => false)
    (fun mb _ => match mb with MB_RANGE => Refused | _ => Connected end)
    (fun _ _ _ _ => (Values [false], true))
    (fun _ _ _ _ => (Values (regs_5_ABCD ++ rev regs_5_ABCD ++ regs_5_ABCD ++ regs_5_ABCD), true))
    (fun _ _ _ _ => (Values regs_10_CDAB, true))
    (fun _ => SinkOk) (fun _ _ => SinkOk) (fun _ => SinkOk)
    (fun _ => []).

(** The status device answers with the bits 1202 and 1203 set. *)
Definition env_two_calibrations : Env :=
  mkEnv clock (fun _ => false)
    (fun _ _ => Connected)
    (fun _ address _ _ => (Values [(address =? 1202) || (address =? 1203)], true))
    (fun _ _ _ _ => (Values (regs_20_ABCD ++ regs_20_CDAB ++ regs_20_ABCD ++ regs_20_ABCD), true))
    (fun _ _ _ _ => (Values regs_20_CDAB, true))
    (fun _ => SinkOk) (fun _ _ => SinkOk) (fun _ => SinkOk)
    (fun _ => []).

(** A third row, produced later. *)
Definition row_c : Item := level_row "LevelCapture" (clock 2) "Low Level" "Val 3" 20%float.

(** The SQL server accepts connections; the statement executed at instant
    5 raises an exception that is not a [pyodbc.Error], every other
    statement and every commit is accepted; [row_c] is put on the queue at
    instant 7. *)
Definition env_sink_unexpected : Env :=
  mkEnv clock (fun _ => false)
    (fun _ _ => Connected)
    (fun _ _ _ _ => (Values [false], true))
    (fun _ _ _ _ => (Values regs_20_ABCD, true))
    (fun _ _ _ _ => (Values regs_20_CDAB, true))
    (fun _ => SinkOk)
    (fun n _ => if (n =? 5)%nat then SinkUnexpected else SinkOk)
    (fun _ => SinkOk)
    (fun n => if (n =? 7)%nat then [row_c] else []).

(* ===================================================================== *)
(** * Vocabulary of a tick, of a capture cycle                           *)
(* ===================================================================== *)

(** The results of [f x] for the [x] of [xs], asked one after the other. *)
Fixpoint read_each {A B : Type} (f : A -> M World B) (xs : list A) : M World (list B) :=
  match xs with
  | [] => ret []
  | x :: xs' =>
      let* b := f x in
      let* bs := read_each f xs' in
      ret (b :: bs)
  end.

(** The names of the triggers that read true, given the readings [bs] of
    the bits [bits]. *)
Fixpoint actives (bits : list (Z * string)) (bs : list (option bool)) : list string :=
  match bits, bs with
  | (_, name) :: bits', b :: bs' =>
      match b with
      | Some true => name :: actives bits' bs'
      | _ => actives bits' bs'
      end
  | _, _ => []
  end.

(** The name of the first trigger, in the order of [bits], that reads
    true; [None] when none does. *)
Fixpoint first_active (bits : list (Z * string)) (bs : list (option bool)) : option string :=
  match bits, bs with
  | (_, name) :: bits', b :: bs' =>
      match b with
      | Some true => Some name
      | _ => first_active bits' bs'
      end
  | _, _ => None
  end.

(** The positions [idx], [idx + 1], ... of [k] values. *)
Fixpoint positions (idx : Z) (k : nat) : list Z :=
  match k with
  | O => []
  | S k' => idx :: positions (idx + 1) k'
  end.

(** The minimum of the value at position [idx], as the range cache gives
    it: [None] when no minimum is configured for the position, or when
    the cache has no answer (nothing fresh is cached and the read of the
    range device fails). *)
Definition minimum_at (env : Env) (mins : gmap Z MinCfg) (idx : Z) : M World (option float) :=
  match mins !! idx with
  | None => ret None
  | Some cfg =>
      get_float_holding env (mc_reg cfg) (default RANGE_HOLDING_ORDER_DEFAULT (mc_order cfg))
  end.

(** The value [v] passes the check against the minimum [mn]: there is no
    minimum, or [v] is a number that is not below it. *)
Definition passes (v mn : option float) : Prop :=
  match mn with
  | None => True
  | Some m => exists x, v = Some x /\ PrimFloat.ltb x m = false
  end.

(** The row of one calibration measurement. *)
Definition cal_item (cw : CalWorker) (ts : float) (tag : string) (val : float)
    (expected err acc : option float) (status : string) : Item :=
  mkItem (cal_insert (cw_table cw))
    [PTime ts; PStr (ti_name (cw_info cw)); PStr tag; PFloat val;
     float_or_null expected; float_or_null err; float_or_null acc; PStr status].

(** What one tag gives in a capture cycle, from world [w] to world [w']:
    nothing for a tag the range map lacks; else the tag is measured, and
    nothing comes of it when the measurement gives no value; else the
    value is evaluated and one row, with the value and the verdict, is
    put on the queue. *)
Definition tag_captured (env : Env) (cw : CalWorker) (ts : float) (tag : string)
    (w : World) (rows : list Item) (w' : World) : Prop :=
  match cw_range_map cw !! tag with
  | None => rows = [] /\ w' = w
  | Some _ =>
      exists val w1,
        read_measured env (cw_mb_an cw) (cw_range_map cw) tag w = (Ok val, w1) /\
        match val with
        | None => rows = [] /\ w' = w1
        | Some v =>
            exists expected err acc status w2,
              evaluate env tag v (ti_name (cw_info cw)) (cw_range_map cw) w1
                = (Ok (expected, err, acc, status), w2) /\
              rows = [cal_item cw ts tag v expected err acc status] /\
              w' = set_queue (w_queue w2 ++ rows) w2
        end
  end.

(** The tags of a cycle, one after the other. *)
Fixpoint cycle_captured (env : Env) (cw : CalWorker) (ts : float) (tags : list string)
    (w : World) (rows : list Item) (w' : World) : Prop :=
  match tags with
  | [] => rows = [] /\ w' = w
  | tag :: rest =>
      exists r1 w1 r2,
        tag_captured env cw ts tag w r1 w1 /\
        cycle_captured env cw ts rest w1 r2 w' /\
        rows = r1 ++ r2
  end.

(* ===================================================================== *)
(** * decode_float on known registers                                     *)
(* ===================================================================== *)

(** The four byte orders, the fallback for an unknown order, a number that
    binary32 rounds, a negative one, the extremes of the format. *)
Example decode_float_samples :
  decode_float (word16_of_Z 0x41A0) (word16_of_Z 0) "ABCD" = 20%float /\
  decode_float (word16_of_Z 0) (word16_of_Z 0x41A0) "CDAB" = 20%float /\
  decode_float (word16_of_Z 0xA041) (word16_of_Z 0) "BADC" = 20%float /\
  decode_float (word16_of_Z 0) (word16_of_Z 0xA041) "DCBA" = 20%float /\
  decode_float (word16_of_Z 0x41A0) (word16_of_Z 0) "XYZW" = 20%float /\
  decode_float (word16_of_Z 0x3DCC) (word16_of_Z 0xCCCD) "ABCD" = 0x1.99999ap-4%float /\
  decode_float (word16_of_Z 0xC2F6) (word16_of_Z 0xE979) "ABCD" = PrimFloat.opp 0x1.edd2f2p+6%float /\
  decode_float (word16_of_Z 0) (word16_of_Z 1) "ABCD" = 0x1p-149%float /\
  decode_float (word16_of_Z 0x007F) (word16_of_Z 0xFFFF) "ABCD" = 0x1.fffffcp-127%float /\
  decode_float (word16_of_Z 0x7F7F) (word16_of_Z 0xFFFF) "ABCD" = 0x1.fffffep+127%float /\
  decode_float (word16_of_Z 0x8000) (word16_of_Z 0) "ABCD" = neg_zero /\
  decode_float (word16_of_Z 0x7F80) (word16_of_Z 0) "ABCD" = infinity.
Proof. vm_compute. repeat split. Qed.

(* ===================================================================== *)
(** * Reasoning about monadic code                                        *)
(* ===================================================================== *)

Arguments is_connected : simpl never.
Arguments get_link : simpl never.
Arguments put_link : simpl never.

Lemma post_ret {S A : Type} (a : A) (s : S) (Q : A -> S -> Prop) :
  Q a s -> post (ret a) s Q.
Proof. intros H. exists a, s. split; [reflexivity | exact H]. Qed.

Lemma post_bind {S A B : Type} (m : M S A) (k : A -> M S B) (s : S) (Q : B -> S -> Prop) :
  post m s (fun a s' => post (k a) s' Q) -> post (bind m k) s Q.
Proof.
  intros (a & s' & Hm & b & s'' & Hk & HQ).
  exists b, s''. split; [| exact HQ].
  unfold bind. rewrite Hm. exact Hk.
Qed.

Lemma post_weaken {S A : Type} (m : M S A) (s : S) (Q Q' : A -> S -> Prop) :
  post m s Q -> (forall a s', Q a s' -> Q' a s') -> post m s Q'.
Proof. intros (a & s' & Hm & HQ) Himp. exists a, s'. split; [exact Hm | auto]. Qed.

Lemma post_gets {S A : Type} (f : S -> A) (s : S) (Q : A -> S -> Prop) :
  Q (f s) s -> post (gets f) s Q.
Proof. intros H. exists (f s), s. split; [reflexivity | exact H]. Qed.

Lemma post_modify {S : Type} (f : S -> S) (s : S) (Q : unit -> S -> Prop) :
  Q tt (f s) -> post (modify f) s Q.
Proof. intros H. exists tt, (f s). split; [reflexivity | exact H]. Qed.

Lemma transport_frame_refl (w : World) : transport_frame w w.
Proof. unfold transport_frame. auto with arith. Qed.

Lemma transport_frame_trans (w1 w2 w3 : World) :
  transport_frame w1 w2 -> transport_frame w2 w3 -> transport_frame w1 w3.
Proof.
  unfold transport_frame. intros (A1 & A2 & A3 & A4 & A5) (B1 & B2 & B3 & B4 & B5).
  repeat split; try congruence. lia.
Qed.

Ltac frame_now :=
  unfold transport_frame; simpl; repeat split; auto with arith.

Lemma tick_frame (w : World) :
  post tick w (fun n w' => n = w_step w /\ w' = set_step (S (w_step w)) w).
Proof. eexists _, _. split; [reflexivity | split; reflexivity]. Qed.

Section TransportFacts.

Variable env : Env.

Lemma now_post (w : World) :
  now env w = (Ok (time_time env (w_step w)), set_step (S (w_step w)) w).
Proof. reflexivity. Qed.

Lemma post_now (w : World) (Q : float -> World -> Prop) :
  Q (time_time env (w_step w)) (set_step (S (w_step w)) w) -> post (now env) w Q.
Proof. intros H. eexists _, _. split; [apply now_post | exact H]. Qed.

Lemma connect_post (mb : Mb) (w : World) :
  post (_connect env mb) w (fun ok w' =>
    transport_frame w w' /\
    w_io w' = w_io w ++ [EvConnect mb] /\
    last_fail (get_link mb (w_links w')) = last_fail (get_link mb (w_links w)) /\
    is_connected (get_link mb (w_links w')) = ok /\
    (ok = true <-> mb_connect env mb (w_step w) = Connected)).
Proof.
  unfold _connect, bind, link, gets, tick, log_io, set_link, modify, ret, post. simpl.
  destruct (mb_connect env mb (w_step w)) eqn:Hc; eexists _, _; (split; [reflexivity |]);
    (split; [frame_now |]); simpl; destruct mb; simpl;
    repeat split; try reflexivity; try congruence; try discriminate;
    try (destruct (client _); reflexivity).
Qed.

(** A connected client is used as it is. *)
Lemma ensure_connected (mb : Mb) (w : World) :
  is_connected (get_link mb (w_links w)) = true ->
  _ensure env mb w = (Ok true, w).
Proof.
  intros H. unfold _ensure, bind, link, gets. simpl. rewrite H. reflexivity.
Qed.

(** Within 1.5 s of the recorded failure no connection is attempted. *)
Lemma ensure_fail_fast (mb : Mb) (w : World) :
  is_connected (get_link mb (w_links w)) = false ->
  PrimFloat.ltb (PrimFloat.sub (time_time env (w_step w))
                   (last_fail (get_link mb (w_links w)))) 1.5%float = true ->
  _ensure env mb w = (Ok false, set_step (S (w_step w)) w).
Proof.
  intros H Hc. unfold _ensure, bind, link, gets. simpl. rewrite H.
  unfold now, bind, tick, ret. simpl. rewrite Hc. reflexivity.
Qed.

(** Otherwise a connection is attempted; when it fails the time read
    before the attempt becomes the failure time. *)
Lemma ensure_attempt (mb : Mb) (w : World) :
  is_connected (get_link mb (w_links w)) = false ->
  PrimFloat.ltb (PrimFloat.sub (time_time env (w_step w))
                   (last_fail (get_link mb (w_links w)))) 1.5%float = false ->
  post (_ensure env mb) w (fun ok w' =>
    transport_frame w w' /\
    w_io w' = w_io w ++ [EvConnect mb] /\
    is_connected (get_link mb (w_links w')) = ok /\
    (ok = true <-> mb_connect env mb (S (w_step w)) = Connected) /\
    (ok = false -> last_fail (get_link mb (w_links w')) = time_time env (w_step w))).
Proof.
  intros H Hc. unfold _ensure.
  apply post_bind, post_gets. rewrite H.
  apply post_bind, post_now. rewrite Hc.
  apply post_bind.
  eapply post_weaken; [apply connect_post |].
  intros ok w1 (Hf & Hio & Hlf & Hconn & Hok). simpl in Hio, Hok.
  assert (Hf' : transport_frame w w1).
  { eapply transport_frame_trans; [| exact Hf]. frame_now. }
  destruct ok; simpl.
  - apply post_bind, post_ret, post_ret.
    split; [exact Hf' |]. split; [exact Hio |]. split; [exact Hconn |].
    split; [exact Hok | discriminate].
  - apply post_bind, post_bind, post_gets, post_modify, post_ret.
    destruct Hf' as (F1 & F2 & F3 & F4 & F5).
    split; [frame_now |]. simpl.
    split; [exact Hio |].
    split; [destruct mb; exact Hconn |].
    split; [split; [discriminate | intros Hx; apply Hok in Hx; discriminate] |].
    intros _. destruct mb; reflexivity.
Qed.

Lemma ensure_total (mb : Mb) (w : World) :
  post (_ensure env mb) w (fun _ w' => transport_frame w w').
Proof.
  destruct (is_connected (get_link mb (w_links w))) eqn:Hconn.
  - eexists _, _. split; [apply ensure_connected; assumption | apply transport_frame_refl].
  - destruct (PrimFloat.ltb (PrimFloat.sub (time_time env (w_step w))
                (last_fail (get_link mb (w_links w)))) 1.5%float) eqn:Hc.
    + eexists _, _. split; [apply ensure_fail_fast; assumption | frame_now].
    + eapply post_weaken; [apply ensure_attempt; assumption |].
      intros a s' (Hf & _). exact Hf.
Qed.

End TransportFacts.

(* ===================================================================== *)
(** * Calibration evaluator: properties                                   *)
(* ===================================================================== *)

(** C5. When the reference values are available, [evaluate] returns
    error = measured - expected; accuracy = |error| / expected * factor when
    expected is not zero and |measured| * factor when it is (the division
    is then never made, in particular for the zero kind); and the status
    CAL OK exactly when min <= measured <= max, OUT OF CONTROL otherwise. *)
Theorem evaluate_formulas (env : Env) (tag : string) (val : float) (cal_name : string)
    (range_map : gmap string RangeEntry) (e : RangeEntry) (w w' : World)
    (expected min_r max_r : float) :
  range_map !! tag = Some e ->
  references_available env cal_name range_map tag w expected min_r max_r w' ->
  evaluate env tag val cal_name range_map w =
    (Ok (Some expected,
         Some (PrimFloat.sub val expected),
         Some (if PrimFloat.eqb expected 0%float
               then PrimFloat.mul (PrimFloat.abs val) (float_of_Z (factor e))
               else PrimFloat.mul
                      (PrimFloat.div (PrimFloat.abs (PrimFloat.sub val expected)) expected)
                      (float_of_Z (factor e))),
         if PrimFloat.leb min_r val && PrimFloat.leb val max_r
         then CAL_OK else OUT_OF_CONTROL),
     w').
Proof.
  intros He Href.
  unfold evaluate, references_available in *.
  unfold bind, lift_res, range_entry. rewrite He.
  destruct (String.eqb cal_name "N2O ZERO").
  - destruct Href as (-> & -> & -> & ->).
    unfold score, py_truediv. reflexivity.
  - rewrite Href. unfold score, py_truediv.
    destruct (PrimFloat.eqb expected 0); reflexivity.
Qed.

(** A zero calibration reading 0.1 passes with accuracy 10; a span
    calibration reading 21.0 against the references (20.0, 20.0, 20.0) is
    out of control with error 1 and accuracy 5. *)
Lemma evaluate_formulas_witness :
  evaluate env_idle "N2O" 0.1%float "N2O ZERO" AN1_RANGE_MAP initial_world =
    (Ok (Some 0%float, Some 0.1%float, Some 10%float, CAL_OK), initial_world) /\
  fst (evaluate env_idle "N2O" 21%float "N2O SPAN" AN1_RANGE_MAP initial_world) =
    Ok (Some 20%float, Some 1%float, Some 5%float, OUT_OF_CONTROL).
Proof.
  split.
  - refine (eq_trans
      (evaluate_formulas env_idle "N2O" 0.1%float "N2O ZERO" AN1_RANGE_MAP
         (mkRangeEntry 0 "ABCD" (Some 124) (Some 100) (Some 102) 100)
         initial_world initial_world 0%float (PrimFloat.opp 0.2%float) 0.2%float _ _) _).
    + vm_compute. reflexivity.
    + vm_compute. repeat split.
    + vm_compute. reflexivity.
  - rewrite (evaluate_formulas env_idle "N2O" 21%float "N2O SPAN" AN1_RANGE_MAP
               (mkRangeEntry 0 "ABCD" (Some 124) (Some 100) (Some 102) 100)
               initial_world
               (snd (read_expected_min_max env_idle AN1_RANGE_MAP "N2O" initial_world))
               20%float 20%float 20%float).
    + vm_compute. reflexivity.
    + vm_compute. reflexivity.
    + vm_compute. reflexivity.
Defined.

(* ===================================================================== *)
(** * SharedModbus: properties                                            *)
(* ===================================================================== *)

Lemma get_put_link (mb : Mb) (l : SharedModbus) (ls : Links) :
  get_link mb (put_link mb l ls) = l.
Proof. destruct mb; reflexivity. Qed.

Section ReadFacts.

Context {A : Type}.
Variable env : Env.
Variable oracle : Mb -> Z -> Z -> nat -> reply A * bool.

Lemma library_read_run (mb : Mb) (address count : Z) (w : World) :
  let w1 := set_links
              (put_link mb (mkSharedModbus (Some (snd (oracle mb address count (w_step w))))
                              (last_fail (get_link mb (w_links w)))) (w_links w))
              (set_io (w_io w ++ [EvRead mb address count]) (set_step (S (w_step w)) w)) in
  library_read mb address count oracle w =
    (match fst (oracle mb address count (w_step w)) with
     | Values v => Ok (Some v)
     | ErrorReply => Ok None
     | IoRaises => Raise RuntimeError
     end, w1).
Proof.
  unfold library_read, bind, tick, log_io, link, gets, set_link, modify, ret, raise. simpl.
  destruct (fst (oracle mb address count (w_step w))); reflexivity.
Qed.

Lemma record_failure_run (mb : Mb) (w : World) :
  record_failure env mb w =
    (Ok tt, set_links
              (put_link mb (mkSharedModbus (client (get_link mb (w_links w)))
                              (time_time env (w_step w))) (w_links w))
              (set_step (S (w_step w)) w)).
Proof. reflexivity. Qed.

(** Once the client is usable, the read is made; an exception is turned
    into [None] after the failure time is recorded. *)
Lemma attempt_read (mb : Mb) (address count : Z) (w : World) :
  post (try_except (library_read mb address count oracle)
          (fun _ => record_failure env mb ;; ret None)) w
    (fun r w' =>
       transport_frame w w' /\
       w_io w' = w_io w ++ [EvRead mb address count] /\
       client (get_link mb (w_links w')) = Some (snd (oracle mb address count (w_step w))) /\
       match fst (oracle mb address count (w_step w)) with
       | Values v => r = Some v /\
           last_fail (get_link mb (w_links w')) = last_fail (get_link mb (w_links w))
       | ErrorReply => r = None /\
           last_fail (get_link mb (w_links w')) = last_fail (get_link mb (w_links w))
       | IoRaises => r = None /\
           last_fail (get_link mb (w_links w')) = time_time env (S (w_step w))
       end).
Proof.
  unfold post, try_except. rewrite library_read_run.
  destruct (fst (oracle mb address count (w_step w))) eqn:Ho.
  - eexists _, _. split; [reflexivity |]. split; [frame_now |]. simpl.
    rewrite get_put_link. auto.
  - eexists _, _. split; [reflexivity |]. split; [frame_now |]. simpl.
    rewrite get_put_link. auto.
  - unfold bind. rewrite record_failure_run. unfold ret.
    eexists _, _. split; [reflexivity |]. split; [frame_now |]. simpl.
    rewrite !get_put_link. auto.
Qed.

Lemma guarded_read_contract :
  forall (mb : Mb) (address count : Z) (w : World),
    let l := get_link mb (w_links w) in
    let t := time_time env (w_step w) in
    post (guarded_read env oracle mb address count) w (fun _ w' => transport_frame w w') /\
    (is_connected l = false ->
     PrimFloat.ltb (PrimFloat.sub t (last_fail l)) 1.5%float = true ->
     guarded_read env oracle mb address count w = (Ok None, set_step (S (w_step w)) w)) /\
    (is_connected l = false ->
     PrimFloat.ltb (PrimFloat.sub t (last_fail l)) 1.5%float = false ->
     mb_connect env mb (S (w_step w)) <> Connected ->
     exists w', guarded_read env oracle mb address count w = (Ok None, w') /\
       w_io w' = w_io w ++ [EvConnect mb] /\
       is_connected (get_link mb (w_links w')) = false /\
       last_fail (get_link mb (w_links w')) = t) /\
    (is_connected l = true ->
     fst (oracle mb address count (w_step w)) = IoRaises ->
     exists w', guarded_read env oracle mb address count w = (Ok None, w') /\
       w_io w' = w_io w ++ [EvRead mb address count] /\
       client (get_link mb (w_links w')) = Some (snd (oracle mb address count (w_step w))) /\
       last_fail (get_link mb (w_links w')) = time_time env (S (w_step w))).
Proof.
  intros mb address count w l t. subst l t.
  split; [| split; [| split]].
  - unfold guarded_read. apply post_bind.
    eapply post_weaken; [apply ensure_total |].
    intros ok w1 Hf. destruct ok; simpl.
    + eapply post_weaken; [apply attempt_read |].
      intros r w2 (Hf2 & _). eapply transport_frame_trans; eassumption.
    + apply post_ret. exact Hf.
  - intros Hconn Hcool. unfold guarded_read, bind.
    rewrite ensure_fail_fast by assumption. reflexivity.
  - intros Hconn Hcool Hrefused.
    destruct (ensure_attempt env mb w Hconn Hcool)
      as (ok & w1 & Hrun & Hf & Hio & Hc1 & Hok & Hlf).
    destruct ok.
    + exfalso. apply Hrefused, Hok. reflexivity.
    + exists w1. unfold guarded_read, bind. rewrite Hrun. simpl.
      repeat split; auto.
  - intros Hconn Hraise.
    destruct (attempt_read mb address count w) as (r & w1 & Hrun & Hf & Hio & Hcl & Hcase).
    rewrite Hraise in Hcase. destruct Hcase as (-> & Hlf).
    exists w1. unfold guarded_read, bind.
    rewrite ensure_connected by assumption. simpl.
    repeat split; assumption.
Qed.

End ReadFacts.




(* ===================================================================== *)
(** * RangeCache: properties                                              *)
(* ===================================================================== *)

Lemma fresh_entry_hit (rc : RangeCache) (key : Z * string) (t v : float) :
  fresh_entry rc key t = Some v <-> cache_hit rc key t v.
Proof.
  unfold fresh_entry, cache_hit. split.
  - destruct (cache rc !! key) as [[ts x] |]; [| discriminate].
    destruct (PrimFloat.leb (PrimFloat.sub t ts) (ttl rc)) eqn:Hage; [| discriminate].
    intros [= ->]. exists ts. auto.
  - intros (ts & -> & ->). reflexivity.
Qed.

Lemma fresh_entry_miss (rc : RangeCache) (key : Z * string) (t : float) :
  fresh_entry rc key t = None <-> cache_miss rc key t.
Proof.
  unfold fresh_entry, cache_miss. split.
  - destruct (cache rc !! key) as [[ts x] |]; [| discriminate].
    destruct (PrimFloat.leb (PrimFloat.sub t ts) (ttl rc)) eqn:Hage; [discriminate |].
    intros _ ts' v' [= <- <-]. exact Hage.
  - destruct (cache rc !! key) as [[ts x] |]; [| reflexivity].
    intros H. rewrite (H ts x eq_refl). reflexivity.
Qed.

Lemma read_holding_regs_frame (env : Env) (mb : Mb) (address count : Z) (w : World) :
  post (read_holding_regs env mb address count) w (fun _ w' => transport_frame w w').
Proof. exact (proj1 (guarded_read_contract env (mb_holding env) mb address count w)). Qed.

Lemma read_input_regs_frame (env : Env) (mb : Mb) (address count : Z) (w : World) :
  post (read_input_regs env mb address count) w (fun _ w' => transport_frame w w').
Proof. exact (proj1 (guarded_read_contract env (mb_input env) mb address count w)). Qed.

Lemma read_discrete_frame (env : Env) (mb : Mb) (address count : Z) (w : World) :
  post (read_discrete env mb address count) w (fun _ w' => transport_frame w w').
Proof. exact (proj1 (guarded_read_contract env (mb_discrete env) mb address count w)). Qed.

(** The lookup, case by case, in terms of the live read it may make. *)
Lemma get_float_holding_run (env : Env) (reg : Z) (order : string) (w : World) :
  let t := time_time env (w_step w) in
  let w0 := set_step (S (w_step w)) w in
  get_float_holding env reg order w =
    match fresh_entry (w_cache w) (reg, order) t with
    | Some v => (Ok (Some v), w0)
    | None =>
        match read_holding_regs env MB_RANGE reg 2 w0 with
        | (Ok (Some (r0 :: r1 :: _)), w1) =>
            (Ok (Some (decode_float r0 r1 order)),
             set_cache (mkRangeCache (ttl (w_cache w1))
                          (<[(reg, order) := (t, decode_float r0 r1 order)]> (cache (w_cache w1)))) w1)
        | (Ok _, w1) => (Ok None, w1)
        | (Raise e, w1) => (Raise e, w1)
        | (OutOfFuel, w1) => (OutOfFuel, w1)
        end
    end.
Proof.
  unfold get_float_holding. simpl.
  unfold bind at 1. rewrite now_post.
  unfold bind at 1. unfold gets at 1. simpl.
  destruct (fresh_entry (w_cache w) (reg, order) (time_time env (w_step w))); [reflexivity |].
  unfold bind at 1.
  destruct (read_holding_regs env MB_RANGE reg 2 (set_step (S (w_step w)) w)) as [[regs | e |] w1];
    try reflexivity.
  destruct regs as [[| r0 [| r1 rest]] |]; reflexivity.
Qed.

(** C8. A lookup whose key has a cached entry within the freshness window
    returns the cached value and makes no device read (nothing but the
    clock is touched); otherwise a live read is made: when it delivers two
    registers the decoded value is returned and stored under the key with
    the time of the lookup, and when it does not, [None] is returned and
    the cache is exactly as before.  The lookup never raises, and a value
    it returns is, in the cache it leaves, the entry of the key, fetched
    within the freshness window or at this very lookup. *)
Theorem range_cache_lookup (env : Env) (reg : Z) (order : string) (w : World) :
  let t := time_time env (w_step w) in
  let key := (reg, order) in
  let w0 := set_step (S (w_step w)) w in
  (forall v, cache_hit (w_cache w) key t v ->
     exists w', get_float_holding env reg order w = (Ok (Some v), w') /\
       w_io w' = w_io w /\ w_links w' = w_links w /\ w_cache w' = w_cache w) /\
  (cache_miss (w_cache w) key t ->
     exists regs w1, read_holding_regs env MB_RANGE reg 2 w0 = (Ok regs, w1) /\
       (forall r0 r1 rest, regs = Some (r0 :: r1 :: rest) ->
          exists w', get_float_holding env reg order w = (Ok (Some (decode_float r0 r1 order)), w') /\
            ttl (w_cache w') = ttl (w_cache w) /\
            cache (w_cache w') = <[key := (t, decode_float r0 r1 order)]> (cache (w_cache w))) /\
       (no_float regs ->
          get_float_holding env reg order w = (Ok None, w1) /\ w_cache w1 = w_cache w)) /\
  post (get_float_holding env reg order) w (fun r w' =>
    forall v, r = Some v ->
      exists ts, cache (w_cache w') !! key = Some (ts, v) /\
        (PrimFloat.leb (PrimFloat.sub t ts) (ttl (w_cache w')) = true \/ ts = t)).
Proof.
  intros t key w0. subst t key w0.
  pose proof (get_float_holding_run env reg order w) as Hrun. simpl in Hrun.
  destruct (read_holding_regs_frame env MB_RANGE reg 2 (set_step (S (w_step w)) w))
    as (regs & w1 & Hread & Hc & Hq & Hth & Hco & Hst). simpl in Hc.
  split; [| split].
  - intros v Hhit. apply fresh_entry_hit in Hhit. rewrite Hhit in Hrun.
    eexists. split; [exact Hrun |]. auto.
  - intros Hmiss. apply fresh_entry_miss in Hmiss. rewrite Hmiss, Hread in Hrun.
    exists regs, w1. split; [exact Hread |]. split.
    + intros r0 r1 rest ->. eexists. split; [exact Hrun |]. simpl.
      rewrite Hc. auto.
    + intros Hno. split; [| exact Hc].
      destruct regs as [[| r0 [| r1 rest]] |]; try exact Hrun.
      simpl in Hno. lia.
  - destruct (fresh_entry (w_cache w) (reg, order) (time_time env (w_step w))) as [v0 |] eqn:Hf.
    + eexists _, _. split; [exact Hrun |].
      intros v [= <-]. apply fresh_entry_hit in Hf. destruct Hf as (ts & Hl & Hage).
      exists ts. simpl. auto.
    + rewrite Hread in Hrun.
      destruct regs as [[| r0 [| r1 rest]] |];
        (eexists _, _; split; [exact Hrun |]); intros v Hv; try discriminate Hv.
      injection Hv as <-. eexists. simpl. rewrite lookup_insert_eq. auto.
Qed.

(** A lookup in the empty cache reads the device and stores 20.0; the
    lookup that follows finds the entry, one second old, and reads nothing.
    With the device refusing the connection the lookup gives [None] and
    the cache stays empty. *)
Lemma range_cache_lookup_witness :
  (exists w1 w2,
     get_float_holding env_idle 100 "CDAB" initial_world = (Ok (Some 20%float), w1) /\
     cache (w_cache w1) = <[(100, "CDAB") := (clock 0, 20%float)]> ∅ /\
     get_float_holding env_idle 100 "CDAB" w1 = (Ok (Some 20%float), w2) /\
     w_io w2 = w_io w1) /\
  (exists w1,
     get_float_holding env_refused 100 "CDAB" initial_world = (Ok None, w1) /\
     w_cache w1 = w_cache initial_world).
Proof.
  split.
  - destruct (range_cache_lookup env_idle 100 "CDAB" initial_world) as (_ & Hmiss & _).
    destruct Hmiss as (regs & w0 & Hread & Hstore & _).
    { intros ts v Hl. vm_compute in Hl. discriminate. }
    vm_compute in Hread. injection Hread as <- <-.
    destruct (Hstore _ _ _ eq_refl) as (w1 & Hrun & _ & Hcache).
    exists w1.
    destruct (range_cache_lookup env_idle 100 "CDAB" w1) as (Hhit & _ & _).
    destruct (Hhit 20%float) as (w2 & Hrun2 & Hio & _).
    { exists (clock 0). rewrite Hcache, lookup_insert_eq.
      split; [vm_compute; reflexivity |].
      vm_compute in Hrun. injection Hrun as <-. vm_compute. reflexivity. }
    exists w2. split; [| split; [| split]].
    + rewrite Hrun. vm_compute. reflexivity.
    + exact Hcache.
    + exact Hrun2.
    + exact Hio.
  - destruct (range_cache_lookup env_refused 100 "CDAB" initial_world) as (_ & Hmiss & _).
    destruct Hmiss as (regs & w1 & Hread & _ & Hnone).
    { intros ts v Hl. vm_compute in Hl. discriminate. }
    exists w1. apply Hnone.
    vm_compute in Hread. injection Hread as <- _. exact I.
Defined.

Lemma data_frame_refl (w : World) : data_frame w w.
Proof. unfold data_frame. auto. Qed.

Lemma data_frame_trans (w1 w2 w3 : World) :
  data_frame w1 w2 -> data_frame w2 w3 -> data_frame w1 w3.
Proof.
  unfold data_frame. intros (A1 & A2 & A3) (B1 & B2 & B3). repeat split; congruence.
Qed.

Lemma transport_data_frame (w w' : World) : transport_frame w w' -> data_frame w w'.
Proof. unfold transport_frame, data_frame. intuition. Qed.

Lemma post_frame_bind {S A B : Type} (R : S -> S -> Prop)
    (Htrans : forall s1 s2 s3, R s1 s2 -> R s2 s3 -> R s1 s3)
    (m : M S A) (k : A -> M S B) (s : S) :
  post m s (fun _ s' => R s s') ->
  (forall a s', post (k a) s' (fun _ s'' => R s' s'')) ->
  post (bind m k) s (fun _ s' => R s s').
Proof.
  intros Hm Hk. apply post_bind. eapply post_weaken; [exact Hm |].
  intros a s' HR. eapply post_weaken; [apply Hk |].
  intros b s'' HR'. exact (Htrans _ _ _ HR HR').
Qed.

Lemma get_float_holding_frame (env : Env) (reg : Z) (order : string) (w : World) :
  post (get_float_holding env reg order) w (fun _ w' => data_frame w w').
Proof.
  pose proof (get_float_holding_run env reg order w) as Hrun. simpl in Hrun.
  destruct (fresh_entry (w_cache w) (reg, order) (time_time env (w_step w))).
  - eexists _, _. split; [exact Hrun |]. unfold data_frame. auto.
  - destruct (read_holding_regs_frame env MB_RANGE reg 2 (set_step (S (w_step w)) w))
      as (regs & w1 & Hread & Hf).
    apply transport_data_frame in Hf. rewrite Hread in Hrun.
    destruct regs as [[| r0 [| r1 rest]] |];
      (eexists _, _; split; [exact Hrun |]); exact Hf.
Qed.

Lemma read_reference_frame (env : Env) (reg : option Z) (w : World) :
  post (read_reference env reg) w (fun _ w' => data_frame w w').
Proof.
  unfold read_reference. destruct reg as [r |].
  - destruct (r =? 0).
    + apply post_ret, data_frame_refl.
    + apply get_float_holding_frame.
  - apply post_ret, data_frame_refl.
Qed.

Lemma read_expected_min_max_frame (env : Env) (range_map : gmap string RangeEntry)
    (tag : string) (e : RangeEntry) (w : World) :
  range_map !! tag = Some e ->
  post (read_expected_min_max env range_map tag) w (fun _ w' => data_frame w w').
Proof.
  intros He. unfold read_expected_min_max, lift_res, range_entry.
  unfold bind at 1. rewrite He.
  apply (post_frame_bind data_frame data_frame_trans); [apply read_reference_frame |].
  intros exp w1.
  apply (post_frame_bind data_frame data_frame_trans); [apply read_reference_frame |].
  intros mn w2.
  apply (post_frame_bind data_frame data_frame_trans); [apply read_reference_frame |].
  intros mx w3. apply post_ret, data_frame_refl.
Qed.

Lemma score_ok (val expected min_r max_r : float) (factor : Z) :
  exists err acc status,
    score val expected min_r max_r factor = Ok (Some expected, Some err, Some acc, status) /\
    (status = CAL_OK \/ status = OUT_OF_CONTROL).
Proof.
  unfold score, py_truediv.
  destruct (PrimFloat.eqb expected 0); simpl;
    destruct (PrimFloat.leb min_r val && PrimFloat.leb val max_r);
    eexists _, _, _; split; try reflexivity; auto.
Qed.

(** C6. For a calibration other than the zero one, when one of the three
    reference values comes back as [None], [evaluate] returns
    [(None, None, None, "READ ERROR")]; it never raises.  For the zero
    calibration the references are constants: the result carries numbers
    and a status that is not "READ ERROR". *)
Theorem evaluate_read_error (env : Env) (tag : string) (val : float) (cal_name : string)
    (range_map : gmap string RangeEntry) (e : RangeEntry) (w : World) :
  range_map !! tag = Some e ->
  post (evaluate env tag val cal_name range_map) w (fun _ w' => data_frame w w') /\
  (cal_name <> "N2O ZERO" ->
   forall exp mn mx w',
     read_expected_min_max env range_map tag w = (Ok (exp, mn, mx), w') ->
     exp = None \/ mn = None \/ mx = None ->
     evaluate env tag val cal_name range_map w = (Ok (None, None, None, READ_ERROR), w')) /\
  (cal_name = "N2O ZERO" ->
   exists err acc status,
     evaluate env tag val cal_name range_map w = (Ok (Some 0%float, Some err, Some acc, status), w) /\
     status <> READ_ERROR).
Proof.
  intros He. split; [| split].
  - unfold evaluate, lift_res, range_entry. unfold bind at 1. rewrite He.
    destruct (String.eqb cal_name "N2O ZERO").
    + destruct (score_ok val 0 (PrimFloat.opp 0.2) 0.2 (factor e)) as (err & acc & st & Hs & _).
      rewrite Hs. eexists _, _. split; [reflexivity | apply data_frame_refl].
    + apply post_bind.
      eapply post_weaken; [apply (read_expected_min_max_frame env range_map tag e w He) |].
      intros [[exp mn] mx] w1 Hf.
      destruct exp as [expected |], mn as [min_r |], mx as [max_r |];
        try (apply post_ret; exact Hf).
      destruct (score_ok val expected min_r max_r (factor e)) as (err & acc & st & Hs & _).
      rewrite Hs. eexists _, _. split; [reflexivity | exact Hf].
  - intros Hkind exp mn mx w' Hrefs Hnone.
    unfold evaluate, lift_res, range_entry. unfold bind at 1. rewrite He.
    apply String.eqb_neq in Hkind. rewrite Hkind.
    unfold bind. rewrite Hrefs.
    destruct Hnone as [-> | [-> | ->]]; [| destruct exp | destruct exp, mn]; reflexivity.
  - intros ->.
    unfold evaluate, lift_res, range_entry. unfold bind at 1. rewrite He.
    rewrite String.eqb_refl.
    destruct (score_ok val 0 (PrimFloat.opp 0.2) 0.2 (factor e)) as (err & acc & st & Hs & Hst).
    exists err, acc, st. rewrite Hs. split; [reflexivity |].
    destruct Hst as [-> | ->]; discriminate.
Qed.

(** With the range device refused, a span calibration reports READ ERROR;
    a zero calibration of the same channel still reports numbers. *)
Lemma evaluate_read_error_witness :
  (exists w', evaluate env_refused "N2O" 0.1%float "N2O SPAN" AN1_RANGE_MAP initial_world =
     (Ok (None, None, None, READ_ERROR), w')) /\
  (exists err acc status,
     evaluate env_refused "N2O" 0.1%float "N2O ZERO" AN1_RANGE_MAP initial_world =
       (Ok (Some 0%float, Some err, Some acc, status), initial_world) /\
     status <> READ_ERROR).
Proof.
  pose proof (evaluate_read_error env_refused "N2O" 0.1%float "N2O SPAN" AN1_RANGE_MAP
    (mkRangeEntry 0 "ABCD" (Some 124) (Some 100) (Some 102) 100) initial_world eq_refl)
    as (_ & Hspan & _).
  pose proof (evaluate_read_error env_refused "N2O" 0.1%float "N2O ZERO" AN1_RANGE_MAP
    (mkRangeEntry 0 "ABCD" (Some 124) (Some 100) (Some 102) 100) initial_world eq_refl)
    as (_ & _ & Hzero).
  split.
  - eexists. eapply Hspan; [discriminate | vm_compute; reflexivity | left; reflexivity].
  - apply Hzero. reflexivity.
Defined.

(* ===================================================================== *)
(** * Level capture: properties                                           *)
(* ===================================================================== *)

Lemma bind_ok_inv {S A B : Type} (m : M S A) (k : A -> M S B) (s s'' : S) (b : B) :
  bind m k s = (Ok b, s'') ->
  exists a s', m s = (Ok a, s') /\ k a s' = (Ok b, s'').
Proof.
  unfold bind. destruct (m s) as [[a | e |] s']; intros H; try discriminate.
  exists a, s'. auto.
Qed.

Lemma read_input_float_frame (env : Env) (mb : Mb) (address : Z) (order : string) (w : World) :
  post (read_input_float env mb address order) w (fun _ w' => transport_frame w w').
Proof.
  unfold read_input_float. apply post_bind.
  eapply post_weaken; [apply read_input_regs_frame |].
  intros regs w1 Hf.
  destruct regs as [[| r0 [| r1 rest]] |]; apply post_ret; exact Hf.
Qed.

(** The readings return; each adds at most one value. *)
Lemma level_readings_post (env : Env) (mb : Mb) (table level_name : string)
    (delays : list Z) (i : Z) (vals0 : list float) (w : World) :
  post (level_readings env mb table level_name i delays vals0) w (fun vals w' =>
    (length vals0 <= length vals <= length vals0 + length delays)%nat /\
    w_threads w' = w_threads w /\ w_committed w' = w_committed w).
Proof.
  revert i vals0 w. induction delays as [| d rest IH]; intros i vals0 w; simpl.
  - apply post_ret. repeat split; lia.
  - apply post_bind. unfold sleep. apply post_bind.
    eapply post_weaken; [apply tick_frame |]. intros n w1 (_ & ->).
    apply post_modify.
    apply post_bind.
    eapply post_weaken; [apply read_input_float_frame |].
    intros v w2 (_ & _ & Hth & Hco & _). simpl in Hth, Hco.
    apply post_bind, post_now.
    destruct v as [v |].
    + apply post_bind. unfold sql_put_level, q_put. apply post_modify.
      eapply post_weaken; [apply IH |].
      intros vals w3 (Hlen & Hth3 & Hco3). simpl in Hth3, Hco3.
      rewrite length_app in Hlen. simpl in Hlen.
      repeat split; try congruence; lia.
    + eapply post_weaken; [apply IH |].
      intros vals w3 (Hlen & Hth3 & Hco3). simpl in Hth3, Hco3.
      repeat split; try congruence; lia.
Qed.

Lemma percent_error_guard (err actual_val : float) :
  exists pct, percent_error err actual_val = Ok pct /\
    (PrimFloat.eqb actual_val 0%float = true -> pct = 0%float).
Proof.
  unfold percent_error, py_truediv.
  destruct (PrimFloat.eqb actual_val 0); simpl; eexists; split; try reflexivity.
  discriminate.
Qed.

Lemma actual_reference_post (env : Env) (level_key actual_ref_mode : string) (w : World) :
  post (actual_reference env level_key actual_ref_mode) w (fun actual w' =>
    data_frame w w' /\
    (reference_unavailable env level_key actual_ref_mode w -> actual = 0%float)).
Proof.
  unfold actual_reference, reference_unavailable.
  destruct (String.eqb actual_ref_mode "AN1_LEGACY").
  - destruct (AN1_ACTUAL_REF (py_upper level_key)) as [reg |].
    + unfold read_holding_float_cached.
      destruct (get_float_holding_frame env reg "CDAB" w) as (r & w1 & Hrun & Hf).
      exists (default 0%float r), w1. unfold bind. rewrite Hrun.
      split; [reflexivity |]. split; [exact Hf |].
      simpl. intros [= ->]. reflexivity.
    + apply post_ret. split; [apply data_frame_refl | reflexivity].
  - destruct (AN2_LEVEL_REF (py_upper level_key)) as [cfg |].
    + unfold read_holding_float_cached.
      destruct (get_float_holding_frame env (expected_reg cfg) (default "CDAB" (lr_order cfg)) w)
        as (r & w1 & Hrun & Hf).
      exists (default 0%float r), w1. unfold bind. rewrite Hrun.
      split; [reflexivity |]. split; [exact Hf |].
      simpl. intros [= ->]. reflexivity.
    + apply post_ret. split; [apply data_frame_refl | reflexivity].
Qed.

Lemma average_defined (vals : list float) :
  (1 <= length vals <= 3)%nat ->
  exists avg, py_truediv (py_sum vals) (float_of_Z (Z.of_nat (length vals))) = Ok avg.
Proof.
  intros Hlen. unfold py_truediv.
  assert (H : length vals = 1%nat \/ length vals = 2%nat \/ length vals = 3%nat) by lia.
  destruct H as [-> | [-> | ->]]; eexists; reflexivity.
Qed.

(** C10. A level capture session that recorded at least one sample runs to
    its end without raising and appends to the queue, after the samples,
    the average, the reference ("Actual"), the error and the percent-error
    rows.  When the reference is 0.0 the percent error is exactly 0.0 and
    no division is made; the reference is 0.0 in particular whenever none
    is configured for the level or its cached read gives [None]. *)
Theorem level_percent_error_guard (env : Env) (name : string) (mb : Mb)
    (table level_key actual_ref_mode : string) (w w1 : World) (vals : list float) :
  let level_name := (py_title level_key ++ " Level")%string in
  level_readings env mb table level_name 1 LEVEL_DELAYS [] w = (Ok vals, w1) ->
  vals <> [] ->
  exists avg actual pct t1 t2 w2 w',
    level_capture_worker env name mb table level_key actual_ref_mode w = (Ok tt, w') /\
    fst (actual_reference env level_key actual_ref_mode w2) = Ok actual /\
    (reference_unavailable env level_key actual_ref_mode w2 -> actual = 0%float) /\
    percent_error (PrimFloat.sub avg actual) actual = Ok pct /\
    (PrimFloat.eqb actual 0%float = true -> pct = 0%float) /\
    w_queue w' = w_queue w1 ++
      [level_row table t1 level_name "Avg" avg;
       level_row table t2 level_name "Actual" actual;
       level_row table t2 level_name "Error" (PrimFloat.sub avg actual);
       level_row table t2 level_name "% Error" pct].
Proof.
  intros level_name Hread Hne.
  destruct (level_readings_post env mb table level_name LEVEL_DELAYS 1 [] w)
    as (vals' & w1' & Hread' & Hlen & _).
  rewrite Hread in Hread'. injection Hread' as <- <-.
  simpl in Hlen.
  destruct (average_defined vals) as (avg & Havg).
  { destruct vals; [contradiction | simpl in *; lia]. }
  set (w2 := set_queue (w_queue w1 ++
                [level_row table (time_time env (w_step w1)) level_name "Avg" avg])
               (set_step (S (w_step w1)) w1)).
  destruct (actual_reference_post env level_key actual_ref_mode w2)
    as (actual & w3 & Hact & (Hq3 & _ & _) & Hfallback).
  destruct (percent_error_guard (PrimFloat.sub avg actual) actual) as (pct & Hpct & Hzero).
  exists avg, actual, pct, (time_time env (w_step w1)), (time_time env (w_step w3)), w2.
  eexists.
  split; [| split; [| split; [| split; [| split]]]].
  - unfold level_capture_worker, try_except, level_capture_body.
    fold level_name. unfold bind at 1. rewrite Hread.
    destruct vals as [| v0 vals0]; [contradiction |].
    unfold lift_res. unfold bind at 1. rewrite Havg.
    unfold bind at 1. rewrite now_post.
    unfold bind at 1. unfold sql_put_level at 1, q_put at 1, modify at 1.
    change (w_queue (set_step (S (w_step w1)) w1)) with (w_queue w1). fold w2.
    unfold bind at 1. rewrite Hact.
    unfold bind at 1. rewrite Hpct.
    unfold bind at 1. rewrite now_post.
    unfold sql_put_level, q_put, bind, modify. reflexivity.
  - rewrite Hact. reflexivity.
  - exact Hfallback.
  - exact Hpct.
  - exact Hzero.
  - simpl. rewrite Hq3. unfold w2. simpl.
    rewrite <- !app_assoc. reflexivity.
Qed.

(** The LOW level of analyzer 1 has no reference: after three samples of
    20.0 the session reports Actual 0.0, Error 20.0 and % Error 0.0. *)
Lemma level_percent_error_guard_witness :
  exists t1 t2 w1 w',
    level_capture_worker env_idle "AN1-LVL" MB_AN1 "LevelCapture" "LOW" "AN1_LEGACY" initial_world
      = (Ok tt, w') /\
    w_queue w' = w_queue w1 ++
      [level_row "LevelCapture" t1 "Low Level" "Avg" 20%float;
       level_row "LevelCapture" t2 "Low Level" "Actual" 0%float;
       level_row "LevelCapture" t2 "Low Level" "Error" 20%float;
       level_row "LevelCapture" t2 "Low Level" "% Error" 0%float].
Proof.
  destruct (level_readings env_idle MB_AN1 "LevelCapture" (py_title "LOW" ++ " Level")%string
              1 LEVEL_DELAYS [] initial_world) as [r w1] eqn:Hread.
  assert (Hr : r = Ok [20%float; 20%float; 20%float]).
  { vm_compute in Hread. injection Hread as <- _. reflexivity. }
  subst r.
  destruct (level_percent_error_guard env_idle "AN1-LVL" MB_AN1 "LevelCapture" "LOW" "AN1_LEGACY"
              initial_world w1 [20%float; 20%float; 20%float] Hread)
    as (avg & actual & pct & t1 & t2 & w2 & w' & Hrun & Hact & Hfb & Hpct & Hzero & Hq);
    [discriminate |].
  assert (Hactual : actual = 0%float) by (apply Hfb; exact I).
  subst actual.
  assert (Hp : pct = 0%float) by (apply Hzero; reflexivity).
  subst pct.
  assert (Havg : avg = 20%float).
  { vm_compute in Hrun. injection Hrun as Hw. subst w'.
    vm_compute in Hread. injection Hread as <-.
    vm_compute in Hq. congruence. }
  subst avg.
  exists t1, t2, w1, w'. split; [exact Hrun | exact Hq].
Defined.

(* ===================================================================== *)
(** * Historian: properties                                               *)
(* ===================================================================== *)

Lemma keeps_of_post {S A : Type} (R : S -> S -> Prop) (m : M S A) :
  (forall s, post m s (fun _ s' => R s s')) -> keeps R m.
Proof. intros H s. destruct (H s) as (a & s' & -> & HR). exact HR. Qed.

Lemma keeps_ret {S A : Type} (R : S -> S -> Prop) (a : A) :
  (forall s, R s s) -> keeps R (ret (S := S) a).
Proof. intros H s. apply H. Qed.

Lemma keeps_lift_res {S A : Type} (R : S -> S -> Prop) (r : Res A) :
  (forall s, R s s) -> keeps R (lift_res (S := S) r).
Proof. intros H s. apply H. Qed.

Lemma keeps_bind {S A B : Type} (R : S -> S -> Prop) (m : M S A) (k : A -> M S B) :
  (forall s1 s2 s3, R s1 s2 -> R s2 s3 -> R s1 s3) ->
  keeps R m -> (forall a, keeps R (k a)) -> keeps R (bind m k).
Proof.
  intros Htrans Hm Hk s. unfold bind.
  specialize (Hm s). destruct (m s) as [[a | e |] s']; simpl in *; try exact Hm.
  eapply Htrans; [exact Hm | apply Hk].
Qed.

Section HistorianFacts.

Variable env : Env.

Lemma read_bit_status_keeps (di_addr : Z) : keeps transport_frame (read_bit_status env di_addr).
Proof.
  unfold read_bit_status. apply keeps_bind; [exact transport_frame_trans | |].
  - apply keeps_of_post. intros s. apply read_discrete_frame.
  - intros [bits |].
    + apply keeps_bind; [exact transport_frame_trans | |].
      * apply keeps_lift_res, transport_frame_refl.
      * intros b. apply keeps_ret, transport_frame_refl.
    + apply keeps_ret, transport_frame_refl.
Qed.

Lemma active_modes_keeps (bits : list (Z * string)) : keeps transport_frame (active_modes env bits).
Proof.
  induction bits as [| [addr mode] rest IH]; simpl.
  - apply keeps_ret, transport_frame_refl.
  - apply keeps_bind; [exact transport_frame_trans | apply read_bit_status_keeps |].
    intros b. apply keeps_bind; [exact transport_frame_trans | exact IH |].
    intros active. apply keeps_ret, transport_frame_refl.
Qed.

Lemma is_calibration_keeps : keeps transport_frame (_is_calibration env).
Proof.
  unfold _is_calibration. apply keeps_bind; [exact transport_frame_trans | apply active_modes_keeps |].
  intros [| mode rest]; apply keeps_ret, transport_frame_refl.
Qed.

Lemma first_level_keeps (bits : list (string * Z)) : keeps transport_frame (first_level env bits).
Proof.
  induction bits as [| [nm addr] rest IH]; simpl.
  - apply keeps_ret, transport_frame_refl.
  - apply keeps_bind; [exact transport_frame_trans | apply read_bit_status_keeps |].
    intros [[|] |]; try exact IH. apply keeps_ret, transport_frame_refl.
Qed.

Lemma read_block_input_keeps (mb : Mb) (reg_map : list (Z * string)) :
  keeps transport_frame (read_block_input env mb reg_map).
Proof.
  unfold read_block_input. apply keeps_bind; [exact transport_frame_trans | |].
  - apply keeps_lift_res, transport_frame_refl.
  - intros m. apply keeps_bind; [exact transport_frame_trans | |].
    + apply keeps_of_post. intros s. apply read_input_regs_frame.
    + intros [[| r rest] |]; apply keeps_ret, transport_frame_refl.
Qed.

Lemma read_flow_keeps : keeps transport_frame (read_flow env).
Proof.
  unfold read_flow. apply keeps_bind; [exact transport_frame_trans | apply read_block_input_keeps |].
  intros [[| v rest] |]; apply keeps_ret, transport_frame_refl.
Qed.

Lemma Historian_inputs_keeps (h : Historian) : keeps transport_frame (Historian_inputs env h).
Proof.
  unfold Historian_inputs.
  apply keeps_bind; [exact transport_frame_trans | apply read_flow_keeps |]. intros flow.
  apply keeps_bind; [exact transport_frame_trans | apply is_calibration_keeps |]. intros cal.
  apply keeps_bind; [exact transport_frame_trans | apply first_level_keeps |]. intros lv.
  apply keeps_bind; [exact transport_frame_trans | apply read_block_input_keeps |]. intros nv.
  apply keeps_ret, transport_frame_refl.
Qed.

Lemma invalid_from_keeps (mins : gmap Z MinCfg) (values : list (option float)) (idx : Z) :
  keeps data_frame (invalid_from env mins idx values).
Proof.
  revert idx. induction values as [| v rest IH]; intros idx; simpl.
  - apply keeps_ret, data_frame_refl.
  - destruct (mins !! idx) as [cfg |]; [| apply IH].
    apply keeps_bind; [exact data_frame_trans | |].
    + apply keeps_of_post. intros s. apply get_float_holding_frame.
    + intros [mn |]; [| apply IH].
      destruct v as [x |]; [| intros s; apply data_frame_refl].
      destruct (PrimFloat.ltb x mn); [apply keeps_ret, data_frame_refl | apply IH].
Qed.

Lemma Historian_inputs_run (h : Historian) (w : World) :
  Historian_inputs env h w =
    match read_flow env w with
    | (Ok flow, wa) =>
        match _is_calibration env wa with
        | (Ok cal, wb) =>
            match _level_mode env wb with
            | (Ok level_mode, wc) =>
                match read_block_input env (mb_an h) (live_regs h) wc with
                | (Ok live, wd) => (Ok (flow, cal, level_mode, live), wd)
                | (Raise e, wd) => (Raise e, wd)
                | (OutOfFuel, wd) => (OutOfFuel, wd)
                end
            | (Raise e, wc) => (Raise e, wc)
            | (OutOfFuel, wc) => (OutOfFuel, wc)
            end
        | (Raise e, wb) => (Raise e, wb)
        | (OutOfFuel, wb) => (OutOfFuel, wb)
        end
    | (Raise e, wa) => (Raise e, wa)
    | (OutOfFuel, wa) => (OutOfFuel, wa)
    end.
Proof.
  unfold Historian_inputs, bind, ret.
  destruct (read_flow env w) as [[flow | e |] wa]; try reflexivity.
  all: destruct (_is_calibration env wa) as [[cal | e |] wb]; try reflexivity.
  all: destruct (_level_mode env wb) as [[lv | e |] wc]; try reflexivity.
  all: destruct (read_block_input env (mb_an h) (live_regs h) wc) as [[live | e |] wd];
    reflexivity.
Qed.

(** One pass, case by case, in terms of what it read. *)
Lemma Historian_sample_run (h : Historian) (w : World) :
  Historian_sample env (h, w) =
    match Historian_inputs env h w with
    | (Ok (flow, (mode, is_cal), level_mode, live), wd) =>
        match live with
        | None => emitted env h wd flow "ANALYZER OFFLINE" level_mode 0 (last_good h)
        | Some vals =>
            let new_vals := pad_to (val_count h) (map Some vals) in
            if String.eqb mode "ANALYZER IDLE" then
              match invalid_from env (min_map h) 1 new_vals wd with
              | (Ok true, we) =>
                  emitted env h we flow "ANALYZER INVALID" level_mode is_cal new_vals
              | (Ok false, we) =>
                  emitted env (set_last_good new_vals h) we flow mode level_mode is_cal new_vals
              | (Raise e, we) => (Raise e, (h, we))
              | (OutOfFuel, we) => (OutOfFuel, (h, we))
              end
            else emitted env h wd flow mode level_mode is_cal (last_good h)
        end
    | (Raise e, wd) => (Raise e, (h, wd))
    | (OutOfFuel, wd) => (OutOfFuel, (h, wd))
    end.
Proof.
  rewrite Historian_inputs_run.
  unfold Historian_sample, _invalid_min_only, emitted.
  cbv beta iota delta [bind in_world self set_self gets modify ret fst snd now tick q_put].
  destruct (read_flow env w) as [[flow | e |] wa]; try reflexivity.
  all: destruct (_is_calibration env wa) as [[[mode is_cal] | e |] wb]; try reflexivity.
  all: destruct (_level_mode env wb) as [[lv | e |] wc]; try reflexivity.
  all: destruct (read_block_input env (mb_an h) (live_regs h) wc) as [[live | e |] wd];
    try reflexivity.
  all: destruct live as [vals |]; try reflexivity.
  all: destruct (String.eqb mode "ANALYZER IDLE"); try reflexivity.
  all: destruct (invalid_from env (min_map h) 1 (pad_to (val_count h) (map Some vals)) wd)
    as [[[|] | e |] we]; reflexivity.
Qed.

(** A pass that returns normally has queued exactly one record. *)
Lemma historian_emits_one_record (h h' : Historian) (w w' : World) :
  Historian_sample env (h, w) = (Ok tt, (h', w')) ->
  exists row, w_queue w' = w_queue w ++ [row].
Proof.
  rewrite Historian_sample_run.
  pose proof (Historian_inputs_keeps h w) as Hk.
  destruct (Historian_inputs env h w) as [[[[[flow [mode is_cal]] lv] live] | e |] wd];
    try discriminate.
  destruct Hk as (_ & Hq & _). cbn [snd] in Hq.
  destruct live as [vals |].
  - cbv zeta. destruct (String.eqb mode "ANALYZER IDLE").
    + pose proof (invalid_from_keeps (min_map h) (pad_to (val_count h) (map Some vals)) 1 wd)
        as (Hq' & _).
      destruct (invalid_from env (min_map h) 1 (pad_to (val_count h) (map Some vals)) wd)
        as [[[|] | e |] we]; try discriminate; cbn [snd] in Hq';
        unfold emitted; intros [= <- <-]; simpl; rewrite Hq', Hq; eexists; reflexivity.
    + unfold emitted. intros [= <- <-]. simpl. rewrite Hq. eexists. reflexivity.
  - unfold emitted. intros [= <- <-]. simpl. rewrite Hq. eexists. reflexivity.
Qed.

End HistorianFacts.

Lemma pad_to_exact {A : Type} (n : nat) (l : list (option A)) :
  length l = n -> pad_to n l = l.
Proof.
  intros <-. unfold pad_to. rewrite firstn_app, Nat.sub_diag, firstn_all. simpl.
  apply app_nil_r.
Qed.

Lemma read_block_input_length (env : Env) (mb : Mb) (reg_map : list (Z * string))
    (w w' : World) (vals : list float) :
  read_block_input env mb reg_map w = (Ok (Some vals), w') -> length vals = length reg_map.
Proof.
  unfold read_block_input. intros H.
  apply bind_ok_inv in H. destruct H as (m & w1 & _ & H).
  apply bind_ok_inv in H. destruct H as (regs & w2 & _ & H).
  destruct regs as [[| r rest] |]; try discriminate.
  injection H as <- _. rewrite length_map. reflexivity.
Qed.

Lemma active_modes_names (env : Env) (bits : list (Z * string)) (w w' : World)
    (active : list string) :
  active_modes env bits w = (Ok active, w') ->
  forall mode, In mode active -> In mode (map snd bits).
Proof.
  revert w w' active. induction bits as [| [addr name] rest IH]; intros w w' active H; simpl in H.
  - injection H as <- _. intros mode [].
  - apply bind_ok_inv in H. destruct H as (b & w1 & _ & H).
    apply bind_ok_inv in H. destruct H as (l & w2 & Hrest & H).
    injection H as <- _. intros mode Hin. simpl.
    destruct b as [[|] |]; [destruct Hin as [<- | Hin] |..]; eauto.
Qed.

(** The name of an active calibration is not the idle mode. *)
Lemma calibration_name_not_idle (env : Env) (w w' : World) (mode : string) (rest : list string) :
  active_modes env CAL_BITS w = (Ok (mode :: rest), w') ->
  String.eqb mode "ANALYZER IDLE" = false.
Proof.
  intros H. pose proof (active_modes_names env CAL_BITS w w' _ H mode (or_introl eq_refl)) as Hin.
  simpl in Hin. destruct Hin as [<- | [<- | [<- | [<- | []]]]]; reflexivity.
Qed.

Lemma Historian_pass_last_good (env : Env) (h : Historian) (w : World) :
  fst (snd (Historian_pass env (h, w))) = fst (snd (Historian_sample env (h, w))).
Proof.
  unfold Historian_pass.
  generalize (responsive_sleep env (Z.to_nat (HIST_INTERVAL_S * 10))). intros m.
  unfold bind, try_except, in_world, ret.
  destruct (Historian_sample env (h, w)) as [[[] | e |] [h1 w1]]; cbn [fst snd];
    try reflexivity; destruct (m w1); reflexivity.
Qed.

(** C4, counterexample: bit 1201 reads true while analyzer 1 refuses the
    connection; the record is "ANALYZER OFFLINE" with the flag 0. *)
Lemma calibration_bit_set_but_offline :
  fst (active_modes (env_calibrating false) CAL_BITS
         (snd (read_flow (env_calibrating false) initial_world))) = Ok ["N2O ZERO"] /\
  fst (Historian_sample (env_calibrating false) (hist1_at_20, initial_world)) = Ok tt /\
  w_queue (snd (snd (Historian_sample (env_calibrating false) (hist1_at_20, initial_world)))) =
    [value_row "Value" (clock 14)
       [Some 20%float; Some 20%float; Some 20%float; None; None]
       0%float "ANALYZER OFFLINE" "LEVEL IDLE" 0 "PLANT STOP"].
Proof. vm_compute. repeat split. Qed.

(* ===================================================================== *)
(** * SQL writer: properties                                              *)
(* ===================================================================== *)

Section WriterFacts.

Variable env : Env.

(** Taking the head of the queue, once the rows put meanwhile are in. *)
Lemma q_get_nowait_run (w : World) :
  q_get_nowait env w =
    match w_queue w ++ q_arrivals env (w_step w) with
    | [] =>
        (Raise QueueEmpty,
         set_queue (w_queue w ++ q_arrivals env (w_step w)) (set_step (S (w_step w)) w))
    | it :: rest => (Ok it, set_queue rest (set_step (S (w_step w)) w))
    end.
Proof.
  unfold q_get_nowait, absorb_arrivals, q_pop, tick, modify, gets, raise, ret, bind. simpl.
  destruct (w_queue w ++ q_arrivals env (w_step w)); reflexivity.
Qed.

(** Draining returns; it adds at most [room] items and blocks on nothing. *)
Lemma drain_post (room : nat) (batch : list Item) (w : World) :
  post (drain env room batch) w (fun b w' =>
    (length batch <= length b <= length batch + room)%nat /\
    w_io w' = w_io w /\ w_committed w' = w_committed w).
Proof.
  revert batch w. induction room as [| room IH]; intros batch w; simpl.
  - apply post_ret. repeat split; lia.
  - unfold post, try_except_only. unfold bind at 1. rewrite q_get_nowait_run.
    destruct (w_queue w ++ q_arrivals env (w_step w)) as [| it rest] eqn:Hq.
    + simpl. eexists _, _. split; [reflexivity |]. simpl. repeat split; lia.
    + match goal with
      | |- context [drain env room (batch ++ [it]) ?w1] =>
          destruct (IH (batch ++ [it]) w1) as (b & w' & Hrun & Hlen & Hio & Hco)
      end.
      rewrite Hrun. exists b, w'. split; [reflexivity |].
      rewrite length_app in Hlen. simpl in *. repeat split; try assumption; lia.
Qed.

Lemma q_get_timeout_run (timeout : float) (w : World) :
  q_get_timeout env timeout w =
    q_get_nowait env (set_io (w_io w ++ [EvQueueWait timeout]) w).
Proof. reflexivity. Qed.

(** A batch, when there is one, has between 1 and 300 items and cost one
    bounded wait; without one, the pass goes on to the next. *)
Lemma take_batch_post (w : World) :
  post (take_batch env) w (fun r w' =>
    w_io w' = w_io w ++ [EvQueueWait 1%float] /\ w_committed w' = w_committed w /\
    match r with
    | Some batch => (1 <= length batch <= BATCH_MAX)%nat
    | None => True
    end).
Proof.
  unfold post, take_batch, try_except_only. unfold bind at 1.
  rewrite q_get_timeout_run, q_get_nowait_run.
  cbn [w_queue w_step set_io].
  destruct (w_queue w ++ q_arrivals env (w_step w)) as [| it rest] eqn:Hq.
  - simpl. eexists _, _. split; [reflexivity |]. simpl. auto.
  - unfold bind.
    match goal with
    | |- context [drain env ?n [it] ?w1] =>
        destruct (drain_post n [it] w1) as (b & w' & Hrun & Hlen & Hio & Hco)
    end.
    rewrite Hrun. unfold ret. exists (Some b), w'. split; [reflexivity |].
    simpl in *. unfold BATCH_MAX. repeat split; try assumption; lia.
Qed.

Lemma execute_run (it : Item) (s : SQLWriter) (w : World) :
  execute env it (s, w) =
    match db_execute env (w_step w) it with
    | SinkOk =>
        (Ok tt, (mkSQLWriter (option_map (fun c => mkSqlConn (pending c ++ [it])) (conn s)),
                 set_step (S (w_step w)) w))
    | SinkError => (Raise PyodbcError, (s, set_step (S (w_step w)) w))
    | SinkUnexpected => (Raise RuntimeError, (s, set_step (S (w_step w)) w))
    end.
Proof.
  unfold execute, bind, in_world, tick. simpl.
  destruct (db_execute env (w_step w) it); reflexivity.
Qed.

(** Executing rows touches neither the queue nor the committed rows; when
    every row is accepted they are all pending on the connection. *)
Lemma rows_executed (batch : list Item) (s s' : SQLWriter) (w w' : World) (r : Res unit) :
  for_each batch (execute env) (s, w) = (r, (s', w')) ->
  w_queue w' = w_queue w /\ w_committed w' = w_committed w /\ w_io w' = w_io w /\
  r <> OutOfFuel /\
  (conn s <> None -> conn s' <> None) /\
  (r = Ok tt ->
   conn s' = option_map (fun c => mkSqlConn (pending c ++ batch)) (conn s)).
Proof.
  revert s w. induction batch as [| it rest IH]; intros s w H; simpl in H.
  - injection H as <- <- <-. repeat split; try discriminate; auto.
    intros _. destruct (conn s) as [[p] |]; simpl; [rewrite app_nil_r |]; reflexivity.
  - unfold bind in H. rewrite execute_run in H.
    destruct (db_execute env (w_step w) it).
    + apply IH in H. destruct H as (Hq & Hc & Hio & Hfuel & Hsome & Hok). simpl in *.
      repeat split; try assumption.
      * intros Hne. apply Hsome. destruct (conn s); [discriminate | contradiction].
      * intros Hr. rewrite (Hok Hr). destruct (conn s) as [[p] |]; simpl; [| reflexivity].
        rewrite <- app_assoc. reflexivity.
    + injection H as <- <- <-. repeat split; auto; discriminate.
    + injection H as <- <- <-. repeat split; auto; discriminate.
Qed.

Lemma commit_run (s : SQLWriter) (w : World) :
  commit env (s, w) =
    match db_commit env (w_step w) with
    | SinkOk =>
        (Ok tt, (mkSQLWriter (option_map (fun _ => mkSqlConn []) (conn s)),
                 set_committed (w_committed w ++ pending_rows s) (set_step (S (w_step w)) w)))
    | SinkError => (Raise PyodbcError, (s, set_step (S (w_step w)) w))
    | SinkUnexpected => (Raise RuntimeError, (s, set_step (S (w_step w)) w))
    end.
Proof.
  unfold commit, bind, in_world, tick. simpl.
  destruct (db_commit env (w_step w)); reflexivity.
Qed.

(** A batch is committed whole or not at all. *)
Lemma flush_unit (batch : list Item) (s s' : SQLWriter) (w w' : World) (r : Res unit) (c : SqlConn) :
  conn s = Some c ->
  flush env batch (s, w) = (r, (s', w')) ->
  w_queue w' = w_queue w /\ w_io w' = w_io w /\ r <> OutOfFuel /\ conn s' <> None /\
  (r = Ok tt ->
   w_committed w' = w_committed w ++ pending c ++ batch /\ conn s' = Some (mkSqlConn [])) /\
  (r <> Ok tt -> w_committed w' = w_committed w).
Proof.
  intros Hconn H. unfold flush, bind in H.
  destruct (for_each batch (execute env) (s, w)) as [[[] | e |] [s1 w1]] eqn:Hexec;
    apply rows_executed in Hexec; destruct Hexec as (Hq & Hc & Hio & Hfuel & Hsome & Hok);
    assert (Hs1 : conn s1 <> None) by (apply Hsome; congruence).
  - specialize (Hok eq_refl). rewrite Hconn in Hok. simpl in Hok.
    rewrite commit_run in H. unfold pending_rows in H. rewrite Hok in H. simpl in H.
    destruct (db_commit env (w_step w1)); injection H as <- <- <-; simpl;
      repeat split; try congruence; try discriminate;
      try (intros Hne; exfalso; apply Hne; reflexivity).
  - injection H as <- <- <-. repeat split; try congruence; discriminate.
  - contradiction.
Qed.

Lemma open_connection_run (s : SQLWriter) (w : World) :
  open_connection env (s, w) =
    match conn s with
    | Some _ => (Ok tt, (s, w))
    | None =>
        let w1 := set_io (w_io w ++ [EvDbConnect]) (set_step (S (w_step w)) w) in
        match db_connect env (w_step w) with
        | SinkOk => (Ok tt, (mkSQLWriter (Some (mkSqlConn [])), w1))
        | SinkError => (Raise PyodbcError, (s, w1))
        | SinkUnexpected => (Raise RuntimeError, (s, w1))
        end
    end.
Proof.
  unfold open_connection, bind, self, gets. simpl.
  destruct (conn s); [reflexivity |].
  unfold in_world, sql_connect, bind, tick, log_io, modify. simpl.
  destruct (db_connect env (w_step w)); reflexivity.
Qed.

Lemma on_pyodbc_error_run (s : SQLWriter) (w : World) :
  on_pyodbc_error (s, w) =
    (Ok tt,
     (mkSQLWriter None,
      set_io (w_io w ++ match conn s with Some _ => [EvDbClose] | None => [] end
                     ++ [EvSleep 5%float])
        (set_step (S (w_step w)) w))).
Proof.
  unfold on_pyodbc_error, bind, self, gets. simpl.
  destruct (conn s); unfold in_world, log_io, sleep, set_self, modify, bind, tick, ret; simpl.
  - rewrite <- app_assoc. reflexivity.
  - reflexivity.
Qed.

(** A pass never raises: the writer thread goes on. *)
Lemma SQLWriter_pass_total (s : SQLWriter) (w : World) :
  post (SQLWriter_pass env) (s, w) (fun _ _ => True).
Proof.
  unfold post, SQLWriter_pass, try_except, SQLWriter_try.
  unfold bind at 1. rewrite open_connection_run.
  assert (Hhandler : forall e s0 w0, exists a s',
            (if is_PyodbcError e then on_pyodbc_error else in_world (sleep 1%float)) (s0, w0)
              = (Ok a, s') /\ True).
  { intros e s0 w0. destruct (is_PyodbcError e).
    - rewrite on_pyodbc_error_run. eauto.
    - eexists _, _. split; [reflexivity | exact I]. }
  assert (Hrest : forall s1 w1 c, conn s1 = Some c -> exists a s',
            match (let* batch := in_world (take_batch env) in
                   match batch with
                   | Some batch0 => flush env batch0
                   | None => ret tt
                   end) (s1, w1) with
            | (Raise e, s'0) =>
                (if is_PyodbcError e then on_pyodbc_error else in_world (sleep 1%float)) s'0
            | r => r
            end = (Ok a, s') /\ True).
  { intros s1 w1 c Hc. unfold bind, in_world. simpl.
    destruct (take_batch_post w1) as (b & w2 & Hrun & _). rewrite Hrun.
    destruct b as [batch |]; [| eexists _, _; split; [reflexivity | exact I]].
    destruct (flush env batch (s1, w2)) as [r [s3 w3]] eqn:Hflush.
    destruct (flush_unit batch s1 s3 w2 w3 r c Hc Hflush) as (_ & _ & Hfuel & _).
    destruct r as [[] | e |]; [eexists _, _; split; [reflexivity | exact I] | | contradiction].
    apply Hhandler. }
  destruct (conn s) as [c |] eqn:Hconn.
  - apply (Hrest s w c Hconn).
  - simpl. destruct (db_connect env (w_step w)).
    + eapply Hrest. reflexivity.
    + apply Hhandler.
    + apply Hhandler.
Qed.

End WriterFacts.


(** A writer without a connection starts its pass by connecting. *)
Lemma pass_reconnects (env : Env) (w : World) :
  exists rest,
    w_io (snd (snd (SQLWriter_pass env (mkSQLWriter None, w)))) = w_io w ++ EvDbConnect :: rest.
Proof.
  assert (Hhandler : forall e s0 w0 l, w_io w0 = w_io w ++ EvDbConnect :: l ->
            exists rest,
              w_io (snd (snd ((if is_PyodbcError e then on_pyodbc_error
                               else in_world (sleep 1%float)) (s0, w0))))
                = w_io w ++ EvDbConnect :: rest).
  { intros e s0 w0 l Hl. destruct (is_PyodbcError e).
    - rewrite on_pyodbc_error_run. simpl. rewrite Hl, <- app_assoc. simpl.
      eexists. reflexivity.
    - simpl. rewrite Hl, <- app_assoc. simpl. eexists. reflexivity. }
  unfold SQLWriter_pass, try_except, SQLWriter_try.
  unfold bind at 1. rewrite open_connection_run. cbn [conn].
  destruct (db_connect env (w_step w)); cbv zeta.
  - unfold bind, in_world. cbn [fst snd].
    match goal with
    | |- context [take_batch env ?w1] =>
        destruct (take_batch_post env w1) as (b & w2 & Hrun & Hio & _)
    end.
    rewrite Hrun. simpl in Hio. rewrite <- app_assoc in Hio. simpl in Hio.
    destruct b as [batch |].
    + destruct (flush env batch (mkSQLWriter (Some (mkSqlConn [])), w2)) as [r [s3 w3]] eqn:Hflush.
      destruct (flush_unit env batch (mkSQLWriter (Some (mkSqlConn []))) s3 w2 w3 r
                  (mkSqlConn []) eq_refl Hflush) as (_ & Hio3 & _).
      rewrite <- Hio3 in Hio.
      destruct r as [[] | e |].
      * eexists. exact Hio.
      * eapply Hhandler. exact Hio.
      * eexists. exact Hio.
    + eexists. exact Hio.
  - eapply (Hhandler PyodbcError). simpl. reflexivity.
  - eapply (Hhandler RuntimeError). simpl. reflexivity.
Qed.

(* ===================================================================== *)
(** * Capture sessions: properties                                        *)
(* ===================================================================== *)

Section SessionFacts.

Variable env : Env.

Lemma is_set_run (w : World) :
  is_set env w = (Ok (stop_is_set env (w_step w)), set_step (S (w_step w)) w).
Proof. reflexivity. Qed.

Lemma sleep_run (seconds : float) (w : World) :
  sleep seconds w =
    (Ok tt, set_io (w_io w ++ [EvSleep seconds]) (set_step (S (w_step w)) w)).
Proof. reflexivity. Qed.




End SessionFacts.




(* ===================================================================== *)
(** * Monitors: properties                                                *)
(* ===================================================================== *)

Section MonitorFacts.

Variable env : Env.

Lemma read_bit_status_threads (addr : Z) (w : World) :
  w_threads (snd (read_bit_status env addr w)) = w_threads w.
Proof.
  destruct (read_bit_status_keeps env addr w) as (_ & _ & H & _). exact H.
Qed.

Lemma workers_known_threads (m : CalMonitor) (w w' : World) :
  w_threads w' = w_threads w -> workers_known (m, w) -> workers_known (m, w').
Proof. unfold workers_known. simpl. intros ->. auto. Qed.

Lemma last_known (m : CalMonitor) (l : gmap Z bool) (w : World) :
  workers_known (m, w) -> workers_known (set_cm_last l m, w).
Proof. intros H. exact H. Qed.

(** Starting a worker for [addr] when the remembered one, if any, is not
    alive keeps the record exact. *)
Lemma spawn_known (m : CalMonitor) (w : World) (addr : Z) :
  workers_known (m, w) ->
  (forall tid t, cm_workers m !! addr = Some tid ->
     nth_error (w_threads w) tid = Some t -> th_alive t = false) ->
  workers_known
    (set_cm_workers (<[addr := length (w_threads w)]> (cm_workers m)) m,
     set_threads (w_threads w ++ [mkThread (CalJob (cm_name m) addr) true]) w).
Proof.
  intros Hinv Hdead tid t a Hn Ha Hj. cbn [fst snd set_cm_workers cm_workers cm_name
    set_threads w_threads] in *.
  destruct (Nat.lt_ge_cases tid (length (w_threads w))) as [Hlt | Hge].
  - rewrite nth_error_app1 in Hn by exact Hlt.
    pose proof (Hinv tid t a Hn Ha Hj) as Hw. cbn [fst snd] in Hw.
    destruct (decide (a = addr)) as [-> | Hne].
    + rewrite (Hdead tid t Hw Hn) in Ha. discriminate.
    + rewrite lookup_insert_ne by congruence. exact Hw.
  - rewrite nth_error_app2 in Hn by exact Hge.
    destruct (tid - length (w_threads w))%nat as [| k] eqn:Hk.
    + simpl in Hn. injection Hn as <-. simpl in Hj. injection Hj as <-.
      rewrite lookup_insert_eq. f_equal. lia.
    + simpl in Hn. destruct k; discriminate.
Qed.

(** Looking at one trigger keeps the monitor's record of its workers
    exact: a worker is started only when the one remembered for the
    address is not alive. *)
Lemma CalMonitor_visit_known (ai : Z * TrigInfo) (m : CalMonitor) (w : World) :
  workers_known (m, w) ->
  workers_known (snd (CalMonitor_visit env ai (m, w))) /\
  cm_name (fst (snd (CalMonitor_visit env ai (m, w)))) = cm_name m.
Proof.
  intros Hinv. destruct ai as [addr info].
  remember (CalMonitor_visit env (addr, info) (m, w)) as res eqn:Hres.
  unfold CalMonitor_visit in Hres. cbn [fst] in Hres.
  unfold bind at 1 in Hres. unfold in_world at 1 in Hres. cbn [fst snd] in Hres.
  pose proof (read_bit_status_threads addr w) as Hth.
  destruct (read_bit_status env addr w) as [r w1]. cbn [snd] in Hth.
  apply (workers_known_threads m w w1 Hth) in Hinv. clear Hth.
  destruct r as [[st |] | e |]; try (subst res; split; [exact Hinv | reflexivity]).
  cbv [bind self gets lift_res set_self modify ret in_world is_alive start_thread] in Hres.
  cbn [fst snd] in Hres.
  destruct (cm_last m !! addr) as [last |]; [| subst res; split; [exact Hinv | reflexivity]].
  destruct (st && negb last) eqn:Hedge; cbn [fst snd] in Hres;
    [| subst res; split; [apply last_known; exact Hinv | reflexivity]].
  destruct (cm_workers m !! addr) as [tid |] eqn:Hw; cbn [fst snd] in Hres.
  - destruct (nth_error (w_threads w1) tid) as [t |] eqn:Hn.
    + destruct (th_alive t) eqn:Ha; cbn [negb fst snd] in Hres; subst res; cbn [fst snd].
      * split; [apply last_known; exact Hinv | reflexivity].
      * split; [| reflexivity].
        apply (last_known (set_cm_workers _ m)), spawn_known; [exact Hinv |].
        intros tid' t' Hw' Hn'. congruence.
    + cbn [negb fst snd] in Hres; subst res; cbn [fst snd].
      split; [| reflexivity].
      apply (last_known (set_cm_workers _ m)), spawn_known; [exact Hinv |].
      intros tid' t' Hw' Hn'. congruence.
  - cbn [negb fst snd] in Hres; subst res; cbn [fst snd].
    split; [| reflexivity].
    apply (last_known (set_cm_workers _ m)), spawn_known; [exact Hinv |].
    intros tid' t' Hw' Hn'. congruence.
Qed.

Lemma visits_known (ais : list (Z * TrigInfo)) (m : CalMonitor) (w : World) :
  workers_known (m, w) ->
  workers_known (snd (for_each ais (CalMonitor_visit env) (m, w))) /\
  cm_name (fst (snd (for_each ais (CalMonitor_visit env) (m, w)))) = cm_name m.
Proof.
  revert m w. induction ais as [| ai rest IH]; intros m w Hinv; simpl.
  - split; [exact Hinv | reflexivity].
  - unfold bind.
    destruct (CalMonitor_visit_known ai m w Hinv) as (Hk & Hname).
    destruct (CalMonitor_visit env ai (m, w)) as [r [m1 w1]]. cbn [fst snd] in Hk, Hname.
    destruct r as [[] | e |]; cbn [fst snd]; auto.
    destruct (IH m1 w1 Hk) as (Hk' & Hname'). split; [exact Hk' | congruence].
Qed.

Lemma CalMonitor_pass_known (m : CalMonitor) (w : World) :
  workers_known (m, w) ->
  workers_known (snd (CalMonitor_pass env (m, w))) /\
  cm_name (fst (snd (CalMonitor_pass env (m, w)))) = cm_name m.
Proof.
  intros Hinv.
  remember (CalMonitor_pass env (m, w)) as res eqn:Hres.
  unfold CalMonitor_pass in Hres.
  cbv [bind self gets try_except ret in_world sleep tick log_io modify] in Hres.
  cbn [fst snd] in Hres.
  destruct (visits_known (cm_trig_map m) m w Hinv) as (Hk & Hname).
  destruct (for_each (cm_trig_map m) (CalMonitor_visit env) (m, w)) as [r [m1 w1]].
  cbn [fst snd] in Hk, Hname.
  destruct r as [[] | e |]; subst res; cbn [fst snd];
    (split; [| exact Hname]);
    first [exact Hk | exact (workers_known_threads m1 w1 _ eq_refl Hk)].
Qed.

(** The record stays exact along every run of the system. *)
Lemma cal_system_known (s s' : CalMonitor * World) :
  cal_system env s s' -> workers_known s ->
  workers_known s' /\ cm_name (fst s') = cm_name (fst s).
Proof.
  intros Hstep Hinv. destruct Hstep as [ai m w Hin | m w | m w w' Hev].
  - apply CalMonitor_visit_known. exact Hinv.
  - apply CalMonitor_pass_known. exact Hinv.
  - split; [| reflexivity].
    intros tid t addr Hn Ha Hj. cbn [fst snd] in *.
    apply (Hinv tid t addr); cbn [fst snd]; auto.
    apply Hev; auto. rewrite Hj. reflexivity.
Qed.

End MonitorFacts.

(** C1, calibration monitors (X27).  Started when none of its workers is alive,
    and whatever the triggers do and the other threads do, a calibration
    monitor never has two live workers for one trigger address. *)
Theorem cal_monitor_single_session (env : Env) (m0 m : CalMonitor) (w0 w : World) (addr : Z) :
  (forall tid t, nth_error (w_threads w0) tid = Some t ->
     job_owner (th_job t) = cm_name m0 -> th_alive t = false) ->
  rtc (cal_system env) (m0, w0) (m, w) ->
  at_most_one_session (CalJob (cm_name m) addr) w.
Proof.
  intros Hinit Hrun.
  assert (Hinv : workers_known (m, w) /\ cm_name (fst (m, w)) = cm_name m0).
  { refine (rtc_ind_r (R := cal_system env)
              (fun s => workers_known s /\ cm_name (fst s) = cm_name m0)
              (m0, w0) _ _ (m, w) Hrun).
    - split; [| reflexivity].
      intros tid t a Hn Ha Hj. cbn [fst snd] in *.
      rewrite (Hinit tid t Hn) in Ha; [discriminate |]. rewrite Hj. reflexivity.
    - intros y z _ Hstep (Hk & Hname).
      destruct (cal_system_known env y z Hstep Hk) as (Hk' & Hname').
      split; [exact Hk' | congruence]. }
  destruct Hinv as (Hk & _).
  intros tid1 tid2 t1 t2 Hn1 Hn2 Ha1 Ha2 Hj1 Hj2.
  pose proof (Hk tid1 t1 addr Hn1 Ha1 Hj1) as H1.
  pose proof (Hk tid2 t2 addr Hn2 Ha2 Hj2) as H2.
  cbn [fst snd] in H1, H2. congruence.
Qed.

Lemma cal_passes_reachable (env : Env) (n : nat) (m : CalMonitor) (w : World) :
  rtc (cal_system env) (m, w) (cal_passes env n (m, w)).
Proof.
  induction n as [| n IH]; [apply rtc_refl |].
  unfold cal_passes in *. simpl.
  destruct (Nat.iter n (fun s => snd (CalMonitor_pass env s)) (m, w)) as [m' w'].
  eapply rtc_r; [exact IH | apply monitor_passes].
Qed.

(** The trigger 1201 rises, falls and rises again while the first worker
    is alive: after the three passes there is one worker. *)
Lemma cal_monitor_single_session_witness :
  at_most_one_session (CalJob "AN1-CAL" 1201)
    (snd (cal_passes env_cal_retrigger 3 (cal1, initial_world))) /\
  w_threads (snd (cal_passes env_cal_retrigger 3 (cal1, initial_world))) =
    [mkThread (CalJob "AN1-CAL" 1201) true].
Proof.
  split; [| vm_compute; reflexivity].
  pose proof (cal_passes_reachable env_cal_retrigger 3 cal1 initial_world) as Hreach.
  assert (Hname : cm_name (fst (cal_passes env_cal_retrigger 3 (cal1, initial_world))) = "AN1-CAL")
    by (vm_compute; reflexivity).
  destruct (cal_passes env_cal_retrigger 3 (cal1, initial_world)) as [m w].
  cbn [fst snd] in *. rewrite <- Hname.
  apply (cal_monitor_single_session env_cal_retrigger cal1 m initial_world w 1201);
    [| exact Hreach].
  intros tid t Hn. destruct tid; discriminate Hn.
Defined.

(** C1, level monitors: the code at the failing input.  DI 3 reads true,
    false and true again on three successive passes of the level monitor
    of analyzer 1, 1.4 s apart in all, while a level session lasts 140 s.
    The first pass starts a session for LOW; the third starts a second one
    while the first is alive: two live sessions for one trigger. *)
Theorem level_monitor_second_session :
  w_threads (snd (level_passes env_retrigger 1 (lvl1, initial_world))) =
    [mkThread (LevelJob "AN1-LVL" "LOW") true] /\
  w_threads (snd (level_passes env_retrigger 3 (lvl1, initial_world))) =
    [mkThread (LevelJob "AN1-LVL" "LOW") true; mkThread (LevelJob "AN1-LVL" "LOW") true] /\
  ~ at_most_one_session (LevelJob "AN1-LVL" "LOW")
      (snd (level_passes env_retrigger 3 (lvl1, initial_world))).
Proof.
  assert (Hthreads : w_threads (snd (level_passes env_retrigger 3 (lvl1, initial_world))) =
            [mkThread (LevelJob "AN1-LVL" "LOW") true; mkThread (LevelJob "AN1-LVL" "LOW") true])
    by (vm_compute; reflexivity).
  split; [vm_compute; reflexivity |]. split; [exact Hthreads |].
  intros Hone.
  specialize (Hone 0%nat 1%nat (mkThread (LevelJob "AN1-LVL" "LOW") true)
                (mkThread (LevelJob "AN1-LVL" "LOW") true)).
  rewrite Hthreads in Hone.
  discriminate (Hone eq_refl eq_refl eq_refl eq_refl eq_refl eq_refl).
Qed.

(* ===================================================================== *)
(** * decode_float: byte orders                                          *)
(* ===================================================================== *)

Lemma byte_of_small (n : Z) :
  0 <= n < 256 -> Z.of_N (Byte.to_N (default Byte.x00 (Byte.of_N (Z.to_N n)))) = n.
Proof.
  intros Hn. destruct (Byte.of_N (Z.to_N n)) as [b |] eqn:Hb.
  - apply Byte.to_of_N in Hb. simpl. rewrite Hb. lia.
  - apply Byte.of_N_None_iff in Hb. lia.
Qed.

Lemma word16_bytes (z : Z) :
  0 <= z < 65536 ->
  Z.of_N (Byte.to_N (fst (word16_of_Z z))) = z / 256 /\
  Z.of_N (Byte.to_N (snd (word16_of_Z z))) = z mod 256.
Proof.
  intros Hz. unfold word16_of_Z. cbn [fst snd].
  assert (Hhi : 0 <= z / 256 < 256).
  { split; [apply Z.div_pos; lia | apply Z.div_lt_upper_bound; lia]. }
  rewrite (Z.mod_small (z / 256) 256) by exact Hhi.
  rewrite !byte_of_small; auto.
  apply Z.mod_pos_bound. lia.
Qed.

Lemma be_bytes_four (a b c d : Byte.byte) :
  be_bytes_to_Z [a; b; c; d] =
    ((Z.of_N (Byte.to_N a) * 256 + Z.of_N (Byte.to_N b)) * 256 + Z.of_N (Byte.to_N c)) * 256
    + Z.of_N (Byte.to_N d).
Proof. unfold be_bytes_to_Z. cbn [fold_left]. lia. Qed.

Lemma swap_bytes_range (z : Z) : 0 <= z < 65536 -> 0 <= swap_bytes z < 65536.
Proof.
  intros Hz. unfold swap_bytes.
  pose proof (Z.mod_pos_bound z 256 ltac:(lia)).
  assert (0 <= z / 256 < 256).
  { split; [apply Z.div_pos; lia | apply Z.div_lt_upper_bound; lia]. }
  lia.
Qed.

(** X1. The four byte orders of [decode_float], on the bit pattern.  For
    two registers [z1], [z2] (16-bit values), ABCD decodes the binary32
    number with pattern [z1 * 65536 + z2], CDAB the one with the words
    exchanged, BADC the one with the bytes exchanged inside each word,
    DCBA the one with both; any other order string decodes as ABCD. *)
Theorem decode_float_orders (z1 z2 : Z) (order : string) :
  0 <= z1 < 65536 -> 0 <= z2 < 65536 ->
  let w1 := word16_of_Z z1 in
  let w2 := word16_of_Z z2 in
  decode_float w1 w2 "ABCD" = binary32_of_bits (z1 * 65536 + z2) /\
  decode_float w1 w2 "CDAB" = binary32_of_bits (z2 * 65536 + z1) /\
  decode_float w1 w2 "BADC" = binary32_of_bits (swap_bytes z1 * 65536 + swap_bytes z2) /\
  decode_float w1 w2 "DCBA" = binary32_of_bits (swap_bytes z2 * 65536 + swap_bytes z1) /\
  (order <> "ABCD" -> order <> "CDAB" -> order <> "BADC" -> order <> "DCBA" ->
   decode_float w1 w2 order = decode_float w1 w2 "ABCD").
Proof.
  intros H1 H2 w1 w2.
  destruct (word16_bytes z1 H1) as (Hh1 & Hl1), (word16_bytes z2 H2) as (Hh2 & Hl2).
  fold w1 in Hh1, Hl1. fold w2 in Hh2, Hl2.
  pose proof (Z.div_mod z1 256 ltac:(lia)) as E1.
  pose proof (Z.div_mod z2 256 ltac:(lia)) as E2.
  unfold decode_float, unpack_f, pack_H, swap_bytes. cbn [String.eqb Ascii.eqb Bool.eqb].
  cbn [app rev]. rewrite !be_bytes_four, Hh1, Hl1, Hh2, Hl2.
  split; [f_equal; lia |]. split; [f_equal; lia |].
  split; [f_equal; lia |]. split; [f_equal; lia |].
  intros Ha Hc Hb Hd.
  apply String.eqb_neq in Ha, Hc, Hb, Hd. rewrite Ha, Hc, Hb, Hd.
  cbn [app]. rewrite be_bytes_four, Hh1, Hl1, Hh2, Hl2. reflexivity.
Qed.

(** The registers 0x41A0, 0x0000 decode to 20.0 in order ABCD. *)
Lemma decode_float_orders_witness :
  decode_float (word16_of_Z 16800) (word16_of_Z 0) "ABCD" = 20%float.
Proof.
  destruct (decode_float_orders 16800 0 "ABCD") as (Habcd & _); [lia | lia |].
  rewrite Habcd. reflexivity.
Defined.

(* ===================================================================== *)
(** * Table creation: properties                                         *)
(* ===================================================================== *)

Lemma sql_connect_run (env : Env) (w : World) :
  sql_connect env w =
    let w1 := set_io (w_io w ++ [EvDbConnect]) (set_step (S (w_step w)) w) in
    match db_connect env (w_step w) with
    | SinkOk => (Ok (mkSqlConn []), w1)
    | SinkError => (Raise PyodbcError, w1)
    | SinkUnexpected => (Raise RuntimeError, w1)
    end.
Proof.
  unfold sql_connect, bind, tick, log_io, modify. simpl.
  destruct (db_connect env (w_step w)); reflexivity.
Qed.

(** Executing and committing statements moves the clock and, when all of
    it succeeds, the committed rows; nothing else. *)
Lemma rows_executed_world (env : Env) (batch : list Item) (s s' : SQLWriter) (w w' : World)
    (r : Res unit) :
  for_each batch (execute env) (s, w) = (r, (s', w')) ->
  exists n, w' = set_step n w.
Proof.
  revert s w. induction batch as [| it rest IH]; intros s w H; simpl in H.
  - injection H as _ _ <-. exists (w_step w). destruct w; reflexivity.
  - unfold bind in H. rewrite execute_run in H.
    destruct (db_execute env (w_step w) it).
    + apply IH in H. destruct H as (n & ->). exists n. reflexivity.
    + injection H as _ _ <-. eexists. reflexivity.
    + injection H as _ _ <-. eexists. reflexivity.
Qed.

Lemma rows_accepted (env : Env) (batch : list Item) (s : SQLWriter) (w : World) :
  (forall n it, db_execute env n it = SinkOk) ->
  exists s' w', for_each batch (execute env) (s, w) = (Ok tt, (s', w')).
Proof.
  intros Hacc. revert s w. induction batch as [| it rest IH]; intros s w; simpl.
  - eexists _, _. reflexivity.
  - unfold bind. rewrite execute_run, Hacc. apply IH.
Qed.

Lemma ensure_tables_run (env : Env) (w : World) :
  exists w', ensure_tables env w = (Ok tt, w') /\
    w_queue w' = w_queue w /\ w_threads w' = w_threads w /\
    w_links w' = w_links w /\ w_cache w' = w_cache w /\
    (w_committed w' = w_committed w ++ ensure_tables_statements /\
     w_io w' = w_io w ++ [EvDbConnect; EvDbClose] \/
     w_committed w' = w_committed w /\ w_io w' = w_io w ++ [EvDbConnect]) /\
    (sink_accepts env -> w_committed w' = w_committed w ++ ensure_tables_statements).
Proof.
  unfold ensure_tables, try_except. unfold bind at 1. rewrite sql_connect_run. cbv zeta.
  set (w1 := set_io (w_io w ++ [EvDbConnect]) (set_step (S (w_step w)) w)).
  destruct (db_connect env (w_step w)) eqn:Hconnect.
  2, 3: exists w1; unfold ret; split; [reflexivity |]; do 4 (split; [reflexivity |]);
        (split; [right; split; reflexivity |]);
        intros (Hc & _); rewrite Hc in Hconnect; discriminate.
  unfold bind at 1. unfold with_connection.
  change ((for_each ensure_tables_statements (execute env) ;; commit env)
            (mkSQLWriter (Some (mkSqlConn [])), w1))
    with (flush env ensure_tables_statements (mkSQLWriter (Some (mkSqlConn [])), w1)).
  destruct (flush env ensure_tables_statements (mkSQLWriter (Some (mkSqlConn [])), w1))
    as [r [s2 w2]] eqn:Hflush.
  pose proof Hflush as Hunit.
  apply (flush_unit env ensure_tables_statements (mkSQLWriter (Some (mkSqlConn []))) s2 w1 w2 r
           (mkSqlConn []) eq_refl) in Hunit.
  destruct Hunit as (Hq & Hio & Hfuel & _ & Hok & Hno).
  assert (Hworld : w_threads w2 = w_threads w /\ w_links w2 = w_links w /\
                   w_cache w2 = w_cache w).
  { unfold flush, bind in Hflush.
    destruct (for_each ensure_tables_statements (execute env)
                (mkSQLWriter (Some (mkSqlConn [])), w1)) as [[[] | e |] [s3 w3]] eqn:Hexec;
      apply rows_executed_world in Hexec; destruct Hexec as (n & ->).
    - rewrite commit_run in Hflush.
      destruct (db_commit env _); injection Hflush as _ _ <-; auto.
    - injection Hflush as _ _ <-. auto.
    - injection Hflush as _ _ <-. auto. }
  destruct Hworld as (Hth & Hl & Hc).
  destruct r as [[] | e |]; [| | contradiction].
  - destruct (Hok eq_refl) as (Hcommitted & _). simpl in Hcommitted.
    eexists. split; [reflexivity |]. cbn [w_queue w_threads w_links w_cache w_committed w_io set_io].
    rewrite Hq, Hth, Hl, Hc, Hcommitted, Hio. subst w1. cbn [w_io set_io w_committed set_step].
    rewrite <- app_assoc.
    do 4 (split; [reflexivity |]). split; [left; split; reflexivity |]. reflexivity.
  - assert (Hcommitted : w_committed w2 = w_committed w1) by (apply Hno; discriminate).
    exists w2. unfold ret. split; [reflexivity |].
    rewrite Hq, Hth, Hl, Hc, Hcommitted, Hio. subst w1. cbn [w_io set_io w_committed set_step].
    do 4 (split; [reflexivity |]). split; [right; split; reflexivity |].
    intros (_ & Hexec & Hcommit). exfalso.
    unfold flush, bind in Hflush.
    destruct (rows_accepted env ensure_tables_statements (mkSQLWriter (Some (mkSqlConn [])))
                (set_io (w_io w ++ [EvDbConnect]) (set_step (S (w_step w)) w)) Hexec)
      as (s3 & w3 & Hrun).
    rewrite Hrun, commit_run, Hcommit in Hflush. discriminate.
Qed.

(** X2. [ensure_tables] never raises: whatever the SQL server does, it
    returns, having touched neither the queue nor the devices.  Its six
    statements are committed together, after which the connection is
    closed, or, when the server refuses the connection, a statement or
    the commit, none of them is committed (and a connection that was
    opened is not closed); with a server that accepts every call they
    are committed. *)
Theorem ensure_tables_all_or_nothing (env : Env) (w : World) :
  exists w', ensure_tables env w = (Ok tt, w') /\
    w_queue w' = w_queue w /\ w_threads w' = w_threads w /\
    w_links w' = w_links w /\ w_cache w' = w_cache w /\
    (w_committed w' = w_committed w ++ ensure_tables_statements /\
     w_io w' = w_io w ++ [EvDbConnect; EvDbClose] \/
     w_committed w' = w_committed w /\ w_io w' = w_io w ++ [EvDbConnect]) /\
    (sink_accepts env -> w_committed w' = w_committed w ++ ensure_tables_statements).
Proof. exact (ensure_tables_run env w). Qed.

(** X3. The statements for the second tables are made from those of the
    first by [str.replace] of the table name.  For the historian and the
    level table the result is the statement of the first table with the
    second table's name.  For the calibration table, whose name [CAL]
    also occurs in the column [CAL_NAME], it is not: the second
    calibration table is created with a column [CAL_1_NAME] and without
    a column [CAL_NAME], the column the calibration rows of that table
    are inserted into. *)
Theorem second_table_statements :
  ddl_value2 = ddl_value_template T_VALUE_2 /\
  ddl_level2 = ddl_level_template T_LVL_2 /\
  ddl_cal2 = py_replace (ddl_cal_template T_CAL_2) "CAL_NAME" "CAL_1_NAME" /\
  py_in "CAL_NAME" ddl_cal2 = false /\
  py_in "CAL_NAME" (cal_insert T_CAL_2) = true.
Proof. do 4 (split; [vm_compute; reflexivity |]). vm_compute. reflexivity. Qed.

(* ===================================================================== *)
(** * SharedModbus: connection and reads                                 *)
(* ===================================================================== *)

Lemma get_put_link_ne (mb mb' : Mb) (l : SharedModbus) (ls : Links) :
  mb' <> mb -> get_link mb' (put_link mb l ls) = get_link mb' ls.
Proof. intros H. destruct mb, mb'; try reflexivity; contradiction. Qed.

Lemma other_links_kept_refl (mb : Mb) (w : World) : other_links_kept mb w w.
Proof. intros mb' _. reflexivity. Qed.

Lemma other_links_kept_trans (mb : Mb) (w1 w2 w3 : World) :
  other_links_kept mb w1 w2 -> other_links_kept mb w2 w3 -> other_links_kept mb w1 w3.
Proof. intros H1 H2 mb' Hne. rewrite H2, H1 by exact Hne. reflexivity. Qed.

Lemma connect_others (env : Env) (mb : Mb) (w : World) :
  other_links_kept mb w (snd (_connect env mb w)).
Proof.
  intros mb' Hne.
  unfold _connect, bind, link, gets, tick, log_io, set_link, modify, ret. simpl.
  destruct (mb_connect env mb (w_step w)); simpl; apply get_put_link_ne; exact Hne.
Qed.

Lemma ensure_effects (env : Env) (mb : Mb) (w : World) :
  post (_ensure env mb) w (fun ok w' =>
    is_connected (get_link mb (w_links w')) = ok /\
    other_links_kept mb w w' /\
    (w_io w' = w_io w \/ w_io w' = w_io w ++ [EvConnect mb]) /\
    (w_step w <= w_step w')%nat /\
    (is_connected (get_link mb (w_links w)) = true -> ok = true /\ w' = w)).
Proof.
  destruct (is_connected (get_link mb (w_links w))) eqn:Hconn.
  - eexists _, _. split; [apply ensure_connected; exact Hconn |].
    split; [exact Hconn |]. split; [apply other_links_kept_refl |]. auto.
  - destruct (PrimFloat.ltb (PrimFloat.sub (time_time env (w_step w))
                (last_fail (get_link mb (w_links w)))) 1.5%float) eqn:Hc.
    + eexists _, _. split; [apply ensure_fail_fast; assumption |]. simpl.
      split; [exact Hconn |]. split; [intros mb' _; reflexivity |].
      split; [left; reflexivity |]. split; [lia | discriminate].
    + destruct (ensure_attempt env mb w Hconn Hc)
        as (ok & w' & Hrun & (_ & _ & _ & _ & Hstep) & Hio & Hc' & _).
      exists ok, w'. split; [exact Hrun |]. split; [exact Hc' |].
      split; [| split; [right; exact Hio | split; [exact Hstep | discriminate]]].
      unfold _ensure in Hrun. unfold bind at 1 in Hrun. unfold link at 1, gets at 1 in Hrun.
      rewrite Hconn in Hrun.
      unfold bind at 1 in Hrun. rewrite now_post in Hrun. rewrite Hc in Hrun.
      unfold bind at 1 in Hrun.
      pose proof (connect_others env mb (set_step (S (w_step w)) w)) as Ho.
      destruct (_connect env mb (set_step (S (w_step w)) w)) as [[ok1 | e |] w1];
        try discriminate Hrun.
      cbn [snd] in Ho.
      destruct ok1; cbn [negb] in Hrun.
      * injection Hrun as <- <-. exact Ho.
      * injection Hrun as <- <-. intros mb' Hne. simpl.
        rewrite get_put_link_ne by exact Hne. apply Ho. exact Hne.
Qed.

Section ReadMore.

Context {A : Type}.
Variable env : Env.
Variable oracle : Mb -> Z -> Z -> nat -> reply A * bool.

(** The request itself, with the bookkeeping of a failure. *)
Lemma attempt_read_run (mb : Mb) (address count : Z) (w : World) :
  let n := w_step w in
  let lf := last_fail (get_link mb (w_links w)) in
  let w1 := set_links
              (put_link mb (mkSharedModbus (Some (snd (oracle mb address count n))) lf) (w_links w))
              (set_io (w_io w ++ [EvRead mb address count]) (set_step (S n) w)) in
  try_except (library_read mb address count oracle)
    (fun _ => record_failure env mb ;; ret None) w =
  match fst (oracle mb address count n) with
  | Values v => (Ok (Some v), w1)
  | ErrorReply => (Ok None, w1)
  | IoRaises =>
      (Ok None,
       set_links
         (put_link mb (mkSharedModbus (Some (snd (oracle mb address count n)))
                         (time_time env (S n))) (w_links w1))
         (set_step (S (S n)) w1))
  end.
Proof.
  intros n lf w1. unfold try_except. rewrite library_read_run. fold n lf w1.
  destruct (fst (oracle mb address count n)); try reflexivity.
  unfold bind. rewrite record_failure_run. unfold ret. subst w1. simpl.
  rewrite get_put_link. reflexivity.
Qed.

Lemma guarded_read_footprint (mb : Mb) (address count : Z) (w : World) :
  post (guarded_read env oracle mb address count) w (fun r w' =>
    other_links_kept mb w w' /\
    exists evs, w_io w' = w_io w ++ evs /\
      (evs = [] \/ evs = [EvConnect mb] \/ evs = [EvRead mb address count] \/
       evs = [EvConnect mb; EvRead mb address count]) /\
      (r <> None -> In (EvRead mb address count) evs)).
Proof.
  destruct (ensure_effects env mb w) as (ok & w1 & Hens & _ & Hothers & Hio & _).
  unfold post, guarded_read. unfold bind at 1. rewrite Hens.
  destruct ok; cbn [negb].
  - rewrite attempt_read_run.
    assert (Hio' : exists evs, w_io w1 ++ [EvRead mb address count] = w_io w ++ evs /\
              (evs = [EvRead mb address count] \/ evs = [EvConnect mb; EvRead mb address count])).
    { destruct Hio as [-> | ->]; [eexists; split; [reflexivity | left; reflexivity] |].
      rewrite <- app_assoc. eexists. split; [reflexivity | right; reflexivity]. }
    destruct Hio' as (evs & Hevs & Hcase).
    assert (Hin : In (EvRead mb address count) evs)
      by (destruct Hcase as [-> | ->]; simpl; auto).
    destruct (fst (oracle mb address count (w_step w1)));
      eexists _, _; (split; [reflexivity |]);
      cbn [w_links w_io w_step set_links set_io set_step];
      (split; [intros mb' Hne; cbn [w_links set_links set_io set_step];
               rewrite ?get_put_link_ne by exact Hne; apply Hothers; exact Hne |]);
      exists evs; (split; [exact Hevs |]); (split; [tauto | intros _; exact Hin]).
  - eexists _, _. split; [reflexivity |]. split; [exact Hothers |].
    destruct Hio as [-> | ->].
    + exists []. rewrite app_nil_r. split; [reflexivity |]. split; [tauto | congruence].
    + exists [EvConnect mb]. split; [reflexivity |]. split; [tauto | congruence].
Qed.

Lemma guarded_read_delivery (mb : Mb) (address count : Z) (w : World) :
  let l := get_link mb (w_links w) in
  (forall v w', guarded_read env oracle mb address count w = (Ok (Some v), w') ->
     exists n, (w_step w <= n < w_step w')%nat /\
       fst (oracle mb address count n) = Values v) /\
  (is_connected l = true ->
   forall v, fst (oracle mb address count (w_step w)) = Values v ->
     exists w', guarded_read env oracle mb address count w = (Ok (Some v), w') /\
       last_fail (get_link mb (w_links w')) = last_fail l) /\
  (is_connected l = true ->
   fst (oracle mb address count (w_step w)) = ErrorReply ->
   exists w', guarded_read env oracle mb address count w = (Ok None, w') /\
     w_io w' = w_io w ++ [EvRead mb address count] /\
     last_fail (get_link mb (w_links w')) = last_fail l).
Proof.
  intros l. subst l. split; [| split].
  - intros v w' Hrun.
    destruct (ensure_effects env mb w) as (ok & w1 & Hens & _ & _ & _ & Hstep & _).
    unfold guarded_read in Hrun. unfold bind at 1 in Hrun. rewrite Hens in Hrun.
    destruct ok; cbn [negb] in Hrun; [| discriminate Hrun].
    rewrite attempt_read_run in Hrun.
    exists (w_step w1).
    destruct (fst (oracle mb address count (w_step w1))) as [v0 | |]; try discriminate Hrun.
    injection Hrun as <- <-. simpl. split; [lia | reflexivity].
  - intros Hconn v Hv. unfold guarded_read. unfold bind at 1.
    rewrite ensure_connected by exact Hconn. cbn [negb].
    rewrite attempt_read_run, Hv. eexists. split; [reflexivity |]. simpl.
    rewrite get_put_link. reflexivity.
  - intros Hconn He. unfold guarded_read. unfold bind at 1.
    rewrite ensure_connected by exact Hconn. cbn [negb].
    rewrite attempt_read_run, He. eexists. split; [reflexivity |]. simpl.
    rewrite get_put_link. auto.
Qed.

(** A device that accepts no connection is not read: the call returns
    [None] and the client stays not connected. *)
Lemma guarded_read_down (mb : Mb) (address count : Z) (w : World) :
  unreachable env mb ->
  is_connected (get_link mb (w_links w)) = false ->
  exists w', guarded_read env oracle mb address count w = (Ok None, w') /\
    is_connected (get_link mb (w_links w')) = false /\
    transport_frame w w' /\ other_links_kept mb w w'.
Proof.
  intros Hdown Hconn.
  destruct (ensure_effects env mb w) as (ok & w1 & Hens & Hc1 & Hothers & _ & _).
  destruct (ensure_total env mb w) as (ok' & w1' & Hens' & Hf).
  rewrite Hens in Hens'. injection Hens' as <- <-.
  assert (ok = false) as ->.
  { destruct ok; [| reflexivity]. exfalso.
    destruct (PrimFloat.ltb (PrimFloat.sub (time_time env (w_step w))
                (last_fail (get_link mb (w_links w)))) 1.5%float) eqn:Hc.
    - rewrite ensure_fail_fast in Hens by assumption. discriminate Hens.
    - destruct (ensure_attempt env mb w Hconn Hc) as (ok & w2 & Hrun & _ & _ & _ & Hok & _).
      rewrite Hens in Hrun. injection Hrun as <- <-.
      apply (Hdown (S (w_step w))), Hok. reflexivity. }
  exists w1. unfold guarded_read. unfold bind at 1. rewrite Hens. cbn [negb].
  split; [reflexivity |]. auto.
Qed.

End ReadMore.

(** X4. [_ensure] answers [True] exactly when it leaves a connected client;
    it makes at most one connection attempt, none when the client is
    connected already, and leaves the objects of the other devices alone. *)
Theorem ensure_postcondition (env : Env) (mb : Mb) (w : World) :
  post (_ensure env mb) w (fun ok w' =>
    is_connected (get_link mb (w_links w')) = ok /\
    other_links_kept mb w w' /\
    (w_io w' = w_io w \/ w_io w' = w_io w ++ [EvConnect mb]) /\
    (is_connected (get_link mb (w_links w)) = true -> ok = true /\ w' = w)).
Proof.
  eapply post_weaken; [apply ensure_effects |].
  intros ok w' (H1 & H2 & H3 & _ & H4). auto.
Qed.

(** X5. One call of a read method makes at most one connection attempt and
    at most one request, both to its own device; values are returned only
    after a request; the objects of the other devices are left alone. *)
Theorem shared_modbus_read_footprint :
  read_footprint read_discrete /\
  read_footprint read_input_regs /\
  read_footprint read_holding_regs.
Proof.
  split; [| split]; intros env mb address count w.
  - exact (guarded_read_footprint env (mb_discrete env) mb address count w).
  - exact (guarded_read_footprint env (mb_input env) mb address count w).
  - exact (guarded_read_footprint env (mb_holding env) mb address count w).
Qed.

(** X6. The values a read method returns are those the device delivered to
    this request; on a connected client, delivered values are returned as
    they are, and an error response gives [None] without recording a
    failure time (no cool-down follows). *)
Theorem shared_modbus_read_delivery :
  read_delivery read_discrete mb_discrete /\
  read_delivery read_input_regs mb_input /\
  read_delivery read_holding_regs mb_holding.
Proof.
  split; [| split]; intros env mb address count w.
  - exact (guarded_read_delivery env (mb_discrete env) mb address count w).
  - exact (guarded_read_delivery env (mb_input env) mb address count w).
  - exact (guarded_read_delivery env (mb_holding env) mb address count w).
Qed.

Lemma shared_modbus_read_delivery_witness :
  exists w',
    read_input_regs env_idle MB_AN1 0 2 world_an1_connected = (Ok (Some (regs_20_ABCD ++ regs_20_CDAB ++ regs_20_ABCD ++ regs_20_ABCD)), w') /\
    last_fail (get_link MB_AN1 (w_links w')) = 0%float.
Proof.
  destruct shared_modbus_read_delivery as (_ & Hinput & _).
  destruct (Hinput env_idle MB_AN1 0 2 world_an1_connected) as (_ & Hvalues & _).
  apply Hvalues; reflexivity.
Defined.

(* ===================================================================== *)
(** * Frames of reading code                                             *)
(* ===================================================================== *)

(** ** Rules *)

Section SafeRules.

Context {S : Type}.
Variable R : S -> S -> Prop.
Hypothesis R_refl : forall s, R s s.
Hypothesis R_trans : forall s1 s2 s3, R s1 s2 -> R s2 s3 -> R s1 s3.

Lemma safe_of_total {A : Type} (m : M S A) : total R m -> safe R m.
Proof.
  intros H s. destruct (H s) as (a & s' & -> & HR). split; [discriminate | exact HR].
Qed.

Lemma safe_ret {A : Type} (a : A) : safe R (ret a).
Proof. intros s. split; [discriminate | apply R_refl]. Qed.

Lemma safe_raise {A : Type} (e : exn) : safe R (raise (A := A) e).
Proof. intros s. split; [discriminate | apply R_refl]. Qed.

Lemma safe_lift_res {A : Type} (r : Res A) : r <> OutOfFuel -> safe R (lift_res r).
Proof. intros H s. split; [exact H | apply R_refl]. Qed.

Lemma safe_gets {A : Type} (f : S -> A) : safe R (gets f).
Proof. intros s. split; [discriminate | apply R_refl]. Qed.

Lemma safe_bind {A B : Type} (m : M S A) (k : A -> M S B) :
  safe R m -> (forall a, safe R (k a)) -> safe R (bind m k).
Proof.
  intros Hm Hk s. unfold bind. destruct (Hm s) as (Hf & HR).
  destruct (m s) as [[a | e |] s']; cbn [fst snd] in *.
  - destruct (Hk a s') as (Hf' & HR'). split; [exact Hf' | eauto].
  - split; [discriminate | exact HR].
  - contradiction.
Qed.

Lemma safe_try {A : Type} (m : M S A) (h : exn -> M S A) :
  safe R m -> (forall e, safe R (h e)) -> safe R (try_except m h).
Proof.
  intros Hm Hh s. unfold try_except. destruct (Hm s) as (Hf & HR).
  destruct (m s) as [[a | e |] s']; cbn [fst snd] in *.
  - split; [discriminate | exact HR].
  - destruct (Hh e s') as (Hf' & HR'). split; [exact Hf' | eauto].
  - contradiction.
Qed.

Lemma safe_try_only {A : Type} (E : exn -> bool) (m h : M S A) :
  safe R m -> safe R h -> safe R (try_except_only E m h).
Proof.
  intros Hm Hh s. unfold try_except_only. destruct (Hm s) as (Hf & HR).
  destruct (m s) as [[a | e |] s']; cbn [fst snd] in *.
  - split; [discriminate | exact HR].
  - destruct (E e).
    + destruct (Hh s') as (Hf' & HR'). split; [exact Hf' | eauto].
    + split; [discriminate | exact HR].
  - contradiction.
Qed.

Lemma safe_for_each {A : Type} (xs : list A) (body : A -> M S unit) :
  (forall x, In x xs -> safe R (body x)) -> safe R (for_each xs body).
Proof.
  induction xs as [| x rest IH]; intros H; simpl.
  - apply safe_ret.
  - apply safe_bind; [apply H; left; reflexivity |].
    intros _. apply IH. intros y Hy. apply H. right. exact Hy.
Qed.

(** A handler that returns makes the whole [try] return. *)
Lemma total_try {A : Type} (m : M S A) (h : exn -> M S A) :
  safe R m -> (forall e, total R (h e)) -> total R (try_except m h).
Proof.
  intros Hm Hh s. unfold post, try_except. destruct (Hm s) as (Hf & HR).
  destruct (m s) as [[a | e |] s']; cbn [fst snd] in *.
  - eauto.
  - destruct (Hh e s') as (b & s'' & -> & HR'). eauto.
  - contradiction.
Qed.

Lemma total_ret {A : Type} (a : A) : total R (ret a).
Proof. intros s. apply post_ret, R_refl. Qed.

Lemma total_bind {A B : Type} (m : M S A) (k : A -> M S B) :
  total R m -> (forall a, total R (k a)) -> total R (bind m k).
Proof.
  intros Hm Hk s. apply (post_frame_bind R R_trans); [apply Hm | intros a s'; apply Hk].
Qed.

End SafeRules.

Lemma safe_weaken {S A : Type} (R R' : S -> S -> Prop) (m : M S A) :
  (forall s s', R s s' -> R' s s') -> safe R m -> safe R' m.
Proof. intros H Hm s. destruct (Hm s). auto. Qed.

Lemma total_weaken {S A : Type} (R R' : S -> S -> Prop) (m : M S A) :
  (forall s s', R s s' -> R' s s') -> total R m -> total R' m.
Proof. intros H Hm s. eapply post_weaken; [apply Hm | intros a s'; apply H]. Qed.

Lemma safe_in_world {T A : Type} (R : World -> World -> Prop) (m : M World A) :
  safe R m -> safe (on_world (T := T) R) (in_world m).
Proof.
  intros Hm [t w]. unfold in_world, on_world. cbn [fst snd].
  destruct (Hm w) as (Hf & HR). destruct (m w) as [r w']. auto.
Qed.

Lemma total_in_world {T A : Type} (R : World -> World -> Prop) (m : M World A) :
  total R m -> total (on_world (T := T) R) (in_world m).
Proof.
  intros Hm [t w]. unfold post, in_world, on_world. cbn [fst snd].
  destruct (Hm w) as (a & w' & -> & HR). eauto.
Qed.

Lemma safe_self {T : Type} (R : World -> World -> Prop) :
  (forall w, R w w) -> safe (on_world R) (self (T := T)).
Proof. intros H s. split; [discriminate | apply H]. Qed.

Lemma safe_set_self {T : Type} (R : World -> World -> Prop) (f : T -> T) :
  (forall w, R w w) -> safe (on_world R) (set_self f).
Proof. intros H s. split; [discriminate | apply H]. Qed.

Lemma on_world_trans {T : Type} (R : World -> World -> Prop) :
  (forall w1 w2 w3, R w1 w2 -> R w2 w3 -> R w1 w3) ->
  forall s1 s2 s3 : T * World, on_world R s1 s2 -> on_world R s2 s3 -> on_world R s1 s3.
Proof. unfold on_world. eauto. Qed.

(** ** The frame of reading code *)

Lemma reads_only_refl (env : Env) (w : World) : reads_only env w w.
Proof.
  unfold reads_only. do 4 (split; [auto |]). split; [| auto].
  exists []. rewrite app_nil_r. split; [reflexivity | constructor].
Qed.

Lemma reads_only_trans (env : Env) (w1 w2 w3 : World) :
  reads_only env w1 w2 -> reads_only env w2 w3 -> reads_only env w1 w3.
Proof.
  intros (A1 & A2 & A3 & A4 & (evs & A5 & A6) & A7 & A8)
         (B1 & B2 & B3 & B4 & (evs' & B5 & B6) & B7 & B8).
  unfold reads_only. do 4 (split; [first [congruence | lia] |]). split; [| split].
  - exists (evs ++ evs'). rewrite B5, A5, app_assoc. split; [reflexivity |].
    apply Forall_app. auto.
  - auto.
  - intros Hd. rewrite B8, A8; auto.
Qed.

Lemma reads_only_moves_on (env : Env) (w w' : World) : reads_only env w w' -> moves_on w w'.
Proof. intros (_ & _ & _ & H & _). exact H. Qed.

Lemma moves_on_refl (w : World) : moves_on w w.
Proof. unfold moves_on. lia. Qed.

Lemma moves_on_trans (w1 w2 w3 : World) : moves_on w1 w2 -> moves_on w2 w3 -> moves_on w1 w3.
Proof. unfold moves_on. lia. Qed.

Lemma reads_only_step (env : Env) (w : World) (n : nat) :
  (w_step w <= n)%nat -> reads_only env w (set_step n w).
Proof.
  intros H. unfold reads_only. simpl. do 4 (split; [auto |]). split; [| auto].
  exists []. rewrite app_nil_r. split; [reflexivity | constructor].
Qed.

Lemma on_world_refl {T : Type} (R : World -> World -> Prop) :
  (forall w, R w w) -> forall s : T * World, on_world R s s.
Proof. unfold on_world. auto. Qed.

(** Reflexivity and transitivity of the frames, as the rules ask for them. *)
Ltac frame_rel :=
  solve [ exact (reads_only_refl _) | exact (reads_only_trans _)
        | exact moves_on_refl | exact moves_on_trans
        | apply on_world_refl; frame_rel | apply on_world_trans; frame_rel ].

Section ReadingCode.

Variable env : Env.

Lemma now_reads : total (reads_only env) (now env).
Proof. intros w. apply post_now, reads_only_step. lia. Qed.

Lemma is_set_reads : total (reads_only env) (is_set env).
Proof. intros w. eexists _, _. split; [reflexivity |]. apply reads_only_step. simpl. lia. Qed.

Lemma guarded_read_reads {A : Type} (oracle : Mb -> Z -> Z -> nat -> reply A * bool)
    (mb : Mb) (address count : Z) :
  total (reads_only env) (guarded_read env oracle mb address count).
Proof.
  intros w.
  destruct (guarded_read_contract env oracle mb address count w) as (Hframe & _).
  destruct Hframe as (r & w' & Hrun & Hca & Hq & Hth & Hco & Hstep).
  destruct (guarded_read_footprint env oracle mb address count w)
    as (r' & w'' & Hrun' & Hothers & evs & Hio & Hcase & _).
  rewrite Hrun in Hrun'. injection Hrun' as <- <-.
  exists r, w'. split; [exact Hrun |].
  unfold reads_only. do 4 (split; [auto |]). split; [| split; [| auto]].
  - exists evs. split; [exact Hio |].
    destruct Hcase as [-> | [-> | [-> | ->]]]; repeat constructor.
  - intros mb0 (Hun & Hconn). split; [exact Hun |].
    destruct (decide (mb0 = mb)) as [-> | Hne].
    + destruct (guarded_read_down env oracle mb address count w Hun Hconn)
        as (w1 & Hrun1 & Hc1 & _).
      rewrite Hrun in Hrun1. injection Hrun1 as _ <-. exact Hc1.
    + rewrite (Hothers mb0 Hne). exact Hconn.
Qed.

Lemma read_discrete_reads (mb : Mb) (address count : Z) :
  total (reads_only env) (read_discrete env mb address count).
Proof. exact (guarded_read_reads (mb_discrete env) mb address count). Qed.

Lemma read_input_regs_reads (mb : Mb) (address count : Z) :
  total (reads_only env) (read_input_regs env mb address count).
Proof. exact (guarded_read_reads (mb_input env) mb address count). Qed.

Lemma read_holding_regs_reads (mb : Mb) (address count : Z) :
  total (reads_only env) (read_holding_regs env mb address count).
Proof. exact (guarded_read_reads (mb_holding env) mb address count). Qed.

Lemma get_float_holding_reads (reg : Z) (order : string) :
  total (reads_only env) (get_float_holding env reg order).
Proof.
  intros w. pose proof (get_float_holding_run env reg order w) as Hrun. simpl in Hrun.
  assert (H0 : reads_only env w (set_step (S (w_step w)) w)) by (apply reads_only_step; lia).
  destruct (fresh_entry (w_cache w) (reg, order) (time_time env (w_step w))).
  - eexists _, _. split; [exact Hrun | exact H0].
  - destruct (read_holding_regs_reads MB_RANGE reg 2 (set_step (S (w_step w)) w))
      as (regs & w1 & Hread & Hf).
    rewrite Hread in Hrun.
    pose proof (reads_only_trans env _ _ _ H0 Hf) as Hf'.
    destruct regs as [[| r0 [| r1 rest]] |];
      (eexists _, _; split; [exact Hrun |]); try exact Hf'.
    destruct Hf' as (F1 & F2 & F3 & F4 & F5 & F6 & F7).
    unfold reads_only. cbn [w_queue w_threads w_committed w_step w_io w_links w_cache set_cache].
    do 4 (split; [auto |]). split; [exact F5 |]. split; [exact F6 |].
    intros (Hun & Hconn). exfalso.
    destruct (guarded_read_down env (mb_holding env) MB_RANGE reg 2 (set_step (S (w_step w)) w)
                Hun Hconn) as (w2 & Hrun2 & _).
    change (guarded_read env (mb_holding env) MB_RANGE reg 2) with
      (read_holding_regs env MB_RANGE reg 2) in Hrun2.
    rewrite Hread in Hrun2. discriminate Hrun2.
Qed.

Lemma py_getitem_safe {A : Type} (l : list A) (i : Z) : py_getitem l i <> OutOfFuel.
Proof.
  unfold py_getitem.
  destruct (((if i <? 0 then i + Z.of_nat (length l) else i) <? 0) ||
            (Z.of_nat (length l) <=? (if i <? 0 then i + Z.of_nat (length l) else i)));
    [discriminate |].
  destruct (nth_error l _); discriminate.
Qed.

Lemma read_bit_status_reads (di_addr : Z) : safe (reads_only env) (read_bit_status env di_addr).
Proof.
  unfold read_bit_status.
  apply safe_bind; try frame_rel.
  - apply safe_of_total, read_discrete_reads.
  - intros [bits |]; [| apply safe_ret; try frame_rel].
    apply safe_bind; try frame_rel.
    + apply safe_lift_res; [try frame_rel | apply py_getitem_safe].
    + intros b. apply safe_ret; try frame_rel.
Qed.

Lemma read_block_input_reads (mb : Mb) (reg_map : list (Z * string)) :
  safe (reads_only env) (read_block_input env mb reg_map).
Proof.
  unfold read_block_input.
  apply safe_bind; try frame_rel.
  - apply safe_lift_res; [try frame_rel |].
    destruct (map fst reg_map); discriminate.
  - intros m. apply safe_bind; try frame_rel.
    + apply safe_of_total, read_input_regs_reads.
    + intros [[| r rest] |]; apply safe_ret; try frame_rel.
Qed.

Lemma active_modes_reads (bits : list (Z * string)) : safe (reads_only env) (active_modes env bits).
Proof.
  induction bits as [| [addr mode] rest IH]; simpl.
  - apply safe_ret; try frame_rel.
  - apply safe_bind; try frame_rel; [apply read_bit_status_reads |].
    intros b. apply safe_bind; try frame_rel; [exact IH |].
    intros active. apply safe_ret; try frame_rel.
Qed.

Lemma is_calibration_reads : safe (reads_only env) (_is_calibration env).
Proof.
  unfold _is_calibration. apply safe_bind; try frame_rel; [apply active_modes_reads |].
  intros [| mode rest]; apply safe_ret; try frame_rel.
Qed.

Lemma first_level_reads (bits : list (string * Z)) : safe (reads_only env) (first_level env bits).
Proof.
  induction bits as [| [nm addr] rest IH]; simpl.
  - apply safe_ret; try frame_rel.
  - apply safe_bind; try frame_rel; [apply read_bit_status_reads |].
    intros [[|] |]; try exact IH. apply safe_ret; try frame_rel.
Qed.

Lemma invalid_from_reads (mins : gmap Z MinCfg) (values : list (option float)) (idx : Z) :
  safe (reads_only env) (invalid_from env mins idx values).
Proof.
  revert idx. induction values as [| v rest IH]; intros idx; simpl.
  - apply safe_ret; try frame_rel.
  - destruct (mins !! idx) as [cfg |]; [| apply IH].
    apply safe_bind; try frame_rel.
    + apply safe_of_total, get_float_holding_reads.
    + intros [mn |]; [| apply IH].
      destruct v as [x |]; [| apply safe_raise; try frame_rel].
      destruct (PrimFloat.ltb x mn); [apply safe_ret; try frame_rel | apply IH].
Qed.

Lemma read_input_float_reads (mb : Mb) (address : Z) (order : string) :
  total (reads_only env) (read_input_float env mb address order).
Proof.
  unfold read_input_float. apply total_bind; try frame_rel.
  - apply read_input_regs_reads.
  - intros [[| r0 [| r1 rest]] |]; apply total_ret; try frame_rel.
Qed.

Lemma read_reference_reads (reg : option Z) : total (reads_only env) (read_reference env reg).
Proof.
  unfold read_reference. destruct reg as [r |]; [| apply total_ret; try frame_rel].
  destruct (r =? 0); [apply total_ret; try frame_rel |].
  apply get_float_holding_reads.
Qed.

Lemma read_expected_min_max_reads (range_map : gmap string RangeEntry) (tag : string) :
  safe (reads_only env) (read_expected_min_max env range_map tag).
Proof.
  unfold read_expected_min_max.
  apply safe_bind; try frame_rel.
  - apply safe_lift_res; [try frame_rel |].
    unfold range_entry. destruct (range_map !! tag); discriminate.
  - intros e. apply safe_of_total.
    repeat (apply total_bind; try frame_rel; [apply read_reference_reads | intros ?]).
    apply total_ret; try frame_rel.
Qed.

Lemma read_measured_reads (mb : Mb) (range_map : gmap string RangeEntry) (tag : string) :
  safe (reads_only env) (read_measured env mb range_map tag).
Proof.
  unfold read_measured.
  apply safe_bind; try frame_rel.
  - apply safe_lift_res; [try frame_rel |].
    unfold range_entry. destruct (range_map !! tag); discriminate.
  - intros e. apply safe_bind; try frame_rel.
    + apply safe_of_total, read_input_regs_reads.
    + intros [[| r0 [| r1 rest]] |]; apply safe_ret; try frame_rel.
Qed.

Lemma score_safe (val expected min_r max_r : float) (factor : Z) :
  score val expected min_r max_r factor <> OutOfFuel.
Proof.
  destruct (score_ok val expected min_r max_r factor) as (err & acc & st & -> & _).
  discriminate.
Qed.

Lemma evaluate_reads (tag : string) (val : float) (cal_name : string)
    (range_map : gmap string RangeEntry) :
  safe (reads_only env) (evaluate env tag val cal_name range_map).
Proof.
  unfold evaluate.
  apply safe_bind; try frame_rel.
  - apply safe_lift_res; [try frame_rel |].
    unfold range_entry. destruct (range_map !! tag); discriminate.
  - intros e. destruct (String.eqb cal_name "N2O ZERO").
    + apply safe_lift_res; [try frame_rel | apply score_safe].
    + apply safe_bind; try frame_rel; [apply read_expected_min_max_reads |].
      intros [[[expected |] [min_r |]] [max_r |]];
        try (apply safe_ret; try frame_rel).
      apply safe_lift_res; [try frame_rel | apply score_safe].
Qed.


End ReadingCode.

(* ===================================================================== *)
(** * RangeCache: repeated lookups                                       *)
(* ===================================================================== *)

(** The entry a returned value sits in, after the lookup. *)
Lemma get_float_holding_entry (env : Env) (reg : Z) (order : string) (w w' : World) (v : float) :
  get_float_holding env reg order w = (Ok (Some v), w') ->
  exists ts, cache (w_cache w') !! (reg, order) = Some (ts, v).
Proof.
  intros H. pose proof (get_float_holding_run env reg order w) as Hrun. simpl in Hrun.
  rewrite H in Hrun.
  destruct (fresh_entry (w_cache w) (reg, order) (time_time env (w_step w))) as [v0 |] eqn:Hfresh.
  - injection Hrun as -> ->. apply fresh_entry_hit in Hfresh.
    destruct Hfresh as (ts & Hentry & _). exists ts. exact Hentry.
  - destruct (read_holding_regs env MB_RANGE reg 2 (set_step (S (w_step w)) w))
      as [[[[| r0 [| r1 rest]] |] | e |] w1]; try discriminate Hrun.
    injection Hrun as -> ->. eexists. simpl. apply lookup_insert_eq.
Qed.

(** X7. A value the range cache has returned is served again, without a
    device call, as long as its entry is fresh: a second lookup of the
    same register and order, made while the age of the entry is within
    the time to live, returns the same value and touches nothing but the
    clock. *)
Theorem range_cache_repeat (env : Env) (reg : Z) (order : string) (w w' : World) (v : float) :
  get_float_holding env reg order w = (Ok (Some v), w') ->
  exists ts, cache (w_cache w') !! (reg, order) = Some (ts, v) /\
    (PrimFloat.leb (PrimFloat.sub (time_time env (w_step w')) ts) (ttl (w_cache w')) = true ->
     get_float_holding env reg order w' = (Ok (Some v), set_step (S (w_step w')) w')).
Proof.
  intros H. destruct (get_float_holding_entry env reg order w w' v H) as (ts & Hentry).
  exists ts. split; [exact Hentry |]. intros Hage.
  pose proof (get_float_holding_run env reg order w') as Hrun. simpl in Hrun.
  unfold fresh_entry in Hrun. rewrite Hentry, Hage in Hrun. exact Hrun.
Qed.

(** In the idle environment the first lookup of register 110 reads 20.0
    from the device; the entry carries the time of that lookup. *)
Lemma range_cache_repeat_witness :
  exists w' ts,
    get_float_holding env_idle 110 "CDAB" initial_world = (Ok (Some 20%float), w') /\
    cache (w_cache w') !! (110, "CDAB") = Some (ts, 20%float).
Proof.
  destruct (get_float_holding env_idle 110 "CDAB" initial_world) as [r w'] eqn:Hrun.
  assert (Hr : r = Ok (Some 20%float)).
  { change r with (fst (r, w')). rewrite <- Hrun. vm_compute. reflexivity. }
  subst r.
  destruct (range_cache_repeat env_idle 110 "CDAB" initial_world w' 20%float Hrun)
    as (ts & Hentry & _).
  exists w', ts. split; [reflexivity | exact Hentry].
Defined.

(** X8. A lookup touches the cache at its own key only.  Whatever it
    returns, the time to live and the entries of all other keys are as
    before; and unless it returns a value, the whole cache is as before:
    a failed read neither removes nor refreshes a stale entry. *)
Theorem range_cache_own_key (env : Env) (reg : Z) (order : string) (w : World) :
  let r := fst (get_float_holding env reg order w) in
  let w' := snd (get_float_holding env reg order w) in
  ttl (w_cache w') = ttl (w_cache w) /\
  (forall key, key <> (reg, order) -> cache (w_cache w') !! key = cache (w_cache w) !! key) /\
  ((forall v, r <> Ok (Some v)) -> w_cache w' = w_cache w).
Proof.
  intros r w'. subst r w'.
  pose proof (get_float_holding_run env reg order w) as Hrun. simpl in Hrun. rewrite Hrun.
  destruct (fresh_entry (w_cache w) (reg, order) (time_time env (w_step w))) as [v0 |].
  - cbn [fst snd]. auto.
  - destruct (read_holding_regs_frame env MB_RANGE reg 2 (set_step (S (w_step w)) w))
      as (regs & w1 & Hread & Hc & _). simpl in Hc. rewrite Hread.
    destruct regs as [[| r0 [| r1 rest]] |]; cbn [fst snd]; try (rewrite Hc; auto; fail).
    cbn [w_cache set_cache ttl cache]. rewrite Hc.
    split; [reflexivity |]. split.
    + intros key Hkey. apply lookup_insert_ne. congruence.
    + intros Hnone. exfalso. exact (Hnone _ eq_refl).
Qed.

(* ===================================================================== *)
(** * Reading helpers: properties                                        *)
(* ===================================================================== *)

Lemma fold_max_spec (xs : list Z) (x : Z) :
  (fold_left Z.max xs x = x \/ In (fold_left Z.max xs x) xs) /\
  x <= fold_left Z.max xs x /\
  forall a, In a xs -> a <= fold_left Z.max xs x.
Proof.
  revert x. induction xs as [| y rest IH]; intros x; simpl.
  - split; [left; reflexivity |]. split; [lia | intros a []].
  - destruct (IH (Z.max x y)) as (Hin & Hle & Hall).
    split; [| split].
    + destruct Hin as [Heq | Hin]; [| right; right; exact Hin].
      rewrite Heq. destruct (Z.max_spec x y) as [(_ & ->) | (_ & ->)]; auto.
    + lia.
    + intros a [<- | Ha]; [lia | apply Hall; exact Ha].
Qed.

Lemma py_max_spec (l : list Z) :
  l <> [] -> exists m, py_max l = Ok m /\ In m l /\ forall a, In a l -> a <= m.
Proof.
  destruct l as [| x xs]; [contradiction |]. intros _.
  destruct (fold_max_spec xs x) as (Hin & Hle & Hall).
  exists (fold_left Z.max xs x). split; [reflexivity |]. split.
  - destruct Hin as [-> | Hin]; [left; reflexivity | right; exact Hin].
  - intros a [<- | Ha]; [exact Hle | apply Hall; exact Ha].
Qed.

Lemma py_getitem_nonneg {A : Type} (l : list A) (i : Z) :
  0 <= i ->
  py_getitem l i = match nth_error l (Z.to_nat i) with Some x => Ok x | None => Raise IndexError end.
Proof.
  intros Hi. unfold py_getitem.
  destruct (Z.ltb_spec i 0) as [Hneg | _]; [lia |].
  destruct (Z.ltb_spec i 0) as [Hneg | _]; [lia |]. cbn [orb].
  destruct (Z.leb_spec (Z.of_nat (length l)) i) as [Hlen | Hlen]; [| reflexivity].
  destruct (nth_error l (Z.to_nat i)) eqn:Hn; [| reflexivity].
  assert (Z.to_nat i < length l)%nat by (apply nth_error_Some; congruence). lia.
Qed.

Lemma decode_at_block (regs : list word16) (addr : Z) (fmt : string) :
  0 <= addr -> decode_at regs addr fmt = block_value regs (addr, fmt).
Proof.
  intros Ha. unfold decode_at, block_value, block_pair. cbn [fst snd].
  rewrite !py_getitem_nonneg by lia.
  replace (Z.to_nat (addr + 1)) with (S (Z.to_nat addr)) by lia.
  destruct (nth_error regs (Z.to_nat addr)); [| reflexivity].
  destruct (nth_error regs (S (Z.to_nat addr))); reflexivity.
Qed.

Lemma read_block_input_run (env : Env) (mb : Mb) (reg_map : list (Z * string)) (m : Z) (w : World) :
  py_max (map fst reg_map) = Ok m ->
  read_block_input env mb reg_map w =
    match read_input_regs env mb 0 (m + 2) w with
    | (Ok (Some (r :: rest)), w') =>
        (Ok (Some (map (fun '(addr, fmt) => decode_at (r :: rest) addr fmt) reg_map)), w')
    | (Ok _, w') => (Ok None, w')
    | (Raise e, w') => (Raise e, w')
    | (OutOfFuel, w') => (OutOfFuel, w')
    end.
Proof.
  intros Hm. unfold read_block_input. unfold bind at 1. unfold lift_res. rewrite Hm.
  unfold bind. destruct (read_input_regs env mb 0 (m + 2) w) as [[[[| r rest] |] | e |] w'];
    reflexivity.
Qed.

(** X9. [read_block_input] asks for one block, from address 0 up to two
    registers past the largest address of the map; without an answer (or
    with an empty one) it returns [None]; otherwise it returns one float
    per entry of the map, decoded from the entry's two registers, and 0.0
    for an entry the block is too short for.  With an empty map it raises
    [ValueError] before any read. *)
Theorem read_block_input_block (env : Env) (mb : Mb) (reg_map : list (Z * string)) (w : World) :
  (reg_map = [] -> read_block_input env mb reg_map w = (Raise ValueError, w)) /\
  (reg_map <> [] ->
   exists m regs w',
     In m (map fst reg_map) /\ (forall a, In a (map fst reg_map) -> a <= m) /\
     read_input_regs env mb 0 (m + 2) w = (Ok regs, w') /\
     match regs with
     | None | Some [] => read_block_input env mb reg_map w = (Ok None, w')
     | Some rs =>
         exists vals,
           read_block_input env mb reg_map w = (Ok (Some vals), w') /\
           Forall2 (fun entry v => 0 <= fst entry -> v = block_value rs entry) reg_map vals
     end).
Proof.
  split.
  - intros ->. reflexivity.
  - intros Hne.
    destruct (py_max_spec (map fst reg_map)) as (m & Hm & Hin & Hmax).
    { destruct reg_map; [contradiction | discriminate]. }
    destruct (read_input_regs_reads env mb 0 (m + 2) w) as (regs & w' & Hread & _).
    exists m, regs, w'. split; [exact Hin |]. split; [exact Hmax |]. split; [exact Hread |].
    rewrite (read_block_input_run env mb reg_map m w Hm), Hread.
    destruct regs as [[| r rest] |]; try reflexivity.
    eexists. split; [reflexivity |].
    clear. induction reg_map as [| [addr fmt] tl IH]; simpl; constructor; [| exact IH].
    cbn [fst]. intros Ha. apply decode_at_block. exact Ha.
Qed.

(** The three channels of analyzer 1, every register pair holding 20.0;
    and a map without entries. *)
Lemma read_block_input_block_witness :
  (exists w', read_block_input env_idle MB_AN1 AN1_LIVE_REGS initial_world =
     (Ok (Some [20%float; 20%float; 20%float]), w')) /\
  read_block_input env_idle MB_AN1 [] initial_world = (Raise ValueError, initial_world).
Proof.
  destruct (read_block_input_block env_idle MB_AN1 AN1_LIVE_REGS initial_world) as (_ & H).
  destruct (read_block_input_block env_idle MB_AN1 [] initial_world) as (Hempty & _).
  split; [| apply Hempty; reflexivity].
  destruct H as (m & regs & w' & _ & _ & Hread & Hcase); [discriminate |].
  exists w'. vm_compute in Hread. injection Hread as <- _.
  destruct Hcase as (vals & Hrun & Hvals). rewrite Hrun. do 3 f_equal.
  inversion Hvals as [| e1 v1 l1 vs1 H1 Hvals1]; subst.
  inversion Hvals1 as [| e2 v2 l2 vs2 H2 Hvals2]; subst.
  inversion Hvals2 as [| e3 v3 l3 vs3 H3 Hvals3]; subst.
  inversion Hvals3; subst.
  rewrite H1, H2, H3 by (simpl; lia). vm_compute. reflexivity.
Defined.

(** X10. [read_flow] never raises: it asks the flow device for the three
    registers 0..2 and returns the float held by registers 1 and 2, or 0.0
    when the device gives no answer or fewer than three registers; the
    plant is then reported stopped.  The plant is reported running exactly
    when the flow is at least 100.0. *)
Theorem read_flow_fallback (env : Env) (w : World) :
  exists regs w' flow,
    read_input_regs env MB_FLOW 0 3 w = (Ok regs, w') /\
    read_flow env w = (Ok flow, w') /\
    flow = match regs with
           | Some (_ :: r1 :: r2 :: _) => decode_float r1 r2 "ABCD"
           | _ => 0%float
           end /\
    (match regs with Some (_ :: _ :: _ :: _) => True | _ => plant_status (Some flow) = "PLANT STOP" end) /\
    (plant_status (Some flow) = "PLANT RUNNING" <-> PrimFloat.leb 100%float flow = true) /\
    (plant_status (Some flow) = "PLANT STOP" <-> PrimFloat.leb 100%float flow = false).
Proof.
  destruct (read_input_regs_reads env MB_FLOW 0 3 w) as (regs & w' & Hread & _).
  pose proof (read_block_input_run env MB_FLOW FLOW_REGS 1 w eq_refl) as Hblock.
  change (1 + 2) with 3 in Hblock. rewrite Hread in Hblock.
  assert (Hplant : forall flow,
            (plant_status (Some flow) = "PLANT RUNNING" <-> PrimFloat.leb 100%float flow = true) /\
            (plant_status (Some flow) = "PLANT STOP" <-> PrimFloat.leb 100%float flow = false)).
  { intros flow. unfold plant_status, FLOW_STOP_THRESHOLD.
    destruct (PrimFloat.leb 100 flow); split; split; intros H; try reflexivity; discriminate. }
  exists regs, w'. unfold read_flow, bind. rewrite Hblock.
  destruct regs as [[| r0 [| r1 [| r2 rest]]] |]; eexists;
    (split; [exact Hread |]); (split; [reflexivity |]);
    (split; [| split; [| apply Hplant]]); try reflexivity; try exact I.
  simpl. rewrite decode_at_block by lia. reflexivity.
Qed.

Lemma read_bit_status_run (env : Env) (di_addr : Z) (w : World) :
  read_bit_status env di_addr w =
    match read_discrete env MB_STATUS di_addr 1 w with
    | (Ok None, w') => (Ok None, w')
    | (Ok (Some []), w') => (Raise IndexError, w')
    | (Ok (Some (b :: _)), w') => (Ok (Some b), w')
    | (Raise e, w') => (Raise e, w')
    | (OutOfFuel, w') => (OutOfFuel, w')
    end.
Proof.
  unfold read_bit_status, bind.
  destruct (read_discrete env MB_STATUS di_addr 1 w) as [[[[| b rest] |] | e |] w']; reflexivity.
Qed.

(** X11. [read_bit_status] asks the status device for one bit at the given
    address and returns it, or [None] when the read fails; it touches
    nothing but that device's object and the clock.  Its only exception is
    the [IndexError] of an answer without bits. *)
Theorem read_bit_status_cases (env : Env) (di_addr : Z) (w : World) :
  exists bits w',
    read_discrete env MB_STATUS di_addr 1 w = (Ok bits, w') /\
    read_bit_status env di_addr w =
      (match bits with
       | None => Ok None
       | Some [] => Raise IndexError
       | Some (b :: _) => Ok (Some b)
       end, w') /\
    reads_only env w w' /\ other_links_kept MB_STATUS w w' /\ w_cache w' = w_cache w.
Proof.
  destruct (read_discrete_reads env MB_STATUS di_addr 1 w) as (bits & w' & Hread & Hf).
  destruct (guarded_read_footprint env (mb_discrete env) MB_STATUS di_addr 1 w)
    as (bits' & w'' & Hread' & Hothers & _).
  destruct (read_discrete_frame env MB_STATUS di_addr 1 w) as (b3 & w3 & Hread3 & Hc & _).
  change (guarded_read env (mb_discrete env) MB_STATUS di_addr 1) with
    (read_discrete env MB_STATUS di_addr 1) in Hread'.
  rewrite Hread in Hread', Hread3. injection Hread' as <- <-. injection Hread3 as <- <-.
  exists bits, w'. split; [exact Hread |].
  rewrite read_bit_status_run, Hread.
  split; [destruct bits as [[| b rest] |]; reflexivity | auto].
Qed.

Lemma read_input_float_run (env : Env) (mb : Mb) (address : Z) (order : string) (w : World) :
  read_input_float env mb address order w =
    match read_input_regs env mb address 2 w with
    | (Ok (Some (r0 :: r1 :: _)), w') => (Ok (Some (decode_float r0 r1 order)), w')
    | (Ok _, w') => (Ok None, w')
    | (Raise e, w') => (Raise e, w')
    | (OutOfFuel, w') => (OutOfFuel, w')
    end.
Proof.
  unfold read_input_float, bind.
  destruct (read_input_regs env mb address 2 w) as [[[[| r0 [| r1 rest]] |] | e |] w'];
    reflexivity.
Qed.

Lemma read_measured_run (env : Env) (mb : Mb) (range_map : gmap string RangeEntry)
    (tag : string) (w : World) :
  read_measured env mb range_map tag w =
    match range_map !! tag with
    | Some e => read_input_float env mb (in_reg e) (in_order e) w
    | None => (Raise KeyError, w)
    end.
Proof.
  unfold read_measured, read_input_float, lift_res, range_entry. unfold bind at 1.
  destruct (range_map !! tag); reflexivity.
Qed.

(** X12. A measurement is a float only when the analyzer delivered at least
    two registers to the request made for it: [read_input_float] and
    [read_measured] return the float decoded from the first two registers
    delivered to a request of two registers at the address (for
    [read_measured], the address and byte order of the tag's entry), and
    [None] in every other case; [read_input_float] never raises and
    [read_measured] raises only [KeyError], for a tag the map lacks. *)
Theorem measured_value_source (env : Env) (mb : Mb) (w : World) :
  (forall address order,
     exists r w', read_input_float env mb address order w = (Ok r, w') /\
       forall x, r = Some x ->
         exists n r0 r1 rest, (w_step w <= n < w_step w')%nat /\
           fst (mb_input env mb address 2 n) = Values (r0 :: r1 :: rest) /\
           x = decode_float r0 r1 order) /\
  (forall range_map tag,
     match range_map !! tag with
     | None => read_measured env mb range_map tag w = (Raise KeyError, w)
     | Some e =>
         exists r w', read_measured env mb range_map tag w = (Ok r, w') /\
           forall x, r = Some x ->
             exists n r0 r1 rest, (w_step w <= n < w_step w')%nat /\
               fst (mb_input env mb (in_reg e) 2 n) = Values (r0 :: r1 :: rest) /\
               x = decode_float r0 r1 (in_order e)
     end).
Proof.
  assert (Hfloat : forall address order,
     exists r w', read_input_float env mb address order w = (Ok r, w') /\
       forall x, r = Some x ->
         exists n r0 r1 rest, (w_step w <= n < w_step w')%nat /\
           fst (mb_input env mb address 2 n) = Values (r0 :: r1 :: rest) /\
           x = decode_float r0 r1 order).
  { intros address order.
    destruct (read_input_regs_reads env mb address 2 w) as (regs & w' & Hread & _).
    destruct (guarded_read_delivery env (mb_input env) mb address 2 w) as (Hsrc & _).
    change (guarded_read env (mb_input env) mb address 2) with
      (read_input_regs env mb address 2) in Hsrc.
    rewrite read_input_float_run, Hread.
    destruct regs as [[| r0 [| r1 rest]] |]; eexists _, _; (split; [reflexivity |]);
      intros x Hx; try discriminate Hx.
    injection Hx as <-.
    destruct (Hsrc _ _ Hread) as (n & Hn & Hv). exists n, r0, r1, rest. auto. }
  split; [exact Hfloat |].
  intros range_map tag. rewrite read_measured_run.
  destruct (range_map !! tag) as [e |]; [apply Hfloat | reflexivity].
Qed.

(** ** A device that is down *)

Lemma guarded_read_of_down {A : Type} (env : Env)
    (oracle : Mb -> Z -> Z -> nat -> reply A * bool) (mb : Mb) (address count : Z) (w : World) :
  down env mb w ->
  exists w', guarded_read env oracle mb address count w = (Ok None, w') /\ reads_only env w w'.
Proof.
  intros (Hun & Hconn).
  destruct (guarded_read_down env oracle mb address count w Hun Hconn) as (w' & Hrun & _).
  destruct (guarded_read_reads env oracle mb address count w) as (r & w1 & Hrun1 & Hf).
  rewrite Hrun in Hrun1. injection Hrun1 as <- <-. eauto.
Qed.

Lemma read_bit_status_down (env : Env) (di_addr : Z) (w : World) :
  down env MB_STATUS w ->
  exists w', read_bit_status env di_addr w = (Ok None, w') /\ reads_only env w w'.
Proof.
  intros Hd. destruct (guarded_read_of_down env (mb_discrete env) MB_STATUS di_addr 1 w Hd)
    as (w' & Hrun & Hf).
  exists w'. rewrite read_bit_status_run.
  change (read_discrete env MB_STATUS di_addr 1 w) with
    (guarded_read env (mb_discrete env) MB_STATUS di_addr 1 w).
  rewrite Hrun. auto.
Qed.

Lemma read_input_float_down (env : Env) (mb : Mb) (address : Z) (order : string) (w : World) :
  down env mb w ->
  exists w', read_input_float env mb address order w = (Ok None, w') /\ reads_only env w w'.
Proof.
  intros Hd. destruct (guarded_read_of_down env (mb_input env) mb address 2 w Hd)
    as (w' & Hrun & Hf).
  exists w'. rewrite read_input_float_run.
  change (read_input_regs env mb address 2 w) with
    (guarded_read env (mb_input env) mb address 2 w).
  rewrite Hrun. auto.
Qed.

Lemma read_block_input_down (env : Env) (mb : Mb) (reg_map : list (Z * string)) (w : World) :
  down env mb w -> reg_map <> [] ->
  exists w', read_block_input env mb reg_map w = (Ok None, w') /\ reads_only env w w'.
Proof.
  intros Hd Hne.
  destruct (py_max_spec (map fst reg_map)) as (m & Hm & _).
  { destruct reg_map; [contradiction | discriminate]. }
  destruct (guarded_read_of_down env (mb_input env) mb 0 (m + 2) w Hd) as (w' & Hrun & Hf).
  exists w'. rewrite (read_block_input_run env mb reg_map m w Hm).
  change (read_input_regs env mb 0 (m + 2) w) with
    (guarded_read env (mb_input env) mb 0 (m + 2) w).
  rewrite Hrun. auto.
Qed.

Lemma get_float_holding_down (env : Env) (reg : Z) (order : string) (w : World) :
  down env MB_RANGE w -> cache (w_cache w) = ∅ ->
  exists w', get_float_holding env reg order w = (Ok None, w') /\ reads_only env w w'.
Proof.
  intros Hd Hempty.
  destruct (get_float_holding_reads env reg order w) as (r & w' & Hrun & Hf).
  exists w'. split; [| exact Hf]. rewrite Hrun. do 2 f_equal.
  pose proof (get_float_holding_run env reg order w) as Hrun'. simpl in Hrun'.
  unfold fresh_entry in Hrun'. rewrite Hempty, lookup_empty in Hrun'.
  destruct (guarded_read_of_down env (mb_holding env) MB_RANGE reg 2 (set_step (S (w_step w)) w))
    as (w1 & Hread & _); [exact Hd |].
  change (guarded_read env (mb_holding env) MB_RANGE reg 2) with
    (read_holding_regs env MB_RANGE reg 2) in Hread.
  rewrite Hread, Hrun in Hrun'. congruence.
Qed.

(* ===================================================================== *)
(** * Historian: one pass and its parts                                  *)
(* ===================================================================== *)

(** ** The two mode indicators *)

Lemma active_modes_down (env : Env) (bits : list (Z * string)) (w : World) :
  down env MB_STATUS w ->
  exists w', active_modes env bits w = (Ok [], w') /\ reads_only env w w'.
Proof.
  revert w. induction bits as [| [addr mode] rest IH]; intros w Hd; simpl.
  - exists w. split; [reflexivity | apply reads_only_refl].
  - destruct (read_bit_status_down env addr w Hd) as (w1 & Hrun & Hf).
    destruct (IH w1) as (w2 & Hrun2 & Hf2); [apply Hf; exact Hd |].
    exists w2. unfold bind. rewrite Hrun, Hrun2.
    split; [reflexivity | eapply reads_only_trans; eassumption].
Qed.

Lemma first_level_down (env : Env) (bits : list (string * Z)) (w : World) :
  down env MB_STATUS w ->
  exists w', first_level env bits w = (Ok "LEVEL IDLE", w') /\ reads_only env w w'.
Proof.
  revert w. induction bits as [| [nm addr] rest IH]; intros w Hd; simpl.
  - exists w. split; [reflexivity | apply reads_only_refl].
  - destruct (read_bit_status_down env addr w Hd) as (w1 & Hrun & Hf).
    destruct (IH w1) as (w2 & Hrun2 & Hf2); [apply Hf; exact Hd |].
    exists w2. unfold bind. rewrite Hrun, Hrun2.
    split; [reflexivity | eapply reads_only_trans; eassumption].
Qed.

Lemma first_level_names (env : Env) (bits : list (string * Z)) (w w' : World) (nm : string) :
  first_level env bits w = (Ok nm, w') -> nm = "LEVEL IDLE" \/ In nm (map fst bits).
Proof.
  revert w. induction bits as [| [name addr] rest IH]; intros w H; simpl in H.
  - injection H as <- _. left. reflexivity.
  - apply bind_ok_inv in H. destruct H as (b & w1 & _ & H).
    destruct b as [[|] |].
    + injection H as <- _. right. left. reflexivity.
    + apply IH in H. simpl. tauto.
    + apply IH in H. simpl. tauto.
Qed.

(** X13. The two indicators of a historian record.  [_is_calibration]
    returns the name of one of the four calibration triggers with the flag
    1, or "ANALYZER IDLE" with the flag 0, and nothing else;
    [_level_mode] returns the name of one of the three levels or
    "LEVEL IDLE".  A trigger whose read fails counts as inactive: while the
    status device is down, the indicators are "ANALYZER IDLE" with the flag
    0 and "LEVEL IDLE". *)
Theorem mode_indicators (env : Env) (w : World) :
  (forall mode flag w', _is_calibration env w = (Ok (mode, flag), w') ->
     (mode = "ANALYZER IDLE" /\ flag = 0) \/
     (In mode ["N2O ZERO"; "N2O SPAN"; "NO SPAN"; "O2 SPAN"] /\ flag = 1)) /\
  (forall nm w', _level_mode env w = (Ok nm, w') ->
     In nm ["LEVEL IDLE"; "LOW LEVEL"; "MID LEVEL"; "HIGH LEVEL"]) /\
  (down env MB_STATUS w ->
     fst (_is_calibration env w) = Ok ("ANALYZER IDLE", 0) /\
     fst (_level_mode env w) = Ok "LEVEL IDLE").
Proof.
  split; [| split].
  - intros mode flag w' H. unfold _is_calibration in H.
    apply bind_ok_inv in H. destruct H as (active & w1 & Hact & H).
    destruct active as [| m rest].
    + injection H as <- <- _. left. auto.
    + injection H as <- <- _. right. split; [| reflexivity].
      exact (active_modes_names env CAL_BITS w w1 _ Hact m (or_introl eq_refl)).
  - intros nm w' H. apply first_level_names in H.
    destruct H as [-> | H]; [left; reflexivity | right; exact H].
  - intros Hd. split.
    + destruct (active_modes_down env CAL_BITS w Hd) as (w' & Hrun & _).
      unfold _is_calibration, bind. rewrite Hrun. reflexivity.
    + destruct (first_level_down env LEVEL_BITS w Hd) as (w' & Hrun & _).
      unfold _level_mode. rewrite Hrun. reflexivity.
Qed.

(** With every device refusing the connection, the indicators are idle. *)
Lemma mode_indicators_witness :
  down env_refused MB_STATUS initial_world /\
  fst (_is_calibration env_refused initial_world) = Ok ("ANALYZER IDLE", 0) /\
  fst (_level_mode env_refused initial_world) = Ok "LEVEL IDLE".
Proof.
  assert (Hd : down env_refused MB_STATUS initial_world).
  { split; [intros n; discriminate | reflexivity]. }
  split; [exact Hd |].
  destruct (mode_indicators env_refused initial_world) as (_ & _ & H).
  exact (H Hd).
Defined.

(** ** _invalid_min_only *)

Lemma invalid_from_total (env : Env) (mins : gmap Z MinCfg) (values : list (option float))
    (idx : Z) (w : World) :
  Forall (fun v => v <> None) values ->
  exists b w', invalid_from env mins idx values w = (Ok b, w') /\ reads_only env w w'.
Proof.
  intros Hall. revert idx w. induction Hall as [| v rest Hv Hall IH]; intros idx w; simpl.
  - exists false, w. split; [reflexivity | apply reads_only_refl].
  - destruct (mins !! idx) as [cfg |]; [| apply IH].
    destruct (get_float_holding_reads env (mc_reg cfg)
                (default RANGE_HOLDING_ORDER_DEFAULT (mc_order cfg)) w) as (mn & w1 & Hget & Hf).
    unfold bind. rewrite Hget.
    assert (Hrest : exists b w', invalid_from env mins (idx + 1) rest w1 = (Ok b, w') /\
                      reads_only env w w').
    { destruct (IH (idx + 1) w1) as (b & w' & Hrun & Hf').
      exists b, w'. split; [exact Hrun | eapply reads_only_trans; eassumption]. }
    destruct mn as [mn |]; [| exact Hrest].
    destruct v as [x |]; [| contradiction].
    destruct (PrimFloat.ltb x mn); [| exact Hrest].
    exists true, w1. auto.
Qed.

Lemma invalid_from_down (env : Env) (mins : gmap Z MinCfg) (values : list (option float))
    (idx : Z) (w : World) :
  down env MB_RANGE w -> cache (w_cache w) = ∅ ->
  exists w', invalid_from env mins idx values w = (Ok false, w') /\ reads_only env w w'.
Proof.
  revert idx w. induction values as [| v rest IH]; intros idx w Hd Hempty; simpl.
  - exists w. split; [reflexivity | apply reads_only_refl].
  - destruct (mins !! idx) as [cfg |]; [| apply IH; assumption].
    destruct (get_float_holding_down env (mc_reg cfg)
                (default RANGE_HOLDING_ORDER_DEFAULT (mc_order cfg)) w Hd Hempty)
      as (w1 & Hget & Hf).
    unfold bind. rewrite Hget.
    destruct (IH (idx + 1) w1) as (w' & Hrun & Hf').
    + apply Hf. exact Hd.
    + destruct Hf as (_ & _ & _ & _ & _ & _ & Hc). rewrite Hc by exact Hd. exact Hempty.
    + exists w'. split; [exact Hrun | eapply reads_only_trans; eassumption].
Qed.

(** ** One pass of a historian *)

Lemma read_block_input_total (env : Env) (mb : Mb) (reg_map : list (Z * string)) (w : World) :
  reg_map <> [] ->
  exists r w', read_block_input env mb reg_map w = (Ok r, w') /\ reads_only env w w' /\
    forall vals, r = Some vals -> length vals = length reg_map.
Proof.
  intros Hne.
  destruct (py_max_spec (map fst reg_map)) as (m & Hm & _).
  { destruct reg_map; [contradiction | discriminate]. }
  destruct (read_input_regs_reads env mb 0 (m + 2) w) as (regs & w' & Hread & Hf).
  rewrite (read_block_input_run env mb reg_map m w Hm), Hread.
  destruct regs as [[| r rest] |]; eexists _, _; (split; [reflexivity |]);
    (split; [exact Hf |]); intros vals Hv; try discriminate Hv.
  injection Hv as <-. apply length_map.
Qed.

Lemma read_flow_reads (env : Env) : total (reads_only env) (read_flow env).
Proof.
  intros w. destruct (read_block_input_total env MB_FLOW FLOW_REGS w) as (r & w' & Hrun & Hf & _);
    [discriminate |].
  unfold post, read_flow, bind. rewrite Hrun.
  destruct r as [[| v rest] |]; eexists _, _; (split; [reflexivity | exact Hf]).
Qed.

Lemma Historian_inputs_reads (env : Env) (h : Historian) :
  safe (reads_only env) (Historian_inputs env h).
Proof.
  unfold Historian_inputs.
  apply safe_bind; try frame_rel; [apply safe_of_total, read_flow_reads |]. intros flow.
  apply safe_bind; try frame_rel; [apply is_calibration_reads |]. intros cal.
  apply safe_bind; try frame_rel; [apply first_level_reads |]. intros lv.
  apply safe_bind; try frame_rel; [apply read_block_input_reads |]. intros nv.
  apply safe_ret; try frame_rel.
Qed.

Lemma pad_to_length {A : Type} (n : nat) (l : list (option A)) : length (pad_to n l) = n.
Proof.
  unfold pad_to. rewrite length_firstn, length_app, repeat_length. lia.
Qed.

Lemma value_row_shape (h : Historian) (ts : float) (vals : list (option float)) (flow : float)
    (analyzer_mode level_mode : string) (is_cal : Z) (pstat : string) :
  historian_row h (value_row (h_table h) ts (pad_to 5 vals) flow analyzer_mode level_mode is_cal pstat).
Proof.
  split; [reflexivity |]. unfold value_row. cbn [params].
  rewrite !length_app, length_map, pad_to_length. reflexivity.
Qed.

(** What the [try] block of a pass leaves: on a normal return one record
    more in the queue, [last_good] as it was or replaced by [val_count]
    values; on an exception nothing. *)
Lemma Historian_sample_outcome (env : Env) (h : Historian) (w : World) :
  match Historian_sample env (h, w) with
  | (Ok _, (h', w')) =>
      (h' = h \/ exists vals, h' = set_last_good vals h /\ length vals = val_count h) /\
      w_threads w' = w_threads w /\ w_committed w' = w_committed w /\
      (w_step w <= w_step w')%nat /\
      exists row, w_queue w' = w_queue w ++ [row] /\ historian_row h row
  | (Raise _, (h', w')) =>
      h' = h /\ w_threads w' = w_threads w /\ w_committed w' = w_committed w /\
      (w_step w <= w_step w')%nat /\ w_queue w' = w_queue w
  | (OutOfFuel, _) => False
  end.
Proof.
  rewrite Historian_sample_run.
  destruct (Historian_inputs_reads env h w) as (Hfuel & Hq & Hth & Hco & Hstep & _).
  destruct (Historian_inputs env h w) as [[[[[flow [mode is_cal]] lv] live] | e |] wd];
    cbn [fst snd] in *; [| auto | contradiction].
  assert (Hemit : forall h0 w0 m c vals,
            w_queue w0 = w_queue w -> w_threads w0 = w_threads w ->
            w_committed w0 = w_committed w -> (w_step w <= w_step w0)%nat ->
            (h0 = h \/ exists vs, h0 = set_last_good vs h /\ length vs = val_count h) ->
            match emitted env h0 w0 flow m lv c vals with
            | (Ok _, (h', w')) =>
                (h' = h \/ exists vals, h' = set_last_good vals h /\ length vals = val_count h) /\
                w_threads w' = w_threads w /\ w_committed w' = w_committed w /\
                (w_step w <= w_step w')%nat /\
                exists row, w_queue w' = w_queue w ++ [row] /\ historian_row h row
            | (Raise _, (h', w')) =>
                h' = h /\ w_threads w' = w_threads w /\ w_committed w' = w_committed w /\
                (w_step w <= w_step w')%nat /\ w_queue w' = w_queue w
            | (OutOfFuel, _) => False
            end).
  { intros h0 w0 m c vals Hq0 Hth0 Hco0 Hst0 Hh0. unfold emitted. simpl.
    split; [exact Hh0 |]. split; [exact Hth0 |]. split; [exact Hco0 |]. split; [lia |].
    eexists. rewrite Hq0. split; [reflexivity |].
    replace (h_table h0) with (h_table h) by (destruct Hh0 as [-> | (vs & -> & _)]; reflexivity).
    apply value_row_shape. }
  destruct live as [vals |]; [| apply Hemit; auto].
  cbv zeta. destruct (String.eqb mode "ANALYZER IDLE"); [| apply Hemit; auto].
  destruct (invalid_from_reads env (min_map h) (pad_to (val_count h) (map Some vals)) 1 wd)
    as (Hfuel' & Hq' & Hth' & Hco' & Hstep' & _).
  destruct (invalid_from env (min_map h) 1 (pad_to (val_count h) (map Some vals)) wd)
    as [[[|] | e |] we]; cbn [fst snd] in *.
  - apply Hemit; try congruence; try lia. auto.
  - apply Hemit; try congruence; try lia. right. eexists. split; [reflexivity |].
    apply pad_to_length.
  - repeat split; try congruence; lia.
  - contradiction.
Qed.

(** The wait between two samples, step by step. *)
Lemma responsive_sleep_post (env : Env) (n : nat) (w : World) :
  exists k,
    (k <= n)%nat /\
    responsive_sleep env n w =
      (Ok tt, set_io (w_io w ++ repeat (EvSleep 0.1%float) k)
                (set_step (w_step w + 2 * k + (if (k <? n)%nat then 1 else 0)) w)) /\
    (forall j, (j < k)%nat -> stop_is_set env (w_step w + 2 * j) = false) /\
    ((k < n)%nat -> stop_is_set env (w_step w + 2 * k) = true).
Proof.
  revert w. induction n as [| n IH]; intros w.
  - exists 0%nat. split; [lia |]. split; [| split; intros; lia].
    destruct w as [st ls ca qu th co io]. unfold set_io, set_step. simpl.
    rewrite app_nil_r, !Nat.add_0_r. reflexivity.
  - change (responsive_sleep env (S n) w) with
      ((let* stop := is_set env in
        if stop then ret tt else sleep 0.1%float ;; responsive_sleep env n) w).
    unfold bind at 1. rewrite is_set_run.
    destruct (stop_is_set env (w_step w)) eqn:Hstop.
    + exists 0%nat. split; [lia |]. split; [| split].
      * destruct w as [st ls ca qu th co io]. unfold set_io, set_step. simpl.
        rewrite app_nil_r, Nat.add_0_r, Nat.add_1_r. reflexivity.
      * intros j Hj. lia.
      * intros _. rewrite Nat.mul_0_r, Nat.add_0_r. exact Hstop.
    + unfold bind at 1. rewrite sleep_run.
      match goal with
      | |- context [responsive_sleep env n ?w2] => destruct (IH w2) as (k & Hk & Hrun & Hno & Hyes)
      end.
      cbn [w_step w_io set_step set_io] in *.
      exists (S k). split; [lia |]. split; [| split].
      * rewrite Hrun. cbn [repeat]. rewrite <- app_assoc. cbn [app].
        replace (S (S (w_step w)) + 2 * k + (if (k <? n)%nat then 1 else 0))%nat
          with (w_step w + 2 * S k + (if (S k <? S n)%nat then 1 else 0))%nat.
        { destruct w; reflexivity. }
        change (S k <? S n)%nat with (k <? n)%nat. destruct (k <? n)%nat; lia.
      * intros j Hj. destruct j as [| j].
        -- rewrite Nat.mul_0_r, Nat.add_0_r. exact Hstop.
        -- replace (w_step w + 2 * S j)%nat with (S (S (w_step w)) + 2 * j)%nat by lia.
           apply Hno. lia.
      * intros Hlt. replace (w_step w + 2 * S k)%nat with (S (S (w_step w)) + 2 * k)%nat by lia.
        apply Hyes. lia.
Qed.

(** X15. The wait between two samples is made of at most [n] sleeps of
    0.1 s, the stop event being polled before each of them; it ends at the
    first poll that finds the event set, and it changes nothing but the
    clock and the log of calls. *)
Theorem responsive_wait (env : Env) (n : nat) (w : World) :
  exists (k : nat) (w' : World),
    responsive_sleep env n w = (Ok tt, w') /\
    (k <= n)%nat /\
    w_io w' = w_io w ++ repeat (EvSleep 0.1%float) k /\
    (forall j, (j < k)%nat -> stop_is_set env (w_step w + 2 * j) = false) /\
    ((k < n)%nat -> stop_is_set env (w_step w + 2 * k) = true) /\
    w_links w' = w_links w /\ w_cache w' = w_cache w /\ w_queue w' = w_queue w /\
    w_threads w' = w_threads w /\ w_committed w' = w_committed w.
Proof.
  destruct (responsive_sleep_post env n w) as (k & Hk & Hrun & Hno & Hyes).
  exists k. eexists. split; [exact Hrun |]. simpl. auto 10.
Qed.

Lemma Historian_pass_outcome (env : Env) (h : Historian) (w : World) :
  exists h' w',
    Historian_pass env (h, w) = (Ok tt, (h', w')) /\
    (h' = h \/ exists vals, h' = set_last_good vals h /\ length vals = val_count h) /\
    w_threads w' = w_threads w /\ w_committed w' = w_committed w /\
    (w_step w < w_step w')%nat /\
    (w_queue w' = w_queue w \/
     exists row, w_queue w' = w_queue w ++ [row] /\ historian_row h row) /\
    (fst (Historian_sample env (h, w)) = Ok tt ->
     exists row, w_queue w' = w_queue w ++ [row] /\ historian_row h row).
Proof.
  pose proof (Historian_sample_outcome env h w) as Hs.
  unfold Historian_pass, bind, try_except.
  destruct (Historian_sample env (h, w)) as [[[] | e |] [h1 w1]]; [| | contradiction].
  - destruct Hs as (Hh & Hth & Hco & Hstep & row & Hq & Hrow).
    unfold in_world. cbn [fst snd].
    destruct (responsive_sleep_post env (Z.to_nat (HIST_INTERVAL_S * 10)) w1)
      as (k & Hk & Hrun & _). rewrite Hrun.
    eexists _, _. split; [reflexivity |]. cbn [w_threads w_committed w_step w_queue set_io set_step].
    split; [exact Hh |]. split; [exact Hth |]. split; [exact Hco |].
    split; [| split; [right |]; eauto].
    change (Z.to_nat (HIST_INTERVAL_S * 10)) with 600%nat in *.
    destruct (Nat.ltb_spec k 600); lia.
  - destruct Hs as (Hh & Hth & Hco & Hstep & Hq).
    unfold ret, in_world. cbn [fst snd].
    destruct (responsive_sleep_post env (Z.to_nat (HIST_INTERVAL_S * 10)) w1)
      as (k & Hk & Hrun & _). rewrite Hrun.
    eexists _, _. split; [reflexivity |]. cbn [w_threads w_committed w_step w_queue set_io set_step].
    split; [left; exact Hh |]. split; [exact Hth |]. split; [exact Hco |].
    split; [| split; [left; exact Hq | discriminate]].
    change (Z.to_nat (HIST_INTERVAL_S * 10)) with 600%nat in *.
    destruct (Nat.ltb_spec k 600); lia.
Qed.

Lemma read_bit_status_answered (env : Env) (di_addr : Z) (w : World) :
  bits_answered env ->
  exists r w', read_bit_status env di_addr w = (Ok r, w').
Proof.
  intros Hbits. rewrite read_bit_status_run.
  destruct (read_discrete_reads env MB_STATUS di_addr 1 w) as (bits & w' & Hread & _).
  destruct (guarded_read_delivery env (mb_discrete env) MB_STATUS di_addr 1 w) as (Hsrc & _).
  change (guarded_read env (mb_discrete env) MB_STATUS di_addr 1) with
    (read_discrete env MB_STATUS di_addr 1) in Hsrc.
  rewrite Hread. destruct bits as [[| b rest] |]; eauto.
  destruct (Hsrc _ _ Hread) as (n & _ & Hv). exfalso. exact (Hbits di_addr n Hv).
Qed.

Lemma active_modes_answered (env : Env) (bits : list (Z * string)) (w : World) :
  bits_answered env -> exists r w', active_modes env bits w = (Ok r, w').
Proof.
  intros Hbits. revert w. induction bits as [| [addr mode] rest IH]; intros w; simpl.
  - eauto.
  - destruct (read_bit_status_answered env addr w Hbits) as (b & w1 & Hrun).
    destruct (IH w1) as (l & w2 & Hrun2).
    unfold bind. rewrite Hrun, Hrun2. unfold ret. eauto.
Qed.

Lemma first_level_answered (env : Env) (bits : list (string * Z)) (w : World) :
  bits_answered env -> exists r w', first_level env bits w = (Ok r, w').
Proof.
  intros Hbits. revert w. induction bits as [| [nm addr] rest IH]; intros w; simpl.
  - unfold ret. eauto.
  - destruct (read_bit_status_answered env addr w Hbits) as (b & w1 & Hrun).
    unfold bind. rewrite Hrun. destruct b as [[|] |]; try apply IH. unfold ret. eauto.
Qed.

Lemma pad_to_some {A : Type} (n : nat) (l : list A) :
  (n <= length l)%nat -> Forall (fun v => v <> None) (pad_to n (map Some l)).
Proof.
  intros Hn. unfold pad_to. rewrite firstn_app, length_map.
  replace (n - length l)%nat with 0%nat by lia. rewrite firstn_O, app_nil_r.
  apply Forall_take, List.Forall_forall. intros v Hv.
  apply in_map_iff in Hv. destruct Hv as (x & <- & _). discriminate.
Qed.

(** With a non-empty register map that covers [val_count] values and a
    status device that answers with bits, the [try] block of a pass
    returns normally. *)
Lemma Historian_sample_returns (env : Env) (h : Historian) (w : World) :
  live_regs h <> [] -> (val_count h <= length (live_regs h))%nat -> bits_answered env ->
  fst (Historian_sample env (h, w)) = Ok tt.
Proof.
  intros Hregs Hcount Hbits.
  rewrite Historian_sample_run, Historian_inputs_run.
  destruct (read_flow_reads env w) as (flow & wa & -> & _).
  destruct (active_modes_answered env CAL_BITS wa Hbits) as (active & wb & Hact).
  assert (Hcal : exists cal, _is_calibration env wa = (Ok cal, wb)).
  { unfold _is_calibration, bind. rewrite Hact. destruct active; unfold ret; eauto. }
  destruct Hcal as ([mode is_cal] & ->).
  destruct (first_level_answered env LEVEL_BITS wb Hbits) as (lv & wc & Hlv).
  unfold _level_mode. rewrite Hlv.
  destruct (read_block_input_total env (mb_an h) (live_regs h) wc Hregs)
    as (live & wd & -> & _ & Hlen).
  destruct live as [vals |]; [| reflexivity].
  cbv zeta. destruct (String.eqb mode "ANALYZER IDLE"); [| reflexivity].
  destruct (invalid_from_total env (min_map h) (pad_to (val_count h) (map Some vals)) 1 wd)
    as (b & we & -> & _).
  { apply pad_to_some. rewrite (Hlen vals eq_refl). exact Hcount. }
  destruct b; reflexivity.
Qed.

(** X16. One pass of a historian never raises and leaves the threads and
    the sink alone.  It appends at most one record to the queue, a row for
    the historian's table with the eleven parameters of the statement;
    [last_good] keeps [val_count] values.  With a register map that is not
    empty and covers [val_count] values (as for both historians of the
    service) and a status device that never answers without bits, every
    pass appends exactly one record, whatever the devices do. *)
Theorem historian_pass_records (env : Env) (h : Historian) (w : World) :
  exists h' w',
    Historian_pass env (h, w) = (Ok tt, (h', w')) /\
    (h' = h \/ exists vals, h' = set_last_good vals h /\ length vals = val_count h) /\
    w_threads w' = w_threads w /\ w_committed w' = w_committed w /\
    (w_queue w' = w_queue w \/
     exists row, w_queue w' = w_queue w ++ [row] /\ historian_row h row) /\
    (live_regs h <> [] -> (val_count h <= length (live_regs h))%nat -> bits_answered env ->
     exists row, w_queue w' = w_queue w ++ [row] /\ historian_row h row).
Proof.
  destruct (Historian_pass_outcome env h w)
    as (h' & w' & Hrun & Hh & Hth & Hco & _ & Hq & Hone).
  exists h', w'. repeat (split; [assumption |]).
  intros Hregs Hcount Hbits. apply Hone.
  apply Historian_sample_returns; assumption.
Qed.

(** Both historians of the service, in an environment whose status device
    answers: each pass appends one record. *)
Lemma historian_pass_records_witness :
  bits_answered env_idle /\
  (exists row, w_queue (snd (snd (Historian_pass env_idle (hist1, initial_world)))) = [row] /\
     historian_row hist1 row) /\
  (exists row,
     w_queue (snd (snd (Historian_pass env_idle
                          (new_Historian "AN2-HIST" MB_AN2 AN2_LIVE_REGS AN2_MIN_MAP "Value_1" 2,
                           initial_world)))) = [row]).
Proof.
  assert (Hbits : bits_answered env_idle) by (intros addr n; discriminate).
  split; [exact Hbits |]. split.
  - destruct (historian_pass_records env_idle hist1 initial_world)
      as (h' & w' & Hrun & _ & _ & _ & _ & Hone).
    rewrite Hrun. cbn [snd]. destruct Hone as (row & Hq & Hrow);
      [discriminate | simpl; lia | exact Hbits |].
    exists row. auto.
  - destruct (historian_pass_records env_idle
                (new_Historian "AN2-HIST" MB_AN2 AN2_LIVE_REGS AN2_MIN_MAP "Value_1" 2)
                initial_world) as (h' & w' & Hrun & _ & _ & _ & _ & Hone).
    rewrite Hrun. cbn [snd]. destruct Hone as (row & Hq & Hrow);
      [discriminate | simpl; lia | exact Hbits |].
    exists row. auto.
Defined.

(** ** A historian whose analyzer is down *)

Lemma Historian_inputs_answered (env : Env) (h : Historian) (w : World) :
  live_regs h <> [] -> bits_answered env ->
  exists x wd, Historian_inputs env h w = (Ok x, wd).
Proof.
  intros Hregs Hbits. rewrite Historian_inputs_run.
  destruct (read_flow_reads env w) as (flow & wa & -> & _).
  destruct (active_modes_answered env CAL_BITS wa Hbits) as (active & wb & Hact).
  assert (Hcal : exists cal, _is_calibration env wa = (Ok cal, wb)).
  { unfold _is_calibration, bind. rewrite Hact. destruct active; unfold ret; eauto. }
  destruct Hcal as (cal & ->).
  destruct (first_level_answered env LEVEL_BITS wb Hbits) as (lv & wc & Hlv).
  unfold _level_mode. rewrite Hlv.
  destruct (read_block_input_total env (mb_an h) (live_regs h) wc Hregs) as (live & wd & -> & _).
  eauto.
Qed.

Lemma Historian_inputs_offline (env : Env) (h : Historian) (w : World) :
  down env (mb_an h) w -> live_regs h <> [] ->
  match Historian_inputs env h w with
  | (Ok (_, _, _, live), wd) => live = None /\ reads_only env w wd
  | (Raise _, wd) => reads_only env w wd
  | (OutOfFuel, _) => False
  end.
Proof.
  intros Hd Hregs. rewrite Historian_inputs_run.
  destruct (read_flow_reads env w) as (flow & wa & -> & Fa).
  destruct (is_calibration_reads env wa) as (Hfuel_b & Fb).
  destruct (_is_calibration env wa) as [[cal | e |] wb]; cbn [fst snd] in *;
    [| eapply reads_only_trans; eassumption | contradiction].
  pose proof (reads_only_trans env _ _ _ Fa Fb) as Fab.
  destruct (first_level_reads env LEVEL_BITS wb) as (Hfuel_c & Fc).
  unfold _level_mode.
  destruct (first_level env LEVEL_BITS wb) as [[lv | e |] wc]; cbn [fst snd] in *;
    [| eapply reads_only_trans; eassumption | contradiction].
  pose proof (reads_only_trans env _ _ _ Fab Fc) as Fabc.
  destruct (read_block_input_down env (mb_an h) (live_regs h) wc) as (wd & -> & Fd);
    [apply Fabc; exact Hd | exact Hregs |].
  split; [reflexivity | eapply reads_only_trans; eassumption].
Qed.

Lemma Historian_sample_offline (env : Env) (h : Historian) (w : World) :
  down env (mb_an h) w -> live_regs h <> [] ->
  exists r w1,
    Historian_sample env (h, w) = (r, (h, w1)) /\ r <> OutOfFuel /\
    down env (mb_an h) w1 /\
    match r with
    | Ok _ => exists row, w_queue w1 = w_queue w ++ [row] /\ offline_row h row
    | _ => w_queue w1 = w_queue w
    end /\
    (bits_answered env -> r = Ok tt).
Proof.
  intros Hd Hregs.
  pose proof (Historian_inputs_offline env h w Hd Hregs) as Hin.
  pose proof (Historian_inputs_answered env h w Hregs) as Hans.
  rewrite Historian_sample_run.
  destruct (Historian_inputs env h w) as [[[[[flow [mode is_cal]] lv] live] | e |] wd];
    [| | contradiction].
  - destruct Hin as (-> & F). unfold emitted.
    eexists _, _. split; [reflexivity |]. split; [discriminate |].
    split; [exact (proj1 (proj2 (proj2 (proj2 (proj2 (proj2 F))))) _ Hd) |].
    split; [| reflexivity].
    eexists. cbn [w_queue set_queue]. destruct F as (-> & _). split; [reflexivity |].
    eexists _, _, _. reflexivity.
  - eexists _, _. split; [reflexivity |]. split; [discriminate |].
    split; [exact (proj1 (proj2 (proj2 (proj2 (proj2 (proj2 Hin))))) _ Hd) |].
    split; [apply Hin |].
    intros Hbits. destruct (Hans Hbits) as (x & wd' & Hx). discriminate Hx.
Qed.

Lemma Historian_pass_offline (env : Env) (h : Historian) (w : World) :
  down env (mb_an h) w -> live_regs h <> [] ->
  exists w' rows,
    Historian_pass env (h, w) = (Ok tt, (h, w')) /\
    down env (mb_an h) w' /\
    w_queue w' = w_queue w ++ rows /\ (length rows <= 1)%nat /\
    Forall (offline_row h) rows /\
    (bits_answered env -> length rows = 1%nat).
Proof.
  intros Hd Hregs.
  destruct (Historian_sample_offline env h w Hd Hregs) as (r & w1 & Hrun & Hfuel & Hd1 & Hq & Hans).
  destruct (responsive_sleep_post env (Z.to_nat (HIST_INTERVAL_S * 10)) w1) as (k & _ & Hsleep & _).
  unfold Historian_pass, bind, try_except. rewrite Hrun.
  destruct r as [[] | e |]; [| | contradiction].
  - unfold in_world. cbn [fst snd]. rewrite Hsleep.
    destruct Hq as (row & Hq & Hrow).
    eexists _, [row]. split; [reflexivity |]. split; [exact Hd1 |].
    split; [exact Hq |]. split; [simpl; lia |]. split; [repeat constructor; exact Hrow | reflexivity].
  - unfold ret, in_world. cbn [fst snd]. rewrite Hsleep.
    eexists _, []. split; [reflexivity |]. split; [exact Hd1 |].
    split; [rewrite app_nil_r; exact Hq |]. split; [simpl; lia |]. split; [constructor |].
    intros Hbits. discriminate (Hans Hbits).
Qed.

(** X17. While the analyzer of a historian is down, every pass writes an
    OFFLINE record that carries the last good values with the calibration
    flag 0, and [last_good] stays exactly as it was, for any number of
    passes (a pass cut short by an exception writes nothing; there is none
    when the status device answers with bits). *)
Theorem historian_offline_ticks (env : Env) (h : Historian) (w : World) (n : nat) :
  down env (mb_an h) w -> live_regs h <> [] ->
  exists w' rows,
    historian_passes env n (h, w) = (h, w') /\
    w_queue w' = w_queue w ++ rows /\
    Forall (offline_row h) rows /\
    (length rows <= n)%nat /\
    (bits_answered env -> length rows = n) /\
    down env (mb_an h) w'.
Proof.
  intros Hd Hregs. induction n as [| n IH].
  - exists w, []. simpl. rewrite app_nil_r.
    split; [reflexivity |]. split; [reflexivity |]. split; [constructor |]. auto.
  - destruct IH as (w1 & rows & Hrun & Hq & Hrows & Hlen & Hexact & Hd1).
    destruct (Historian_pass_offline env h w1 Hd1 Hregs)
      as (w2 & rows' & Hpass & Hd2 & Hq2 & Hlen2 & Hrows2 & Hexact2).
    exists w2, (rows ++ rows').
    unfold historian_passes in *. rewrite Nat.iter_succ, Hrun, Hpass. cbn [snd].
    split; [reflexivity |]. split; [rewrite Hq2, Hq, app_assoc; reflexivity |].
    split; [apply Forall_app; auto |].
    rewrite length_app. split; [lia |]. split; [| exact Hd2].
    intros Hbits. rewrite (Hexact Hbits), (Hexact2 Hbits). lia.
Qed.

(** Scenario C: three passes with analyzer 1 refusing the connection. *)
Lemma historian_offline_ticks_witness :
  down env_refused MB_AN1 initial_world /\
  exists w' rows,
    historian_passes env_refused 3 (hist1_at_20, initial_world) = (hist1_at_20, w') /\
    w_queue w' = rows /\ length rows = 3%nat /\ Forall (offline_row hist1_at_20) rows.
Proof.
  assert (Hd : down env_refused MB_AN1 initial_world).
  { split; [intros n; discriminate | reflexivity]. }
  split; [exact Hd |].
  destruct (historian_offline_ticks env_refused hist1_at_20 initial_world 3 Hd)
    as (w' & rows & Hrun & Hq & Hrows & _ & Hexact & _); [discriminate |].
  exists w', rows. split; [exact Hrun |]. split; [exact Hq |].
  split; [apply Hexact; intros addr n; discriminate | exact Hrows].
Defined.

(* ===================================================================== *)
(** * Level sessions: rows                                               *)
(* ===================================================================== *)

Lemma reads_only_sleeps (env : Env) (w w' : World) : reads_only env w w' -> sleeps w' = sleeps w.
Proof.
  intros (_ & _ & _ & _ & (evs & Hio & Hev) & _). unfold sleeps. rewrite Hio, List.filter_app.
  assert (Hnil : List.filter is_sleep evs = []).
  { clear Hio. induction Hev as [| e l He Hl IH]; [reflexivity |].
    simpl. destruct e; simpl in He; try contradiction; exact IH. }
  rewrite Hnil. apply app_nil_r.
Qed.





(* ===================================================================== *)
(** * Level monitor: edges                                               *)
(* ===================================================================== *)

(** A bit returned by [read_bit_status] is the first bit the status device
    delivered to this request. *)
Lemma read_bit_status_source (env : Env) (addr : Z) (w w' : World) (b : bool) :
  read_bit_status env addr w = (Ok (Some b), w') ->
  exists n rest, (w_step w <= n < w_step w')%nat /\
    fst (mb_discrete env MB_STATUS addr 1 n) = Values (b :: rest).
Proof.
  rewrite read_bit_status_run. intros H.
  destruct (guarded_read_delivery env (mb_discrete env) MB_STATUS addr 1 w) as (Hsrc & _).
  change (guarded_read env (mb_discrete env) MB_STATUS addr 1) with
    (read_discrete env MB_STATUS addr 1) in Hsrc.
  destruct (read_discrete env MB_STATUS addr 1 w) as [[[[| b0 rest] |] | e |] w1];
    try discriminate H.
  injection H as <- <-.
  destruct (Hsrc _ _ eq_refl) as (n & Hn & Hv). eauto.
Qed.

Lemma LevelMonitor_visit_run (env : Env) (key : string) (di : Z) (m : LevelMonitor) (w : World) :
  LevelMonitor_visit env (key, di) (m, w) =
    match read_bit_status env di w with
    | (Ok None, w1) => (Ok tt, (m, w1))
    | (Ok (Some st), w1) =>
        match lm_last m !! key with
        | None => (Raise KeyError, (m, w1))
        | Some last =>
            (Ok tt,
             (set_lm_last (<[key := st]> (lm_last m)) m,
              if st && negb last
              then set_threads (w_threads w1 ++ [mkThread (LevelJob (lm_name m) key) true]) w1
              else w1))
        end
    | (Raise e, w1) => (Raise e, (m, w1))
    | (OutOfFuel, w1) => (OutOfFuel, (m, w1))
    end.
Proof.
  unfold LevelMonitor_visit.
  cbv [bind in_world self gets lift_res set_self modify ret start_thread]. cbn [fst snd].
  destruct (read_bit_status env di w) as [[[st |] | e |] w1]; cbn [fst snd]; try reflexivity.
  destruct (lm_last m !! key) as [last |]; [| reflexivity].
  destruct (st && negb last); reflexivity.
Qed.

Lemma no_session_started_refl (j : job) (w : World) : no_session_started j w w.
Proof. exists []. rewrite app_nil_r. split; [reflexivity | constructor]. Qed.

Lemma no_session_started_trans (j : job) (w1 w2 w3 : World) :
  no_session_started j w1 w2 -> no_session_started j w2 w3 -> no_session_started j w1 w3.
Proof.
  intros (n1 & H1 & F1) (n2 & H2 & F2). exists (n1 ++ n2).
  rewrite H2, H1, app_assoc. split; [reflexivity | apply Forall_app; auto].
Qed.

Lemma no_session_started_threads (j : job) (w w' : World) :
  w_threads w' = w_threads w -> no_session_started j w w'.
Proof. intros H. exists []. rewrite app_nil_r. split; [exact H | constructor]. Qed.

Section LevelTrigger.

Variable env : Env.
Variable key : string.
Variable di : Z.
Hypothesis key_di : In (key, di) LEVEL_DI.

Lemma level_di_functional (kd : string * Z) : In kd LEVEL_DI -> fst kd = key -> snd kd = di.
Proof.
  intros Hin Hk. unfold LEVEL_DI in *. simpl in Hin, key_di.
  destruct Hin as [<- | [<- | [<- | []]]]; simpl in Hk; subst key;
    destruct key_di as [H | [H | [H | []]]]; try discriminate H; injection H as <-; reflexivity.
Qed.

(** One visit, while the bit of [key] never reads false: the level stays
    held and no session is started for it. *)
Lemma visit_while_held (name : string) (kd : string * Z) (m : LevelMonitor) (w : World) :
  In kd LEVEL_DI -> lm_name m = name -> held key (m, w) ->
  (forall k, (w_step w <= k)%nat -> trigger_not_false env di k) ->
  let s' := snd (LevelMonitor_visit env kd (m, w)) in
  fst (LevelMonitor_visit env kd (m, w)) <> OutOfFuel /\
  lm_name (fst s') = name /\ held key s' /\ (w_step w <= w_step (snd s'))%nat /\
  no_session_started (LevelJob name key) w (snd s').
Proof.
  intros Hin Hname Hheld Henv. destruct kd as [key' di'].
  rewrite LevelMonitor_visit_run.
  destruct (read_bit_status_reads env di' w) as (Hfuel & Hq & Hth & Hco & Hst & _).
  pose proof (read_bit_status_source env di' w) as Hsrc.
  destruct (read_bit_status env di' w) as [[[st |] | e |] w1]; cbn [fst snd] in *;
    try (repeat split; auto; try discriminate; apply no_session_started_threads; exact Hth).
  destruct (lm_last m !! key') as [last |] eqn:Hlast; cbn [fst snd];
    [| repeat split; auto; try discriminate; apply no_session_started_threads; exact Hth].
  unfold held in *. cbn [fst snd lm_last lm_name set_lm_last] in *.
  destruct (decide (key' = key)) as [-> | Hne].
  - assert (di' = di) as -> by (apply (level_di_functional (key, di') Hin); reflexivity).
    rewrite Hheld in Hlast. injection Hlast as <-.
    assert (st = true) as ->.
    { destruct st; [reflexivity |]. exfalso.
      destruct (Hsrc w1 false eq_refl) as (n & rest & Hn & Hv).
      specialize (Henv n (proj1 Hn)). unfold trigger_not_false in Henv.
      rewrite Hv in Henv. exact Henv. }
    cbn [andb negb]. rewrite lookup_insert_eq.
    repeat split; auto; try discriminate. apply no_session_started_threads. exact Hth.
  - rewrite lookup_insert_ne by exact Hne.
    split; [discriminate |]. split; [exact Hname |]. split; [exact Hheld |].
    destruct (st && negb last); cbn [w_step w_threads set_threads]; (split; [exact Hst |]).
    + exists [mkThread (LevelJob (lm_name m) key') true]. rewrite Hth.
      split; [reflexivity |]. repeat constructor. cbn [th_job]. congruence.
    + apply no_session_started_threads. exact Hth.
Qed.

(** One visit, while the bit of [key] never reads true: no session is
    started for it. *)
Lemma visit_while_clear (name : string) (kd : string * Z) (m : LevelMonitor) (w : World) :
  In kd LEVEL_DI -> lm_name m = name ->
  (forall k, (w_step w <= k)%nat -> trigger_not_true env di k) ->
  let s' := snd (LevelMonitor_visit env kd (m, w)) in
  fst (LevelMonitor_visit env kd (m, w)) <> OutOfFuel /\
  lm_name (fst s') = name /\ (w_step w <= w_step (snd s'))%nat /\
  no_session_started (LevelJob name key) w (snd s').
Proof.
  intros Hin Hname Henv. destruct kd as [key' di'].
  rewrite LevelMonitor_visit_run.
  destruct (read_bit_status_reads env di' w) as (Hfuel & Hq & Hth & Hco & Hst & _).
  pose proof (read_bit_status_source env di' w) as Hsrc.
  destruct (read_bit_status env di' w) as [[[st |] | e |] w1]; cbn [fst snd] in *;
    try (repeat split; auto; try discriminate; apply no_session_started_threads; exact Hth).
  destruct (lm_last m !! key') as [last |] eqn:Hlast; cbn [fst snd];
    [| repeat split; auto; try discriminate; apply no_session_started_threads; exact Hth].
  cbn [fst snd lm_last lm_name set_lm_last] in *.
  split; [discriminate |]. split; [exact Hname |].
  destruct (decide (key' = key)) as [-> | Hne].
  - assert (di' = di) as -> by (apply (level_di_functional (key, di') Hin); reflexivity).
    assert (st = false) as ->.
    { destruct st; [| reflexivity]. exfalso.
      destruct (Hsrc w1 true eq_refl) as (n & rest & Hn & Hv).
      specialize (Henv n (proj1 Hn)). unfold trigger_not_true in Henv.
      rewrite Hv in Henv. exact Henv. }
    cbn [andb]. split; [exact Hst |]. apply no_session_started_threads. exact Hth.
  - destruct (st && negb last); cbn [w_step w_threads set_threads]; (split; [exact Hst |]).
    + exists [mkThread (LevelJob (lm_name m) key') true]. rewrite Hth.
      split; [reflexivity |]. repeat constructor. cbn [th_job]. congruence.
    + apply no_session_started_threads. exact Hth.
Qed.

End LevelTrigger.

(** A loop whose body keeps an invariant and a transitive relation. *)
Lemma for_each_invariant {S A : Type} (I : S -> Prop) (R : S -> S -> Prop)
    (xs : list A) (body : A -> M S unit) :
  (forall s, R s s) ->
  (forall s1 s2 s3, R s1 s2 -> R s2 s3 -> R s1 s3) ->
  (forall x s, In x xs -> I s ->
     fst (body x s) <> OutOfFuel /\ I (snd (body x s)) /\ R s (snd (body x s))) ->
  forall s, I s ->
    fst (for_each xs body s) <> OutOfFuel /\ I (snd (for_each xs body s)) /\
    R s (snd (for_each xs body s)).
Proof.
  intros Hrefl Htrans. induction xs as [| x rest IH]; intros Hbody s Hs; simpl.
  - split; [discriminate |]. auto.
  - destruct (Hbody x s (or_introl eq_refl) Hs) as (Hfuel & HI & HR).
    unfold bind. destruct (body x s) as [[[] | e |] s1]; cbn [fst snd] in *.
    + destruct (IH (fun y s0 Hy => Hbody y s0 (or_intror Hy)) s1 HI) as (Hfuel' & HI' & HR').
      split; [exact Hfuel' |]. split; [exact HI' | eauto].
    + split; [discriminate | auto].
    + contradiction.
Qed.

(** One pass of a level monitor around an invariant of its visits. *)
Lemma LevelMonitor_pass_invariant (env : Env) (I : LevelMonitor * World -> Prop)
    (R : World -> World -> Prop) :
  (forall w, R w w) ->
  (forall w1 w2 w3, R w1 w2 -> R w2 w3 -> R w1 w3) ->
  (forall m w, I (m, w) ->
     I (m, set_io (w_io w ++ [EvSleep 0.5%float]) (set_step (S (w_step w)) w)) /\
     R w (set_io (w_io w ++ [EvSleep 0.5%float]) (set_step (S (w_step w)) w))) ->
  (forall kd s, In kd LEVEL_DI -> I s ->
     fst (LevelMonitor_visit env kd s) <> OutOfFuel /\ I (snd (LevelMonitor_visit env kd s)) /\
     R (snd s) (snd (snd (LevelMonitor_visit env kd s)))) ->
  forall s, I s ->
    exists s', LevelMonitor_pass env s = (Ok tt, s') /\ I s' /\ R (snd s) (snd s').
Proof.
  intros Hrefl Htrans Hsleep Hvisit s Hs.
  destruct (for_each_invariant I (fun s s' => R (snd s) (snd s')) LEVEL_DI
              (LevelMonitor_visit env) (fun s => Hrefl (snd s))
              (fun s1 s2 s3 => Htrans (snd s1) (snd s2) (snd s3)) Hvisit s Hs)
    as (Hfuel & HI & HR).
  unfold LevelMonitor_pass, bind, try_except.
  destruct (for_each LEVEL_DI (LevelMonitor_visit env) s) as [[[] | e |] [m1 w1]];
    cbn [fst snd] in *; [| | contradiction].
  - unfold in_world. cbn [fst snd]. rewrite sleep_run.
    destruct (Hsleep m1 w1 HI) as (HI' & HR').
    eexists. split; [reflexivity |]. split; [exact HI' | eauto].
  - unfold ret, in_world. cbn [fst snd]. rewrite sleep_run.
    destruct (Hsleep m1 w1 HI) as (HI' & HR').
    eexists. split; [reflexivity |]. split; [exact HI' | eauto].
Qed.

Lemma level_passes_invariant (env : Env) (I : LevelMonitor * World -> Prop)
    (R : World -> World -> Prop) :
  (forall w, R w w) ->
  (forall w1 w2 w3, R w1 w2 -> R w2 w3 -> R w1 w3) ->
  (forall s, I s -> exists s', LevelMonitor_pass env s = (Ok tt, s') /\ I s' /\ R (snd s) (snd s')) ->
  forall n s, I s -> I (level_passes env n s) /\ R (snd s) (snd (level_passes env n s)).
Proof.
  intros Hrefl Htrans Hpass n s Hs. induction n as [| n (HI & HR)].
  - split; [exact Hs | apply Hrefl].
  - unfold level_passes in *. rewrite Nat.iter_succ.
    destruct (Hpass _ HI) as (s' & Hrun & HI' & HR'). rewrite Hrun. cbn [snd].
    split; [exact HI' | eauto].
Qed.

(** X19. A level monitor starts sessions on rising edges only.  For a level
    of the service and its trigger bit: (1) after the monitor has seen the
    bit true, as long as the bit does not read false (it reads true, or
    the read fails), no number of passes starts a session for the level:
    a level that stays high is one session, and a failed read is not an
    edge; (2) as long as the bit does not read true, no session is started
    for the level, whatever the monitor remembers. *)
Theorem level_monitor_edge_triggered (env : Env) (m : LevelMonitor) (w : World)
    (key : string) (di : Z) (n : nat) :
  In (key, di) LEVEL_DI ->
  (lm_last m !! key = Some true ->
   (forall k, (w_step w <= k)%nat -> trigger_not_false env di k) ->
   lm_last (fst (level_passes env n (m, w))) !! key = Some true /\
   no_session_started (LevelJob (lm_name m) key) w (snd (level_passes env n (m, w)))) /\
  ((forall k, (w_step w <= k)%nat -> trigger_not_true env di k) ->
   no_session_started (LevelJob (lm_name m) key) w (snd (level_passes env n (m, w)))).
Proof.
  intros Hin. split.
  - intros Hheld Henv.
    set (I := fun s : LevelMonitor * World =>
                lm_name (fst s) = lm_name m /\ held key s /\
                forall k, (w_step (snd s) <= k)%nat -> trigger_not_false env di k).
    destruct (level_passes_invariant env I (no_session_started (LevelJob (lm_name m) key))
                (no_session_started_refl _) (no_session_started_trans _)) with (n := n) (s := (m, w))
      as ((_ & Hh & _) & HR).
    + intros s Hs. apply (LevelMonitor_pass_invariant env I); auto.
      * apply no_session_started_refl.
      * apply no_session_started_trans.
      * intros m0 w0 (Hn0 & Hh0 & He0). cbn [fst snd] in *. split.
        -- split; [exact Hn0 |]. split; [exact Hh0 |].
           intros k Hk. apply He0. cbn [fst snd w_step set_io set_step] in Hk. lia.
        -- apply no_session_started_threads. reflexivity.
      * intros kd [m0 w0] Hkd (Hn0 & Hh0 & He0). cbn [fst snd] in *.
        destruct (visit_while_held env key di Hin (lm_name m) kd m0 w0 Hkd Hn0 Hh0 He0)
          as (Hfuel & Hn1 & Hh1 & Hst & Hno).
        split; [exact Hfuel |]. split; [| exact Hno].
        split; [exact Hn1 |]. split; [exact Hh1 |].
        intros k Hk. apply He0. lia.
    + split; [reflexivity |]. split; [exact Hheld | exact Henv].
    + split; [exact Hh | exact HR].
  - intros Henv.
    set (I := fun s : LevelMonitor * World =>
                lm_name (fst s) = lm_name m /\
                forall k, (w_step (snd s) <= k)%nat -> trigger_not_true env di k).
    destruct (level_passes_invariant env I (no_session_started (LevelJob (lm_name m) key))
                (no_session_started_refl _) (no_session_started_trans _)) with (n := n) (s := (m, w))
      as (_ & HR).
    + intros s Hs. apply (LevelMonitor_pass_invariant env I); auto.
      * apply no_session_started_refl.
      * apply no_session_started_trans.
      * intros m0 w0 (Hn0 & He0). cbn [fst snd] in *. split.
        -- split; [exact Hn0 |]. intros k Hk. apply He0.
           cbn [fst snd w_step set_io set_step] in Hk. lia.
        -- apply no_session_started_threads. reflexivity.
      * intros kd [m0 w0] Hkd (Hn0 & He0). cbn [fst snd] in *.
        destruct (visit_while_clear env key di Hin (lm_name m) kd m0 w0 Hkd Hn0 He0)
          as (Hfuel & Hn1 & Hst & Hno).
        split; [exact Hfuel |]. split; [| exact Hno].
        split; [exact Hn1 |]. intros k Hk. apply He0. lia.
    + split; [reflexivity | exact Henv].
    + exact HR.
Qed.

(** The low-level bit reads true at every instant and the monitor has
    already seen it true: three more passes start no session for it. *)
Lemma level_monitor_edge_triggered_witness :
  In ("LOW", 3) LEVEL_DI /\
  lm_last (set_lm_last (<["LOW" := true]> (lm_last lvl1)) lvl1) !! "LOW" = Some true /\
  lm_last (fst (level_passes
                  (mkEnv clock (fun _ => false) (fun _ _ => Connected)
                     (fun _ _ _ _ => (Values [true], true)) (fun _ _ _ _ => (ErrorReply, true))
                     (fun _ _ _ _ => (ErrorReply, true))
                     (fun _ => SinkOk) (fun _ _ => SinkOk) (fun _ => SinkOk) (fun _ => []))
                  3 (set_lm_last (<["LOW" := true]> (lm_last lvl1)) lvl1, initial_world)))
    !! "LOW" = Some true.
Proof.
  assert (Hin : In ("LOW", 3) LEVEL_DI) by (left; reflexivity).
  split; [exact Hin |]. split; [reflexivity |].
  match goal with
  | |- lm_last (fst (level_passes ?e _ _)) !! _ = _ => set (env := e)
  end.
  destruct (level_monitor_edge_triggered env
              (set_lm_last (<["LOW" := true]> (lm_last lvl1)) lvl1) initial_world "LOW" 3 3 Hin)
    as (Hheld & _).
  apply Hheld; [reflexivity |].
  intros k _. exact I.
Defined.

(* ===================================================================== *)
(** * Calibration capture: rows                                          *)
(* ===================================================================== *)

Lemma read_measured_total (env : Env) (mb : Mb) (range_map : gmap string RangeEntry)
    (tag : string) (e : RangeEntry) (w : World) :
  range_map !! tag = Some e ->
  exists r w', read_measured env mb range_map tag w = (Ok r, w') /\ reads_only env w w' /\
    (down env mb w -> r = None).
Proof.
  intros He. rewrite read_measured_run, He.
  destruct (read_input_float_reads env mb (in_reg e) (in_order e) w) as (r & w' & Hrun & Hf).
  exists r, w'. split; [exact Hrun |]. split; [exact Hf |].
  intros Hd. destruct (read_input_float_down env mb (in_reg e) (in_order e) w Hd)
    as (w1 & Hrun1 & _). congruence.
Qed.

(** [evaluate] on a tag of the map: it returns, with numbers and a verdict
    or with the READ ERROR result. *)
Lemma evaluate_total (env : Env) (tag : string) (val : float) (cal_name : string)
    (range_map : gmap string RangeEntry) (e : RangeEntry) (w : World) :
  range_map !! tag = Some e ->
  exists expected err acc status w',
    evaluate env tag val cal_name range_map w = (Ok (expected, err, acc, status), w') /\
    reads_only env w w' /\
    ((status = READ_ERROR /\ expected = None /\ err = None /\ acc = None) \/
     ((status = CAL_OK \/ status = OUT_OF_CONTROL) /\
      expected <> None /\ err <> None /\ acc <> None)).
Proof.
  intros He. unfold evaluate, lift_res, range_entry. unfold bind at 1. rewrite He.
  assert (Hscore : forall expected min_r max_r w',
            reads_only env w w' ->
            exists x err acc status w'',
              (score val expected min_r max_r (factor e), w') = (Ok (x, err, acc, status), w'') /\
              reads_only env w w'' /\
              ((status = READ_ERROR /\ x = None /\ err = None /\ acc = None) \/
               ((status = CAL_OK \/ status = OUT_OF_CONTROL) /\
                x <> None /\ err <> None /\ acc <> None))).
  { intros expected min_r max_r w' Hf.
    destruct (score_ok val expected min_r max_r (factor e)) as (err & acc & st & -> & Hst).
    eexists _, _, _, _, _. split; [reflexivity |]. split; [exact Hf |].
    right. split; [exact Hst |]. repeat split; discriminate. }
  destruct (String.eqb cal_name "N2O ZERO"); [apply Hscore, reads_only_refl |].
  destruct (read_expected_min_max_reads env range_map tag w) as (Hfuel & Hf).
  unfold bind.
  destruct (read_expected_min_max env range_map tag w) as [[[[exp mn] mx] | ex |] w1] eqn:Hrefs;
    cbn [fst snd] in *; [| | contradiction].
  - destruct exp as [expected |], mn as [min_r |], mx as [max_r |];
      try (eexists _, _, _, _, _; split; [reflexivity |]; split; [exact Hf |]; left; auto).
    apply Hscore. exact Hf.
  - exfalso. unfold read_expected_min_max, lift_res, range_entry in Hrefs.
    unfold bind at 1 in Hrefs. rewrite He in Hrefs.
    destruct (read_reference_reads env (exp_reg e) w) as (a & wa & Ha & _).
    unfold bind at 1 in Hrefs. rewrite Ha in Hrefs.
    destruct (read_reference_reads env (min_reg e) wa) as (b & wb & Hb & _).
    unfold bind at 1 in Hrefs. rewrite Hb in Hrefs.
    destruct (read_reference_reads env (max_reg e) wb) as (c & wc & Hc & _).
    unfold bind at 1 in Hrefs. rewrite Hc in Hrefs. discriminate Hrefs.
Qed.

Lemma capture_tag_outcome (env : Env) (cw : CalWorker) (ts : float) (tag : string) (w : World) :
  exists w' rows,
    capture_tag env cw ts tag w = (Ok tt, w') /\
    w_queue w' = w_queue w ++ rows /\ (length rows <= 1)%nat /\
    Forall (cal_row cw ts [tag]) rows /\
    w_threads w' = w_threads w /\ w_committed w' = w_committed w /\
    (w_step w <= w_step w')%nat /\ sleeps w' = sleeps w /\
    (forall mb0, down env mb0 w -> down env mb0 w') /\
    (down env (cw_mb_an cw) w -> rows = []).
Proof.
  unfold capture_tag.
  destruct (cw_range_map cw !! tag) as [e |] eqn:He.
  2:{ exists w, []. rewrite app_nil_r. unfold ret.
      do 3 (split; [first [reflexivity | simpl; lia] |]). split; [constructor |]. auto 10. }
  destruct (read_measured_total env (cw_mb_an cw) (cw_range_map cw) tag e w He)
    as (val & w1 & Hread & F1 & Hdown).
  unfold bind at 1. rewrite Hread.
  destruct val as [val |].
  2:{ exists w1, []. rewrite app_nil_r. unfold ret.
      pose proof (reads_only_sleeps env w w1 F1) as Hs.
      destruct F1 as (Hq & Hth & Hco & Hst & _ & Hd & _).
      do 3 (split; [first [reflexivity | assumption | simpl; lia] |]).
      split; [constructor |]. auto 10. }
  destruct (evaluate_total env tag val (ti_name (cw_info cw)) (cw_range_map cw) e w1 He)
    as (expected & err & acc & status & w2 & Heval & F2 & Hshape).
  unfold bind. rewrite Heval. unfold q_put, modify.
  pose proof (reads_only_trans env _ _ _ F1 F2) as F.
  pose proof (reads_only_sleeps env w w2 F) as Hs.
  destruct F as (Hq & Hth & Hco & Hst & _ & Hd & _).
  eexists _, [_]. split; [reflexivity |].
  cbn [w_queue w_threads w_committed w_step set_queue].
  split; [rewrite Hq; reflexivity |]. split; [simpl; lia |].
  split; [| split; [exact Hth | split; [exact Hco | split; [exact Hst | split; [exact Hs |
           split; [exact Hd | intros H0; discriminate (Hdown H0)]]]]]].
  repeat constructor. exists tag, val, expected, err, acc, status.
  split; [reflexivity |]. split; [left; reflexivity |]. split; [congruence | exact Hshape].
Qed.

Lemma cal_row_tags (cw : CalWorker) (ts : float) (tags tags' : list string) (row : Item) :
  (forall t, In t tags -> In t tags') -> cal_row cw ts tags row -> cal_row cw ts tags' row.
Proof.
  intros Hsub (tag & val & x & err & acc & st & Hrow & Hin & Hmap & Hshape).
  exists tag, val, x, err, acc, st. auto.
Qed.

Lemma capture_cycle_outcome (env : Env) (cw : CalWorker) (ts : float) (tags : list string)
    (w : World) :
  exists w' rows,
    for_each tags (capture_tag env cw ts) w = (Ok tt, w') /\
    w_queue w' = w_queue w ++ rows /\ (length rows <= length tags)%nat /\
    Forall (cal_row cw ts tags) rows /\
    w_threads w' = w_threads w /\ w_committed w' = w_committed w /\
    (w_step w <= w_step w')%nat /\ sleeps w' = sleeps w /\
    (forall mb0, down env mb0 w -> down env mb0 w') /\
    (down env (cw_mb_an cw) w -> rows = []).
Proof.
  revert w. induction tags as [| tag rest IH]; intros w.
  - exists w, []. rewrite app_nil_r. simpl. unfold ret.
    do 3 (split; [first [reflexivity | lia] |]). split; [constructor |]. auto 10.
  - destruct (capture_tag_outcome env cw ts tag w)
      as (w1 & rows1 & Hrun1 & Hq1 & Hlen1 & Hrows1 & Hth1 & Hco1 & Hst1 & Hs1 & Hd1 & Hnone1).
    destruct (IH w1)
      as (w2 & rows2 & Hrun2 & Hq2 & Hlen2 & Hrows2 & Hth2 & Hco2 & Hst2 & Hs2 & Hd2 & Hnone2).
    exists w2, (rows1 ++ rows2). simpl. unfold bind. rewrite Hrun1, Hrun2.
    split; [reflexivity |].
    split; [rewrite Hq2, Hq1, app_assoc; reflexivity |].
    split; [rewrite length_app; simpl; lia |].
    split.
    { apply Forall_app. split.
      - eapply List.Forall_impl; [| exact Hrows1]. intros r. apply cal_row_tags.
        intros t [<- | []]. left. reflexivity.
      - eapply List.Forall_impl; [| exact Hrows2]. intros r. apply cal_row_tags.
        intros t Ht. right. exact Ht. }
    split; [congruence |]. split; [congruence |]. split; [lia |]. split; [congruence |].
    split; [intros mb0 H0; apply Hd2, Hd1; exact H0 |].
    intros H0. rewrite (Hnone1 H0), (Hnone2 (Hd1 _ H0)). reflexivity.
Qed.

(* ===================================================================== *)
(** * SQL writer: batches and failures                                   *)
(* ===================================================================== *)

Lemma arrived_none (env : Env) (a : nat) : arrived env a a = [].
Proof. unfold arrived. rewrite Nat.sub_diag. reflexivity. Qed.

Lemma arrived_first (env : Env) (a b : nat) :
  (a < b)%nat -> arrived env a b = q_arrivals env a ++ arrived env (S a) b.
Proof.
  intros H. unfold arrived. replace (b - a)%nat with (S (b - S a)) by lia. reflexivity.
Qed.

(** The drain takes rows from the head of the queue, in order, and stops
    before its bound only on an empty queue. *)
Lemma drain_fifo (env : Env) (room : nat) (batch : list Item) (w : World) :
  exists taken w',
    drain env room batch w = (Ok (batch ++ taken), w') /\
    (w_step w <= w_step w')%nat /\
    taken ++ w_queue w' = w_queue w ++ arrived env (w_step w) (w_step w') /\
    (length taken <= room)%nat /\
    ((length taken < room)%nat -> w_queue w' = []) /\
    w_io w' = w_io w /\ w_committed w' = w_committed w /\ w_threads w' = w_threads w.
Proof.
  revert batch w. induction room as [| room IH]; intros batch w.
  - exists [], w. simpl. rewrite app_nil_r, arrived_none, app_nil_r. unfold ret.
    repeat split; auto; lia.
  - change (drain env (S room) batch w) with
      (try_except_only is_QueueEmpty
         (let* it := q_get_nowait env in drain env room (batch ++ [it])) (ret batch) w).
    unfold try_except_only. unfold bind at 1. rewrite q_get_nowait_run.
    destruct (w_queue w ++ q_arrivals env (w_step w)) as [| it rest] eqn:Hq.
    + cbn [is_QueueEmpty]. unfold ret. eexists [], _. rewrite app_nil_r.
      split; [reflexivity |]. cbn [w_step w_queue w_io w_committed w_threads set_queue set_step].
      split; [lia |]. split.
      { rewrite (arrived_first env (w_step w) (S (w_step w))) by lia.
        rewrite arrived_none, !app_nil_r, Hq. reflexivity. }
      repeat split; auto; simpl; lia.
    + destruct (IH (batch ++ [it]) (set_queue rest (set_step (S (w_step w)) w)))
        as (taken & w' & Hrun & Hst & Hfifo & Hlen & Hgreedy & Hio & Hco & Hth).
      cbn [w_step w_queue w_io w_committed w_threads set_queue set_step] in *.
      rewrite Hrun. exists (it :: taken), w'.
      split; [rewrite <- app_assoc; reflexivity |]. split; [lia |]. split.
      { rewrite (arrived_first env (w_step w) (w_step w')) by lia.
        rewrite app_assoc, Hq. simpl. rewrite Hfifo. reflexivity. }
      split; [simpl; lia |]. split; [intros H; apply Hgreedy; simpl in H; lia |]. auto.
Qed.

Lemma take_batch_outcome (env : Env) (w : World) :
  exists r w',
    take_batch env w = (Ok r, w') /\
    (w_step w < w_step w')%nat /\
    w_io w' = w_io w ++ [EvQueueWait 1%float] /\
    w_committed w' = w_committed w /\ w_threads w' = w_threads w /\
    match r with
    | Some batch =>
        batch ++ w_queue w' = w_queue w ++ arrived env (w_step w) (w_step w') /\
        (1 <= length batch <= 300)%nat /\
        ((length batch < 300)%nat -> w_queue w' = [])
    | None =>
        w_queue w ++ arrived env (w_step w) (w_step w') = [] /\ w_queue w' = []
    end.
Proof.
  unfold take_batch, try_except_only. unfold bind at 1.
  rewrite q_get_timeout_run, q_get_nowait_run.
  cbn [w_queue w_step set_io].
  destruct (w_queue w ++ q_arrivals env (w_step w)) as [| it rest] eqn:Hq.
  - cbn [is_QueueEmpty]. unfold ret. eexists None, _. split; [reflexivity |].
    cbn [w_step w_queue w_io w_committed w_threads set_queue set_step set_io].
    split; [lia |]. split; [reflexivity |]. split; [reflexivity |]. split; [reflexivity |].
    split; [| reflexivity].
    rewrite (arrived_first env (w_step w) (S (w_step w))) by lia.
    rewrite arrived_none, !app_nil_r. exact Hq.
  - unfold bind.
    match goal with
    | |- context [drain env ?n [it] ?w1] =>
        destruct (drain_fifo env n [it] w1)
          as (taken & w' & Hrun & Hst & Hfifo & Hlen & Hgreedy & Hio & Hco & Hth)
    end.
    cbn [w_step w_queue w_io w_committed w_threads set_queue set_step set_io] in *.
    rewrite Hrun. unfold ret. exists (Some ([it] ++ taken)), w'. split; [reflexivity |].
    split; [lia |]. split; [exact Hio |]. split; [exact Hco |]. split; [exact Hth |].
    change (BATCH_MAX - length [it])%nat with 299%nat in *.
    split; [| split].
    + rewrite (arrived_first env (w_step w) (w_step w')) by lia.
      rewrite app_assoc, Hq. simpl. rewrite Hfifo. reflexivity.
    + simpl. lia.
    + intros H. apply Hgreedy. simpl in H. lia.
Qed.

(** X21. The writer takes its batch from the head of the queue: the batch
    followed by what stays in the queue is the queue as it was followed by
    the rows that arrived meanwhile, in order (no row is lost, duplicated
    or overtaken); a batch has between 1 and 300 rows and is shorter than
    300 only when the queue was emptied; when nothing is queued and
    nothing arrives, the wait ends without a batch.  Taking a batch costs
    one bounded wait and writes nothing. *)
Theorem take_batch_fifo (env : Env) (w : World) :
  exists r w',
    take_batch env w = (Ok r, w') /\
    w_io w' = w_io w ++ [EvQueueWait 1%float] /\
    w_committed w' = w_committed w /\
    match r with
    | Some batch =>
        batch ++ w_queue w' = w_queue w ++ arrived env (w_step w) (w_step w') /\
        (1 <= length batch <= 300)%nat /\
        ((length batch < 300)%nat -> w_queue w' = [])
    | None =>
        w_queue w ++ arrived env (w_step w) (w_step w') = [] /\ w_queue w' = []
    end.
Proof.
  destruct (take_batch_outcome env w) as (r & w' & Hrun & _ & Hio & Hco & _ & Hcase).
  exists r, w'. auto.
Qed.

(** Two rows wait and a third arrives while the first is taken: the batch
    is the three rows in order and the queue is left empty. *)
Lemma take_batch_fifo_witness :
  exists w',
    take_batch (mkEnv clock (fun _ => false) (fun _ _ => Connected)
                  (fun _ _ _ _ => (ErrorReply, true)) (fun _ _ _ _ => (ErrorReply, true))
                  (fun _ _ _ _ => (ErrorReply, true))
                  (fun _ => SinkOk) (fun _ _ => SinkOk) (fun _ => SinkOk)
                  (fun n => if (n =? 1)%nat then [row_a] else []))
      world_two_rows = (Ok (Some [row_a; row_b; row_a]), w') /\
    w_queue w' = [].
Proof.
  match goal with
  | |- exists w', take_batch ?e ?w = _ /\ _ =>
      destruct (take_batch_fifo e w) as (r & w' & Hrun & _ & _ & Hcase);
      assert (Hr : r = Some [row_a; row_b; row_a])
        by (apply (f_equal fst) in Hrun; vm_compute in Hrun; injection Hrun as <-; reflexivity)
  end.
  subst r. exists w'. split; [exact Hrun |].
  apply Hcase. simpl. lia.
Defined.

Lemma SQLWriter_pass_run (env : Env) (s : SQLWriter) (w : World) :
  SQLWriter_pass env (s, w) =
    match SQLWriter_try env (s, w) with
    | (Raise e, (s1, w1)) =>
        if is_PyodbcError e
        then (Ok tt,
              (mkSQLWriter None,
               set_io (w_io w1 ++ match conn s1 with Some _ => [EvDbClose] | None => [] end
                               ++ [EvSleep 5%float]) (set_step (S (w_step w1)) w1)))
        else (Ok tt, (s1, set_io (w_io w1 ++ [EvSleep 1%float]) (set_step (S (w_step w1)) w1)))
    | r => r
    end.
Proof.
  unfold SQLWriter_pass, try_except.
  destruct (SQLWriter_try env (s, w)) as [[[] | e |] [s1 w1]]; try reflexivity.
  destruct (is_PyodbcError e); [apply on_pyodbc_error_run | reflexivity].
Qed.

(** X22. While the database refuses the connection the writer takes nothing
    from the queue: a pass of a writer without connection whose
    [sql_connect] fails ends without a connection, after a sleep of 5 s
    for the database's own error and of 1 s for any other exception; the
    queue and the committed rows are untouched and no wait on the queue
    was made. *)
Theorem writer_connect_failure (env : Env) (w : World) :
  db_connect env (w_step w) <> SinkOk ->
  exists w',
    SQLWriter_pass env (mkSQLWriter None, w) = (Ok tt, (mkSQLWriter None, w')) /\
    w_queue w' = w_queue w /\ w_committed w' = w_committed w /\
    w_io w' = w_io w ++
      [EvDbConnect;
       EvSleep (match db_connect env (w_step w) with SinkError => 5%float | _ => 1%float end)].
Proof.
  intros Hdown. rewrite SQLWriter_pass_run. unfold SQLWriter_try. unfold bind at 1.
  rewrite open_connection_run. cbn [conn].
  destruct (db_connect env (w_step w)); [contradiction | |]; cbv zeta; cbn [is_PyodbcError conn];
    eexists; (split; [reflexivity |]); simpl; rewrite <- ?app_assoc; auto.
Qed.

(** The database refuses the connection with its own error: two rows stay
    queued. *)
Lemma writer_connect_failure_witness :
  exists w',
    SQLWriter_pass (mkEnv clock (fun _ => false) (fun _ _ => Connected)
                      (fun _ _ _ _ => (ErrorReply, true)) (fun _ _ _ _ => (ErrorReply, true))
                      (fun _ _ _ _ => (ErrorReply, true))
                      (fun _ => SinkError) (fun _ _ => SinkOk) (fun _ => SinkOk) (fun _ => []))
      (mkSQLWriter None, world_two_rows) = (Ok tt, (mkSQLWriter None, w')) /\
    w_queue w' = [row_a; row_b] /\ w_committed w' = [] /\
    w_io w' = [EvDbConnect; EvSleep 5%float].
Proof.
  match goal with
  | |- exists w', SQLWriter_pass ?e (_, ?w) = _ /\ _ =>
      destruct (writer_connect_failure e w) as (w' & Hrun & Hq & Hco & Hio);
      [discriminate |]
  end.
  exists w'. auto.
Defined.

(** How far a batch got before a statement failed. *)
Lemma rows_executed_prefix (env : Env) (batch : list Item) (s s' : SQLWriter) (w w' : World)
    (r : Res unit) :
  for_each batch (execute env) (s, w) = (r, (s', w')) ->
  exists done rest, batch = done ++ rest /\
    conn s' = option_map (fun c => mkSqlConn (pending c ++ done)) (conn s).
Proof.
  revert s w. induction batch as [| it tl IH]; intros s w H; simpl in H.
  - injection H as _ <- _. exists [], []. split; [reflexivity |].
    destruct (conn s) as [[p] |]; simpl; [rewrite app_nil_r |]; reflexivity.
  - unfold bind in H. rewrite execute_run in H.
    destruct (db_execute env (w_step w) it).
    + apply IH in H. destruct H as (done & rest & -> & Hc).
      exists (it :: done), rest. split; [reflexivity |]. rewrite Hc. cbn [conn].
      destruct (conn s) as [[p] |]; simpl; [rewrite <- app_assoc |]; reflexivity.
    + injection H as _ <- _. exists [], (it :: tl). split; [reflexivity |].
      destruct (conn s) as [[p] |]; simpl; [rewrite app_nil_r |]; reflexivity.
    + injection H as _ <- _. exists [], (it :: tl). split; [reflexivity |].
      destruct (conn s) as [[p] |]; simpl; [rewrite app_nil_r |]; reflexivity.
Qed.

(** X23. An exception of the batch that is not the database's own error
    takes the other handler: the connection is kept open, the writer
    sleeps 1 s, nothing is committed and no row of the batch goes back to
    the queue; the rows the connection had accepted before the exception
    stay in its open transaction. *)
Theorem writer_unexpected_error (env : Env) (s s1 s3 : SQLWriter) (w w1 w2 w3 : World)
    (batch : list Item) (e : exn) :
  open_connection env (s, w) = (Ok tt, (s1, w1)) ->
  take_batch env w1 = (Ok (Some batch), w2) ->
  flush env batch (s1, w2) = (Raise e, (s3, w3)) ->
  is_PyodbcError e = false ->
  exists w',
    SQLWriter_pass env (s, w) = (Ok tt, (s3, w')) /\
    conn s3 <> None /\
    (exists done rest, batch = done ++ rest /\ pending_rows s3 = pending_rows s1 ++ done) /\
    w_committed w' = w_committed w /\
    w_queue w' = w_queue w2 /\
    w_io w' = w_io w2 ++ [EvSleep 1%float].
Proof.
  intros Hopen Htake Hflush He.
  pose proof (open_connection_run env s w) as Hopen'. rewrite Hopen in Hopen'.
  assert (Hs1 : exists c, conn s1 = Some c /\ w_committed w1 = w_committed w).
  { destruct (conn s) as [c |] eqn:Hc.
    - injection Hopen' as -> ->. eauto.
    - simpl in Hopen'. destruct (db_connect env (w_step w)); try discriminate.
      injection Hopen' as -> ->. simpl. eauto. }
  destruct Hs1 as (c & Hc & Hco1).
  destruct (take_batch_outcome env w1) as (b & w2' & Hrun & _ & _ & Hco2 & _).
  rewrite Htake in Hrun. injection Hrun as <- <-.
  destruct (flush_unit env batch s1 s3 w2 w3 _ c Hc Hflush) as (Hq & Hio & _ & Hconn3 & _ & Hfail).
  assert (Htry : SQLWriter_try env (s, w) = (Raise e, (s3, w3))).
  { unfold SQLWriter_try. unfold bind at 1. rewrite Hopen.
    unfold bind, in_world. simpl. rewrite Htake. exact Hflush. }
  rewrite SQLWriter_pass_run, Htry, He.
  eexists. split; [reflexivity |]. split; [exact Hconn3 |].
  cbn [w_committed w_queue w_io set_io set_step].
  split; [| split; [rewrite Hfail by discriminate; congruence | split; [exact Hq | rewrite Hio; reflexivity]]].
  unfold flush, bind in Hflush.
  destruct (for_each batch (execute env) (s1, w2)) as [[[] | e0 |] [s4 w4]] eqn:Hexec.
  - destruct (rows_executed_prefix env batch s1 s4 w2 w4 _ Hexec) as (done & rest & Hb & Hc4).
    rewrite commit_run in Hflush.
    destruct (db_commit env (w_step w4)); try discriminate Hflush;
      injection Hflush as _ <- _; exists done, rest; (split; [exact Hb |]);
      unfold pending_rows; rewrite Hc4, Hc; reflexivity.
  - destruct (rows_executed_prefix env batch s1 s4 w2 w4 _ Hexec) as (done & rest & Hb & Hc4).
    injection Hflush as _ <- _.
    exists done, rest. split; [exact Hb |]. unfold pending_rows. rewrite Hc4, Hc. reflexivity.
  - discriminate Hflush.
Qed.

(** The second statement of a batch of two raises an exception that is
    not the database's: the first row stays in the open transaction. *)
Lemma writer_unexpected_error_witness :
  exists w',
    SQLWriter_pass (mkEnv clock (fun _ => false) (fun _ _ => Connected)
                      (fun _ _ _ _ => (ErrorReply, true)) (fun _ _ _ _ => (ErrorReply, true))
                      (fun _ _ _ _ => (ErrorReply, true))
                      (fun _ => SinkOk)
                      (fun n _ => if (n =? 5)%nat then SinkUnexpected else SinkOk)
                      (fun _ => SinkOk) (fun _ => []))
      (mkSQLWriter None, world_two_rows)
      = (Ok tt, (mkSQLWriter (Some (mkSqlConn [row_a])), w')) /\
    w_committed w' = [] /\ w_queue w' = [] /\
    w_io w' = [EvDbConnect; EvQueueWait 1%float; EvSleep 1%float].
Proof.
  match goal with
  | |- exists w', SQLWriter_pass ?e _ = _ /\ _ => set (env := e)
  end.
  pose (s1 := mkSQLWriter (Some (mkSqlConn []))).
  pose (w1 := snd (snd (open_connection env (mkSQLWriter None, world_two_rows)))).
  pose (w2 := snd (take_batch env w1)).
  pose (w3 := snd (snd (flush env [row_a; row_b] (s1, w2)))).
  destruct (writer_unexpected_error env (mkSQLWriter None) s1
              (mkSQLWriter (Some (mkSqlConn [row_a]))) world_two_rows w1 w2 w3
              [row_a; row_b] RuntimeError)
    as (w' & Hrun & _ & _ & Hco & Hq & Hio); try (vm_compute; reflexivity).
  exists w'. split; [exact Hrun |]. split; [exact Hco |]. split; [exact Hq | exact Hio].
Defined.

(* ===================================================================== *)
(** * Shutdown                                                           *)
(* ===================================================================== *)

(** A loop of the form [while not stop_event.is_set(): pass], followed by
    [fin], ends once the event is set, when each pass returns and time
    does not go back. *)
Lemma loop_stops {T : Type} (env : Env) (pass fin : M (T * World) unit)
    (run : nat -> M (T * World) unit) (N : nat) :
  (forall fuel s,
     run (S fuel) s =
       (let* stop := in_world (is_set env) in if stop then fin else pass ;; run fuel) s) ->
  (forall s, exists s', pass s = (Ok tt, s') /\ (w_step (snd s) <= w_step (snd s'))%nat) ->
  (forall s, exists s', fin s = (Ok tt, s')) ->
  stopped_from env N ->
  forall fuel s, (N <= w_step (snd s) + fuel)%nat ->
    exists s', run (S fuel) s = (Ok tt, s').
Proof.
  intros Hrun Hpass Hfin Hstop. induction fuel as [| fuel IH]; intros [t w] Hfuel;
    rewrite Hrun; unfold bind at 1; unfold in_world at 1; cbn [fst snd] in *;
    rewrite is_set_run.
  - rewrite (Hstop (w_step w)) by lia. apply Hfin.
  - destruct (stop_is_set env (w_step w)); [apply Hfin |].
    destruct (Hpass (t, set_step (S (w_step w)) w)) as ([t1 w1] & Hp & Hst).
    unfold bind. rewrite Hp. cbn [fst snd w_step set_step] in *.
    apply IH. cbn [snd]. lia.
Qed.









(** ** The writer *)

Lemma rows_executed_moves (env : Env) (batch : list Item) (s s' : SQLWriter) (w w' : World)
    (r : Res unit) :
  for_each batch (execute env) (s, w) = (r, (s', w')) ->
  (w_step w <= w_step w')%nat /\ r <> OutOfFuel.
Proof.
  revert s w. induction batch as [| it rest IH]; intros s w H; simpl in H.
  - injection H as <- _ <-. split; [lia | discriminate].
  - unfold bind in H. rewrite execute_run in H.
    destruct (db_execute env (w_step w) it).
    + apply IH in H. simpl in H. split; [lia | apply H].
    + injection H as <- _ <-. simpl. split; [lia | discriminate].
    + injection H as <- _ <-. simpl. split; [lia | discriminate].
Qed.

Lemma flush_moves (env : Env) (batch : list Item) (s s' : SQLWriter) (w w' : World) (r : Res unit) :
  flush env batch (s, w) = (r, (s', w')) ->
  (w_step w <= w_step w')%nat /\ r <> OutOfFuel.
Proof.
  unfold flush, bind. intros H.
  destruct (for_each batch (execute env) (s, w)) as [[[] | e |] [s1 w1]] eqn:Hexec;
    apply rows_executed_moves in Hexec; destruct Hexec as (Hst & Hfuel).
  - rewrite commit_run in H.
    destruct (db_commit env (w_step w1)); injection H as <- _ <-; simpl;
      (split; [lia | discriminate]).
  - injection H as <- _ <-. auto.
  - contradiction.
Qed.

Lemma SQLWriter_pass_moves (env : Env) (s : SQLWriter * World) :
  exists s', SQLWriter_pass env s = (Ok tt, s') /\ (w_step (snd s) <= w_step (snd s'))%nat.
Proof.
  destruct s as [s w]. rewrite SQLWriter_pass_run. cbn [snd].
  assert (Htry : exists r s1 w1, SQLWriter_try env (s, w) = (r, (s1, w1)) /\
                   r <> OutOfFuel /\ (w_step w <= w_step w1)%nat).
  { unfold SQLWriter_try. unfold bind at 1. rewrite open_connection_run.
    assert (Hrest : forall s0 w0, (w_step w <= w_step w0)%nat ->
              exists r s1 w1,
                (let* batch := in_world (take_batch env) in
                 match batch with
                 | Some b => flush env b
                 | None => ret tt
                 end) (s0, w0) = (r, (s1, w1)) /\
                r <> OutOfFuel /\ (w_step w <= w_step w1)%nat).
    { intros s0 w0 H0. unfold bind, in_world. cbn [fst snd].
      destruct (take_batch_outcome env w0) as (b & w2 & Hrun & Hst & _). rewrite Hrun.
      destruct b as [batch |].
      - destruct (flush env batch (s0, w2)) as [r [s3 w3]] eqn:Hflush.
        apply flush_moves in Hflush. exists r, s3, w3.
        split; [reflexivity |]. split; [apply Hflush | lia].
      - unfold ret. eexists _, _, _. split; [reflexivity |]. split; [discriminate | lia]. }
    destruct (conn s); [apply Hrest; lia |].
    cbv zeta. destruct (db_connect env (w_step w)).
    - apply Hrest. simpl. lia.
    - eexists _, _, _. split; [reflexivity |]. split; [discriminate | simpl; lia].
    - eexists _, _, _. split; [reflexivity |]. split; [discriminate | simpl; lia]. }
  destruct Htry as (r & s1 & w1 & -> & Hfuel & Hst).
  destruct r as [[] | e |]; [| | contradiction].
  - eexists. split; [reflexivity |]. exact Hst.
  - destruct (is_PyodbcError e); eexists; (split; [reflexivity |]); simpl; lia.
Qed.

(** X25. Once the stop event is set, and stays set, the writer ends: with
    fuel for the instants left until the event, [run] returns.  When it
    sees the event set it closes its connection, if it has one, and
    returns at once: the rows still queued are left in the queue and
    nothing more is committed. *)
Theorem writer_stops_on_shutdown (env : Env) (N fuel : nat) (s : SQLWriter) (w : World) :
  stopped_from env N -> (N <= w_step w + fuel)%nat ->
  (exists s', SQLWriter_run env (S fuel) (s, w) = (Ok tt, s')) /\
  (stop_is_set env (w_step w) = true ->
   SQLWriter_run env (S fuel) (s, w) =
     (Ok tt,
      (s, set_io (w_io w ++ match conn s with Some _ => [EvDbClose] | None => [] end)
            (set_step (S (w_step w)) w)))).
Proof.
  intros Hstop Hfuel. split.
  - apply (loop_stops env (SQLWriter_pass env)
             (let* s0 := self in
              match conn s0 with
              | Some _ => in_world (log_io EvDbClose)
              | None => ret tt
              end) (SQLWriter_run env) N); auto.
    + apply SQLWriter_pass_moves.
    + intros [s0 w0]. unfold bind, self, gets. cbn [fst snd].
      destruct (conn s0); eexists; reflexivity.
  - intros Hnow. cbn [SQLWriter_run]. unfold bind at 1. unfold in_world at 1. cbn [fst snd].
    rewrite is_set_run, Hnow. unfold bind, self, gets. cbn [fst snd].
    destruct (conn s); [reflexivity |].
    unfold ret. rewrite app_nil_r. destruct w; reflexivity.
Qed.

(** The event is set when the writer polls it: the connection is closed,
    the two rows stay queued. *)
Lemma writer_stops_on_shutdown_witness :
  SQLWriter_run (mkEnv clock (fun _ => true) (fun _ _ => Connected)
                   (fun _ _ _ _ => (ErrorReply, true)) (fun _ _ _ _ => (ErrorReply, true))
                   (fun _ _ _ _ => (ErrorReply, true))
                   (fun _ => SinkOk) (fun _ _ => SinkOk) (fun _ => SinkOk) (fun _ => []))
    1 (mkSQLWriter (Some (mkSqlConn [])), world_two_rows)
  = (Ok tt, (mkSQLWriter (Some (mkSqlConn [])),
             set_io [EvDbClose] (set_step 1 world_two_rows))).
Proof.
  match goal with
  | |- SQLWriter_run ?e _ _ = _ => set (env := e)
  end.
  destruct (writer_stops_on_shutdown env 0 0 (mkSQLWriter (Some (mkSqlConn []))) world_two_rows)
    as (_ & Hnow); [intros k _; reflexivity | simpl; lia |].
  exact (Hnow eq_refl).
Defined.

(** ** A calibration worker *)





(* ===================================================================== *)
(** * Historian: a pass in terms of what it read                         *)
(* ===================================================================== *)

Lemma read_each_length {A B : Type} (f : A -> M World B) (xs : list A) (w w' : World)
    (bs : list B) :
  read_each f xs w = (Ok bs, w') -> length bs = length xs.
Proof.
  revert w w' bs. induction xs as [| x xs IH]; intros w w' bs H; simpl in H.
  - injection H as <- _. reflexivity.
  - apply bind_ok_inv in H. destruct H as (b & w1 & _ & H).
    apply bind_ok_inv in H. destruct H as (bs' & w2 & Hrest & H).
    injection H as <- _. simpl. f_equal. eapply IH. exact Hrest.
Qed.

(** [active_modes] reads every bit, in order, and keeps the names of
    those that read true. *)
Lemma active_modes_readings (env : Env) (bits : list (Z * string)) (w : World) :
  active_modes env bits w =
    match read_each (read_bit_status env) (map fst bits) w with
    | (Ok bs, w') => (Ok (actives bits bs), w')
    | (Raise e, w') => (Raise e, w')
    | (OutOfFuel, w') => (OutOfFuel, w')
    end.
Proof.
  revert w. induction bits as [| [addr name] rest IH]; intros w; [reflexivity |].
  cbn [active_modes map fst read_each]. unfold bind, ret.
  destruct (read_bit_status env addr w) as [[b | e |] w1]; try reflexivity.
  rewrite IH.
  destruct (read_each (read_bit_status env) (map fst rest) w1) as [[bs | e |] w2];
    reflexivity.
Qed.

Lemma actives_first (bits : list (Z * string)) (bs : list (option bool)) :
  first_active bits bs = head (actives bits bs).
Proof.
  revert bs. induction bits as [| [addr name] rest IH]; intros [| b bs]; try reflexivity.
  simpl. destruct b as [[|] |]; auto.
Qed.

(** [_is_calibration] in terms of the readings of the four bits. *)
Lemma is_calibration_readings (env : Env) (w : World) :
  _is_calibration env w =
    match read_each (read_bit_status env) (map fst CAL_BITS) w with
    | (Ok bs, w') =>
        (Ok (match first_active CAL_BITS bs with
             | Some mode => (mode, 1)
             | None => ("ANALYZER IDLE", 0)
             end), w')
    | (Raise e, w') => (Raise e, w')
    | (OutOfFuel, w') => (OutOfFuel, w')
    end.
Proof.
  unfold _is_calibration, bind. rewrite active_modes_readings.
  destruct (read_each (read_bit_status env) (map fst CAL_BITS) w) as [[bs | e |] w'];
    try reflexivity.
  rewrite actives_first. destruct (actives CAL_BITS bs); reflexivity.
Qed.

(** The first active trigger: its place in the list, and the readings
    before it. *)
Lemma first_active_place (bits : list (Z * string)) (bs : list (option bool)) (mode : string) :
  first_active bits bs = Some mode ->
  exists (i : nat) (addr : Z),
    nth_error bits i = Some (addr, mode) /\ nth_error bs i = Some (Some true) /\
    forall j, (j < i)%nat -> nth_error bs j <> Some (Some true).
Proof.
  revert bs. induction bits as [| [addr name] rest IH]; intros [| b bs] H; try discriminate.
  simpl in H. destruct b as [[|] |].
  - injection H as <-. exists 0%nat, addr. repeat split; auto. intros j Hj. lia.
  - destruct (IH bs H) as (i & a & Hb & Hr & Hfirst). exists (S i), a.
    repeat split; auto. intros [| j] Hj; [discriminate | apply Hfirst; lia].
  - destruct (IH bs H) as (i & a & Hb & Hr & Hfirst). exists (S i), a.
    repeat split; auto. intros [| j] Hj; [discriminate | apply Hfirst; lia].
Qed.

Lemma first_active_some (bits : list (Z * string)) (bs : list (option bool)) :
  length bs = length bits -> In (Some true) bs -> exists mode, first_active bits bs = Some mode.
Proof.
  revert bs. induction bits as [| [addr name] rest IH]; intros [| b bs] Hlen Hin;
    try discriminate; try contradiction.
  simpl. destruct b as [[|] |]; [eauto | |].
  - apply IH; [simpl in Hlen; lia |]. destruct Hin as [H | H]; [discriminate | exact H].
  - apply IH; [simpl in Hlen; lia |]. destruct Hin as [H | H]; [discriminate | exact H].
Qed.

Lemma first_active_none (bits : list (Z * string)) (bs : list (option bool)) :
  length bs = length bits -> first_active bits bs = None -> ~ In (Some true) bs.
Proof.
  intros Hlen Hnone Hin. destruct (first_active_some bits bs Hlen Hin) as (m & Hm). congruence.
Qed.

Lemma first_active_name (bits : list (Z * string)) (bs : list (option bool)) (mode : string) :
  first_active bits bs = Some mode -> In mode (map snd bits).
Proof.
  intros H. destruct (first_active_place bits bs mode H) as (i & addr & Hb & _).
  apply nth_error_In in Hb. apply (in_map snd) in Hb. exact Hb.
Qed.

(** A reading of the list is a reading made by [read_bit_status] inside
    the window of the call: the bit the status device delivered then. *)
Lemma read_each_source (env : Env) (addrs : list Z) (w w' : World) (bs : list (option bool))
    (i : nat) (addr : Z) (b : bool) :
  read_each (read_bit_status env) addrs w = (Ok bs, w') ->
  nth_error addrs i = Some addr -> nth_error bs i = Some (Some b) ->
  exists n rest, (w_step w <= n < w_step w')%nat /\
    fst (mb_discrete env MB_STATUS addr 1 n) = Values (b :: rest).
Proof.
  revert w bs i. induction addrs as [| a addrs IH]; intros w bs i H Ha Hb.
  - destruct i; discriminate.
  - simpl in H. apply bind_ok_inv in H. destruct H as (b0 & w1 & Hread & H).
    apply bind_ok_inv in H. destruct H as (bs' & w2 & Hrest & H).
    injection H as <- <-.
    assert (Hst1 : (w_step w <= w_step w1)%nat).
    { pose proof (read_bit_status_reads env a w) as (_ & Hr). rewrite Hread in Hr.
      apply Hr. }
    assert (Hst2 : (w_step w1 <= w_step w2)%nat).
    { clear - Hrest. revert w1 bs' Hrest.
      induction addrs as [| a' addrs IH']; intros w1 bs' Hrest; simpl in Hrest.
      - injection Hrest as _ <-. lia.
      - apply bind_ok_inv in Hrest. destruct Hrest as (b1 & w3 & Hread & H).
        apply bind_ok_inv in H. destruct H as (bs'' & w4 & Hrest & H).
        injection H as _ <-.
        pose proof (read_bit_status_reads env a' w1) as (_ & Hr). rewrite Hread in Hr.
        destruct Hr as (_ & _ & _ & Hst & _). cbn [snd] in Hst.
        specialize (IH' _ _ Hrest). lia. }
    destruct i as [| i].
    + injection Ha as ->. injection Hb as ->.
      destruct (read_bit_status_source env addr w w1 b Hread) as (n & rest & Hn & Hd).
      exists n, rest. split; [lia | exact Hd].
    + destruct (IH w1 bs' i Hrest Ha Hb) as (n & rest & Hn & Hd).
      exists n, rest. split; [lia | exact Hd].
Qed.

(** ** The minima of a sample *)

Lemma minimum_at_run (env : Env) (mins : gmap Z MinCfg) (idx : Z) (w : World) :
  minimum_at env mins idx w =
    match mins !! idx with
    | None => (Ok None, w)
    | Some cfg =>
        get_float_holding env (mc_reg cfg) (default RANGE_HOLDING_ORDER_DEFAULT (mc_order cfg)) w
    end.
Proof. unfold minimum_at. destruct (mins !! idx); reflexivity. Qed.

Lemma read_each_cons {A B : Type} (f : A -> M World B) (x : A) (xs : list A) (w : World) :
  read_each f (x :: xs) w =
    match f x w with
    | (Ok b, w1) =>
        match read_each f xs w1 with
        | (Ok bs, w2) => (Ok (b :: bs), w2)
        | (Raise e, w2) => (Raise e, w2)
        | (OutOfFuel, w2) => (OutOfFuel, w2)
        end
    | (Raise e, w1) => (Raise e, w1)
    | (OutOfFuel, w1) => (OutOfFuel, w1)
    end.
Proof.
  cbn [read_each]. unfold bind, ret.
  destruct (f x w) as [[b | e |] w1]; try reflexivity;
    destruct (read_each f xs w1) as [[bs | e |] w2]; reflexivity.
Qed.

Lemma invalid_from_cons (env : Env) (mins : gmap Z MinCfg) (idx : Z) (v : option float)
    (rest : list (option float)) (w : World) :
  invalid_from env mins idx (v :: rest) w =
    match minimum_at env mins idx w with
    | (Ok None, w1) => invalid_from env mins (idx + 1) rest w1
    | (Ok (Some mn), w1) =>
        match v with
        | None => (Raise TypeError, w1)
        | Some x =>
            if PrimFloat.ltb x mn then (Ok true, w1)
            else invalid_from env mins (idx + 1) rest w1
        end
    | (Raise e, w1) => (Raise e, w1)
    | (OutOfFuel, w1) => (OutOfFuel, w1)
    end.
Proof.
  cbn [invalid_from]. rewrite minimum_at_run.
  destruct (mins !! idx) as [cfg |]; [| reflexivity].
  unfold bind.
  destruct (get_float_holding env (mc_reg cfg)
              (default RANGE_HOLDING_ORDER_DEFAULT (mc_order cfg)) w) as [[[mn |] | e |] w1];
    try reflexivity;
    destruct v as [x |]; try reflexivity;
    destruct (PrimFloat.ltb x mn); reflexivity.
Qed.

(** Every value passes the check against the minimum the cache gives for
    its position: the answer is [False]. *)
Lemma invalid_from_passes (env : Env) (mins : gmap Z MinCfg) (values : list (option float))
    (idx : Z) (w w' : World) (mns : list (option float)) :
  read_each (minimum_at env mins) (positions idx (length values)) w = (Ok mns, w') ->
  Forall2 passes values mns ->
  invalid_from env mins idx values w = (Ok false, w').
Proof.
  revert idx w mns. induction values as [| v rest IH]; intros idx w mns Hread Hpass.
  - simpl in Hread. injection Hread as _ <-. reflexivity.
  - cbn [length positions] in Hread. rewrite read_each_cons in Hread.
    rewrite invalid_from_cons.
    destruct (minimum_at env mins idx w) as [[mn | e |] w1]; try discriminate.
    destruct (read_each (minimum_at env mins) (positions (idx + 1) (length rest)) w1)
      as [[bs | e |] w2] eqn:Hrest; try discriminate.
    injection Hread as <- <-.
    inversion Hpass as [| v0 m0 rest0 mns0 Hv Hrestp]; subst.
    destruct mn as [m |].
    + destruct Hv as (x & -> & Hx). rewrite Hx. eapply IH; eauto.
    + eapply IH; eauto.
Qed.

(** The values before position [k] pass and the value at [k] is below the
    minimum the cache gives for it: the answer is [True], and no minimum
    is asked for after that one. *)
Lemma invalid_from_below (env : Env) (mins : gmap Z MinCfg) (k : nat) :
  forall (values : list (option float)) (idx : Z) (w w' : World) (mns : list (option float))
         (v mn : float),
    read_each (minimum_at env mins) (positions idx (S k)) w = (Ok (mns ++ [Some mn]), w') ->
    Forall2 passes (firstn k values) mns ->
    nth_error values k = Some (Some v) -> PrimFloat.ltb v mn = true ->
    invalid_from env mins idx values w = (Ok true, w').
Proof.
  induction k as [| k IH]; intros values idx w w' mns v mn Hread Hpass Hv Hlt.
  - destruct values as [| v0 rest]; [discriminate |]. injection Hv as ->.
    simpl in Hpass. inversion Hpass; subst.
    cbn [positions] in Hread. rewrite read_each_cons in Hread. rewrite invalid_from_cons.
    destruct (minimum_at env mins idx w) as [[m0 | e |] w1]; try discriminate.
    simpl in Hread. injection Hread as -> <-. rewrite Hlt. reflexivity.
  - destruct values as [| v0 rest]; [discriminate |]. simpl in Hv.
    cbn [firstn] in Hpass. inversion Hpass as [| v1 m0 rest0 mns0 Hv0 Hrestp]; subst.
    change (positions idx (S (S k))) with (idx :: positions (idx + 1) (S k)) in Hread.
    rewrite read_each_cons in Hread. rewrite invalid_from_cons.
    destruct (minimum_at env mins idx w) as [[m1 | e |] w1]; try discriminate.
    destruct (read_each (minimum_at env mins) (positions (idx + 1) (S k)) w1)
      as [[bs | e |] w2] eqn:Hrest; try discriminate.
    simpl in Hread. injection Hread as -> -> <-.
    destruct m0 as [m |].
    + destruct Hv0 as (x & -> & Hx). rewrite Hx. eapply IH; eauto.
    + eapply IH; eauto.
Qed.

(** Conversely: what the answer of [invalid_from] tells about the minima
    that were asked for. *)
Lemma invalid_from_false_inv (env : Env) (mins : gmap Z MinCfg) (values : list (option float))
    (idx : Z) (w w' : World) :
  invalid_from env mins idx values w = (Ok false, w') ->
  exists mns,
    read_each (minimum_at env mins) (positions idx (length values)) w = (Ok mns, w') /\
    Forall2 passes values mns.
Proof.
  revert idx w. induction values as [| v rest IH]; intros idx w H.
  - simpl in H. injection H as <-. exists []. split; [reflexivity | constructor].
  - rewrite invalid_from_cons in H. cbn [length positions]. rewrite read_each_cons.
    destruct (minimum_at env mins idx w) as [[[m |] | e |] w1]; try discriminate.
    + destruct v as [x |]; [| discriminate].
      destruct (PrimFloat.ltb x m) eqn:Hx; [discriminate |].
      destruct (IH _ _ H) as (mns & -> & Hp). exists (Some m :: mns).
      split; [reflexivity |]. constructor; [exists x; auto | exact Hp].
    + destruct (IH _ _ H) as (mns & -> & Hp). exists (None :: mns).
      split; [reflexivity |]. constructor; [exact I | exact Hp].
Qed.

Lemma invalid_from_true_inv (env : Env) (mins : gmap Z MinCfg) (values : list (option float))
    (idx : Z) (w w' : World) :
  invalid_from env mins idx values w = (Ok true, w') ->
  exists (k : nat) (v mn : float) (mns : list (option float)),
    read_each (minimum_at env mins) (positions idx (S k)) w = (Ok (mns ++ [Some mn]), w') /\
    Forall2 passes (firstn k values) mns /\
    nth_error values k = Some (Some v) /\ PrimFloat.ltb v mn = true.
Proof.
  revert idx w. induction values as [| v rest IH]; intros idx w H.
  - simpl in H. discriminate.
  - rewrite invalid_from_cons in H.
    destruct (minimum_at env mins idx w) as [[[m |] | e |] w1] eqn:Hmin; try discriminate.
    + destruct v as [x |]; [| discriminate].
      destruct (PrimFloat.ltb x m) eqn:Hx.
      * injection H as <-. exists 0%nat, x, m, [].
        cbn [positions]. rewrite read_each_cons, Hmin. simpl.
        split; [reflexivity |]. split; [constructor |]. split; [reflexivity | exact Hx].
      * destruct (IH _ _ H) as (k & v' & mn & mns & Hread & Hp & Hv & Hlt).
        exists (S k), v', mn, (Some m :: mns).
        change (positions idx (S (S k))) with (idx :: positions (idx + 1) (S k)).
        rewrite read_each_cons, Hmin, Hread. simpl.
        split; [reflexivity |]. split; [constructor; [exists x; auto | exact Hp] |].
        split; [exact Hv | exact Hlt].
    + destruct (IH _ _ H) as (k & v' & mn & mns & Hread & Hp & Hv & Hlt).
      exists (S k), v', mn, (None :: mns).
      change (positions idx (S (S k))) with (idx :: positions (idx + 1) (S k)).
      rewrite read_each_cons, Hmin, Hread. simpl.
      split; [reflexivity |]. split; [constructor; [exact I | exact Hp] |].
      split; [exact Hv | exact Hlt].
Qed.

Lemma pad_to_fits {A : Type} (n : nat) (l : list (option A)) : length (pad_to n l) = n.
Proof.
  unfold pad_to. rewrite length_firstn, length_app, repeat_length. lia.
Qed.

(** ** A tick in terms of its readings *)

Lemma calibration_mode_not_idle (bs : list (option bool)) (mode : string) :
  first_active CAL_BITS bs = Some mode -> String.eqb mode "ANALYZER IDLE" = false.
Proof.
  intros H. apply first_active_name in H. simpl in H.
  destruct H as [<- | [<- | [<- | [<- | []]]]]; reflexivity.
Qed.

(** What a pass reads before it decides, bit by bit. *)
Lemma Historian_inputs_readings (env : Env) (h : Historian) (w wa wb wc wd : World)
    (flow : float) (bs : list (option bool)) (level_mode : string) (live : option (list float)) :
  read_flow env w = (Ok flow, wa) ->
  read_each (read_bit_status env) (map fst CAL_BITS) wa = (Ok bs, wb) ->
  _level_mode env wb = (Ok level_mode, wc) ->
  read_block_input env (mb_an h) (live_regs h) wc = (Ok live, wd) ->
  Historian_inputs env h w =
    (Ok (flow,
         match first_active CAL_BITS bs with
         | Some mode => (mode, 1)
         | None => ("ANALYZER IDLE", 0)
         end, level_mode, live), wd).
Proof.
  intros Hflow Hbits Hlevel Hlive.
  rewrite Historian_inputs_run, Hflow, is_calibration_readings, Hbits, Hlevel, Hlive.
  reflexivity.
Qed.

(** And back: a pass that got as far as its decision has made these
    readings. *)
Lemma Historian_inputs_inv (env : Env) (h : Historian) (w wd : World) (flow : float)
    (cal : string * Z) (level_mode : string) (live : option (list float)) :
  Historian_inputs env h w = (Ok (flow, cal, level_mode, live), wd) ->
  exists bs wa wb wc,
    read_flow env w = (Ok flow, wa) /\
    read_each (read_bit_status env) (map fst CAL_BITS) wa = (Ok bs, wb) /\
    _level_mode env wb = (Ok level_mode, wc) /\
    read_block_input env (mb_an h) (live_regs h) wc = (Ok live, wd) /\
    cal = match first_active CAL_BITS bs with
          | Some mode => (mode, 1)
          | None => ("ANALYZER IDLE", 0)
          end.
Proof.
  rewrite Historian_inputs_run.
  destruct (read_flow env w) as [[flow0 | e |] wa] eqn:Hflow; try discriminate.
  rewrite is_calibration_readings.
  destruct (read_each (read_bit_status env) (map fst CAL_BITS) wa) as [[bs | e |] wb] eqn:Hbits;
    try discriminate.
  destruct (_level_mode env wb) as [[lv | e |] wc] eqn:Hlevel; try discriminate.
  destruct (read_block_input env (mb_an h) (live_regs h) wc) as [[live0 | e |] wd0] eqn:Hlive;
    try discriminate.
  intros [= <- <- <- <- <-]. exists bs, wa, wb, wc.
  split; [reflexivity |]. split; [exact Hbits |]. split; [exact Hlevel |].
  split; [exact Hlive | reflexivity].
Qed.

Lemma no_reading_true (bs : list (option bool)) :
  length bs = length CAL_BITS ->
  (~ In (Some true) bs <-> first_active CAL_BITS bs = None).
Proof.
  intros Hlen. split.
  - intros Hno. destruct (first_active CAL_BITS bs) as [mode |] eqn:Hfirst; [| reflexivity].
    destruct (first_active_place _ _ _ Hfirst) as (i & addr & _ & Hi & _).
    apply nth_error_In in Hi. contradiction.
  - apply first_active_none. exact Hlen.
Qed.

Lemma trigger_readings_length (env : Env) (w w' : World) (bs : list (option bool)) :
  read_each (read_bit_status env) (map fst CAL_BITS) w = (Ok bs, w') ->
  length bs = length CAL_BITS.
Proof. intros H. apply read_each_length in H. rewrite H. apply length_map. Qed.

(** C2, as the code has it.  Over one pass of a historian, [last_good]
    either stays as it was or becomes the values just read, and the latter
    only when the live read succeeded, none of the four calibration
    triggers read true and every value passed the check against the
    minimum the range cache gave for its position (a position whose
    minimum the cache could not give passes).  In terms of what the pass
    read: when the live read fails the record is OFFLINE and carries the
    unchanged [last_good]; when a calibration trigger reads true the
    record carries the unchanged [last_good]; when no trigger reads true
    and every value passes, [last_good] becomes exactly the values read;
    when no trigger reads true and a value is below the minimum the cache
    gave for it, the record is INVALID and [last_good] is unchanged. *)
Theorem historian_last_good (env : Env) (h : Historian) (w : World) :
  let h' := fst (snd (Historian_pass env (h, w))) in
  let fit := fun vals : list float => pad_to (val_count h) (map Some vals) in
  let triggers := read_each (read_bit_status env) (map fst CAL_BITS) in
  let minima := fun k : nat => read_each (minimum_at env (min_map h)) (positions 1 k) in
  (last_good h' = last_good h \/
   exists flow bs level_mode vals mns wa wb wc wd we,
     read_flow env w = (Ok flow, wa) /\
     triggers wa = (Ok bs, wb) /\ ~ In (Some true) bs /\
     _level_mode env wb = (Ok level_mode, wc) /\
     read_block_input env (mb_an h) (live_regs h) wc = (Ok (Some vals), wd) /\
     minima (val_count h) wd = (Ok mns, we) /\ Forall2 passes (fit vals) mns /\
     last_good h' = fit vals) /\
  (forall flow bs level_mode live wa wb wc wd,
     read_flow env w = (Ok flow, wa) ->
     triggers wa = (Ok bs, wb) ->
     _level_mode env wb = (Ok level_mode, wc) ->
     read_block_input env (mb_an h) (live_regs h) wc = (Ok live, wd) ->
     (live = None ->
      last_good h' = last_good h /\
      Historian_sample env (h, w) =
        emitted env h wd flow "ANALYZER OFFLINE" level_mode 0 (last_good h)) /\
     (forall vals, live = Some vals -> In (Some true) bs ->
      last_good h' = last_good h /\
      exists mode, first_active CAL_BITS bs = Some mode /\
        Historian_sample env (h, w) = emitted env h wd flow mode level_mode 1 (last_good h)) /\
     (forall vals mns we, live = Some vals -> ~ In (Some true) bs ->
      minima (val_count h) wd = (Ok mns, we) -> Forall2 passes (fit vals) mns ->
      last_good h' = fit vals /\
      (length (live_regs h) = val_count h -> last_good h' = map Some vals) /\
      Historian_sample env (h, w) =
        emitted env (set_last_good (fit vals) h) we flow "ANALYZER IDLE" level_mode 0 (fit vals)) /\
     (forall vals k v mn mns we, live = Some vals -> ~ In (Some true) bs ->
      minima (S k) wd = (Ok (mns ++ [Some mn]), we) ->
      Forall2 passes (firstn k (fit vals)) mns ->
      nth_error (fit vals) k = Some (Some v) -> PrimFloat.ltb v mn = true ->
      last_good h' = last_good h /\
      Historian_sample env (h, w) =
        emitted env h we flow "ANALYZER INVALID" level_mode 0 (fit vals))).
Proof.
  intros h' fit triggers minima. subst h' triggers minima. rewrite Historian_pass_last_good.
  pose proof (Historian_sample_run env h w) as Hrun.
  split.
  - destruct (Historian_inputs env h w) as [[[[[flow cal] lv] live] | e |] wd] eqn:Hin;
      try (rewrite Hrun; left; reflexivity).
    destruct (Historian_inputs_inv env h w wd flow cal lv live Hin)
      as (bs & wa & wb & wc & Hflow & Hbits & Hlevel & Hlive & ->).
    destruct live as [vals |]; [| destruct (first_active CAL_BITS bs); rewrite Hrun; left; reflexivity].
    destruct (first_active CAL_BITS bs) as [mode |] eqn:Hfirst.
    + simpl in Hrun. rewrite (calibration_mode_not_idle bs mode Hfirst) in Hrun.
      rewrite Hrun. left. reflexivity.
    + simpl in Hrun. fold (fit vals) in Hrun.
      destruct (invalid_from env (min_map h) 1 (fit vals) wd) as [[[|] | e |] we] eqn:Hinv;
        try (rewrite Hrun; left; reflexivity).
      right. apply invalid_from_false_inv in Hinv. destruct Hinv as (mns & Hmin & Hpass).
      unfold fit in Hmin at 1. rewrite pad_to_fits in Hmin.
      exists flow, bs, lv, vals, mns, wa, wb, wc, wd, we.
      split; [exact Hflow |]. split; [exact Hbits |].
      split; [apply no_reading_true; [eapply trigger_readings_length; exact Hbits | exact Hfirst] |].
      split; [exact Hlevel |]. split; [exact Hlive |]. split; [exact Hmin |].
      split; [exact Hpass |]. rewrite Hrun. reflexivity.
  - intros flow bs lv live wa wb wc wd Hflow Hbits Hlevel Hlive.
    pose proof (Historian_inputs_readings env h w wa wb wc wd flow bs lv live
                  Hflow Hbits Hlevel Hlive) as Hin.
    pose proof (trigger_readings_length env wa wb bs Hbits) as Hlen.
    rewrite Hin in Hrun. clear Hin.
    split; [| split; [| split]].
    + intros ->. destruct (first_active CAL_BITS bs); rewrite Hrun; auto.
    + intros vals -> Hsome.
      destruct (first_active_some CAL_BITS bs Hlen Hsome) as (mode & Hfirst).
      rewrite Hfirst in Hrun. simpl in Hrun.
      rewrite (calibration_mode_not_idle bs mode Hfirst) in Hrun.
      rewrite Hrun. split; [reflexivity |]. exists mode. auto.
    + intros vals mns we -> Hnone Hmin Hpass.
      apply (no_reading_true bs Hlen) in Hnone. rewrite Hnone in Hrun. simpl in Hrun.
      fold (fit vals) in Hrun.
      rewrite (invalid_from_passes env (min_map h) (fit vals) 1 wd we mns) in Hrun;
        [| unfold fit at 1; rewrite pad_to_fits; exact Hmin | exact Hpass].
      rewrite Hrun. split; [reflexivity |]. split; [| reflexivity].
      intros Hfits. simpl. unfold fit. apply pad_to_exact.
      rewrite length_map, <- Hfits. eapply read_block_input_length. exact Hlive.
    + intros vals k v mn mns we -> Hnone Hmin Hpass Hv Hlt.
      apply (no_reading_true bs Hlen) in Hnone. rewrite Hnone in Hrun. simpl in Hrun.
      fold (fit vals) in Hrun.
      rewrite (invalid_from_below env (min_map h) k (fit vals) 1 wd we mns v mn
                 Hmin Hpass Hv Hlt) in Hrun.
      rewrite Hrun. split; reflexivity.
Qed.

(** Scenario D (5.0 read against a minimum of 10.0 that the cache gives),
    scenario C (the analyzer is unreachable) and a valid first sample
    whose three values pass against minima of 20.0. *)
Lemma historian_last_good_witness :
  last_good (fst (snd (Historian_pass env_below_min (hist1_at_20, initial_world)))) =
    [Some 20%float; Some 20%float; Some 20%float] /\
  last_good (fst (snd (Historian_pass env_refused (hist1_at_20, initial_world)))) =
    [Some 20%float; Some 20%float; Some 20%float] /\
  last_good (fst (snd (Historian_pass env_idle (hist1, initial_world)))) =
    [Some 20%float; Some 20%float; Some 20%float].
Proof.
  assert (Hno : ~ In (Some true) [Some false; Some false; Some false; Some false])
    by (intros [H | [H | [H | [H | []]]]]; discriminate).
  split; [| split].
  - pose (e := env_below_min).
    pose (wa := snd (read_flow e initial_world)).
    pose (wb := snd (read_each (read_bit_status e) (map fst CAL_BITS) wa)).
    pose (wc := snd (_level_mode e wb)).
    pose (wd := snd (read_block_input e MB_AN1 AN1_LIVE_REGS wc)).
    pose (we := snd (minimum_at e AN1_MIN_MAP 1 wd)).
    assert (Hflow : read_flow e initial_world = (Ok 0%float, wa)) by (vm_compute; reflexivity).
    assert (Hbits : read_each (read_bit_status e) (map fst CAL_BITS) wa =
                      (Ok [Some false; Some false; Some false; Some false], wb))
      by (vm_compute; reflexivity).
    assert (Hlevel : _level_mode e wb = (Ok "LEVEL IDLE", wc)) by (vm_compute; reflexivity).
    assert (Hlive : read_block_input e (mb_an hist1_at_20) (live_regs hist1_at_20) wc =
                      (Ok (Some [5%float; 5%float; 5%float]), wd))
      by (vm_compute; reflexivity).
    assert (Hmin : read_each (minimum_at e (min_map hist1_at_20)) (positions 1 1) wd =
                     (Ok ([] ++ [Some 10%float]), we))
      by (vm_compute; reflexivity).
    destruct (historian_last_good e hist1_at_20 initial_world) as (_ & Hdecides).
    destruct (Hdecides _ _ _ _ _ _ _ _ Hflow Hbits Hlevel Hlive) as (_ & _ & _ & Hinvalid).
    refine (proj1 (Hinvalid _ 0%nat 5%float 10%float [] we eq_refl Hno Hmin _ _ _)).
    + constructor.
    + reflexivity.
    + vm_compute. reflexivity.
  - pose (e := env_refused).
    pose (wa := snd (read_flow e initial_world)).
    pose (wb := snd (read_each (read_bit_status e) (map fst CAL_BITS) wa)).
    pose (wc := snd (_level_mode e wb)).
    pose (wd := snd (read_block_input e MB_AN1 AN1_LIVE_REGS wc)).
    assert (Hflow : read_flow e initial_world = (Ok 0%float, wa)) by (vm_compute; reflexivity).
    assert (Hbits : read_each (read_bit_status e) (map fst CAL_BITS) wa =
                      (Ok [None; None; None; None], wb))
      by (vm_compute; reflexivity).
    assert (Hlevel : _level_mode e wb = (Ok "LEVEL IDLE", wc)) by (vm_compute; reflexivity).
    assert (Hlive : read_block_input e (mb_an hist1_at_20) (live_regs hist1_at_20) wc =
                      (Ok None, wd))
      by (vm_compute; reflexivity).
    destruct (historian_last_good e hist1_at_20 initial_world) as (_ & Hdecides).
    destruct (Hdecides _ _ _ _ _ _ _ _ Hflow Hbits Hlevel Hlive) as (Hoffline & _).
    exact (proj1 (Hoffline eq_refl)).
  - pose (e := env_idle).
    pose (wa := snd (read_flow e initial_world)).
    pose (wb := snd (read_each (read_bit_status e) (map fst CAL_BITS) wa)).
    pose (wc := snd (_level_mode e wb)).
    pose (wd := snd (read_block_input e MB_AN1 AN1_LIVE_REGS wc)).
    pose (we := snd (read_each (minimum_at e AN1_MIN_MAP) (positions 1 3) wd)).
    assert (Hflow : read_flow e initial_world = (Ok 0%float, wa)) by (vm_compute; reflexivity).
    assert (Hbits : read_each (read_bit_status e) (map fst CAL_BITS) wa =
                      (Ok [Some false; Some false; Some false; Some false], wb))
      by (vm_compute; reflexivity).
    assert (Hlevel : _level_mode e wb = (Ok "LEVEL IDLE", wc)) by (vm_compute; reflexivity).
    assert (Hlive : read_block_input e (mb_an hist1) (live_regs hist1) wc =
                      (Ok (Some [20%float; 20%float; 20%float]), wd))
      by (vm_compute; reflexivity).
    assert (Hmin : read_each (minimum_at e (min_map hist1)) (positions 1 (val_count hist1)) wd =
                     (Ok [Some 20%float; Some 20%float; Some 20%float], we))
      by (vm_compute; reflexivity).
    destruct (historian_last_good e hist1 initial_world) as (_ & Hdecides).
    destruct (Hdecides _ _ _ _ _ _ _ _ Hflow Hbits Hlevel Hlive) as (_ & _ & Hvalid & _).
    refine (proj1 (Hvalid _ _ we eq_refl Hno Hmin _)).
    repeat constructor; eexists; (split; [reflexivity | vm_compute; reflexivity]).
Defined.

(** C2, counterexample: every channel reads 5.0 and the registers of the
    minima hold 10.0, but the range device refuses the connection and
    nothing is cached, so the cache gives no minimum: the pass adopts 5.0
    as [last_good] and its record is IDLE, not INVALID. *)
Lemma unreadable_minimum_is_not_enforced :
  decode_float (nth 0 regs_10_CDAB (word16_of_Z 0)) (nth 1 regs_10_CDAB (word16_of_Z 0)) "CDAB"
    = 10%float /\
  (forall n, fst (mb_holding env_min_unreadable MB_RANGE 100 2 n) = Values regs_10_CDAB) /\
  fst (read_block_input env_min_unreadable MB_AN1 AN1_LIVE_REGS
         (snd (_level_mode env_min_unreadable
                 (snd (_is_calibration env_min_unreadable
                         (snd (read_flow env_min_unreadable initial_world)))))))
    = Ok (Some [5%float; 5%float; 5%float]) /\
  last_good (fst (snd (Historian_pass env_min_unreadable (hist1_at_20, initial_world)))) =
    [Some 5%float; Some 5%float; Some 5%float] /\
  exists ts,
    w_queue (snd (snd (Historian_sample env_min_unreadable (hist1_at_20, initial_world)))) =
      [value_row "Value" ts [Some 5%float; Some 5%float; Some 5%float; None; None]
         0%float "ANALYZER IDLE" "LEVEL IDLE" 0 "PLANT STOP"].
Proof.
  split; [vm_compute; reflexivity |]. split; [intros n; reflexivity |].
  split; [vm_compute; reflexivity |].
  split; [rewrite Historian_pass_last_good; vm_compute; reflexivity |].
  eexists. vm_compute. reflexivity.
Qed.

(** C4, as the code has it.  On a pass where at least one of the four
    calibration triggers reads true, [mode] being the name of the first
    of them in the order 1201, 1202, 1203, 1204 (the status device
    delivered a true bit for its address to a request of this pass, and
    no trigger before it read true): the record carries the unchanged
    [last_good]; when the live read of the analyzer succeeds its mode is
    [mode] and its calibration flag is 1, and when the live read fails
    its mode is OFFLINE and its flag is 0. *)
Theorem historian_calibration_freeze (env : Env) (h : Historian) (w wa wb wc wd : World)
    (flow : float) (bs : list (option bool)) (level_mode : string)
    (live : option (list float)) :
  read_flow env w = (Ok flow, wa) ->
  read_each (read_bit_status env) (map fst CAL_BITS) wa = (Ok bs, wb) ->
  In (Some true) bs ->
  _level_mode env wb = (Ok level_mode, wc) ->
  read_block_input env (mb_an h) (live_regs h) wc = (Ok live, wd) ->
  exists (i : nat) (addr : Z) (mode : string),
    nth_error CAL_BITS i = Some (addr, mode) /\
    nth_error bs i = Some (Some true) /\
    (forall j, (j < i)%nat -> nth_error bs j <> Some (Some true)) /\
    (exists n rest, (w_step wa <= n < w_step wb)%nat /\
       fst (mb_discrete env MB_STATUS addr 1 n) = Values (true :: rest)) /\
    Historian_sample env (h, w) =
      match live with
      | Some _ => emitted env h wd flow mode level_mode 1 (last_good h)
      | None => emitted env h wd flow "ANALYZER OFFLINE" level_mode 0 (last_good h)
      end.
Proof.
  intros Hflow Hbits Hsome Hlevel Hlive.
  pose proof (trigger_readings_length env wa wb bs Hbits) as Hlen.
  destruct (first_active_some CAL_BITS bs Hlen Hsome) as (mode & Hfirst).
  destruct (first_active_place CAL_BITS bs mode Hfirst) as (i & addr & Hplace & Hread & Hbefore).
  exists i, addr, mode.
  split; [exact Hplace |]. split; [exact Hread |]. split; [exact Hbefore |]. split.
  - apply (read_each_source env (map fst CAL_BITS) wa wb bs i addr true Hbits); [| exact Hread].
    rewrite nth_error_map, Hplace. reflexivity.
  - rewrite Historian_sample_run.
    rewrite (Historian_inputs_readings env h w wa wb wc wd flow bs level_mode live
               Hflow Hbits Hlevel Hlive).
    rewrite Hfirst. destruct live as [vals |]; [| reflexivity].
    simpl. rewrite (calibration_mode_not_idle bs mode Hfirst). reflexivity.
Qed.

(** The triggers 1202 and 1203 read true together, analyzer 1 answering:
    the record is "N2O SPAN", the first of the two, flagged, with the
    values adopted before. *)
Lemma historian_calibration_freeze_witness :
  exists w',
    Historian_sample env_two_calibrations (hist1_at_20, initial_world)
      = (Ok tt, (hist1_at_20, w')) /\
    w_queue w' =
      [value_row "Value" (clock 15)
         [Some 20%float; Some 20%float; Some 20%float; None; None]
         0%float "N2O SPAN" "LEVEL IDLE" 1 "PLANT STOP"].
Proof.
  pose (e := env_two_calibrations).
  pose (wa := snd (read_flow e initial_world)).
  pose (wb := snd (read_each (read_bit_status e) (map fst CAL_BITS) wa)).
  pose (wc := snd (_level_mode e wb)).
  pose (wd := snd (read_block_input e MB_AN1 AN1_LIVE_REGS wc)).
  assert (Hflow : read_flow e initial_world = (Ok 0%float, wa)) by (vm_compute; reflexivity).
  assert (Hbits : read_each (read_bit_status e) (map fst CAL_BITS) wa =
                    (Ok [Some false; Some true; Some true; Some false], wb))
    by (vm_compute; reflexivity).
  assert (Hlevel : _level_mode e wb = (Ok "LEVEL IDLE", wc)) by (vm_compute; reflexivity).
  assert (Hlive : read_block_input e (mb_an hist1_at_20) (live_regs hist1_at_20) wc =
                    (Ok (Some [20%float; 20%float; 20%float]), wd))
    by (vm_compute; reflexivity).
  assert (Hsome : In (Some true) [Some false; Some true; Some true; Some false])
    by (right; left; reflexivity).
  destruct (historian_calibration_freeze e hist1_at_20 initial_world wa wb wc wd _ _ _ _
              Hflow Hbits Hsome Hlevel Hlive)
    as (i & addr & mode & Hplace & Hread & Hbefore & _ & Hrun).
  assert (Hmode : mode = "N2O SPAN").
  { destruct i as [| [| [| [| [| i]]]]]; simpl in Hread; try discriminate Hread.
    - simpl in Hplace. congruence.
    - exfalso. apply (Hbefore 1%nat); [lia | reflexivity]. }
  subst mode. eexists. split; [exact Hrun |]. vm_compute. reflexivity.
Defined.

(** Where a minimum comes from: it is a fresh entry of the cache, or the
    float of two registers that the range device delivered to the read
    made for it. *)
Lemma minimum_source (env : Env) (mins : gmap Z MinCfg) (idx : Z) (w w' : World) (mn : float) :
  minimum_at env mins idx w = (Ok (Some mn), w') ->
  exists cfg,
    mins !! idx = Some cfg /\
    let reg := mc_reg cfg in
    let order := default RANGE_HOLDING_ORDER_DEFAULT (mc_order cfg) in
    (cache_hit (w_cache w) (reg, order) (time_time env (w_step w)) mn \/
     exists n r0 r1 rest, (w_step w <= n < w_step w')%nat /\
       fst (mb_holding env MB_RANGE reg 2 n) = Values (r0 :: r1 :: rest) /\
       mn = decode_float r0 r1 order).
Proof.
  rewrite minimum_at_run. destruct (mins !! idx) as [cfg |]; [| discriminate].
  intros H. exists cfg. split; [reflexivity |]. cbv zeta.
  pose proof (get_float_holding_run env (mc_reg cfg)
                (default RANGE_HOLDING_ORDER_DEFAULT (mc_order cfg)) w) as Hrun.
  simpl in Hrun. rewrite H in Hrun.
  destruct (fresh_entry (w_cache w) (mc_reg cfg, default RANGE_HOLDING_ORDER_DEFAULT (mc_order cfg))
              (time_time env (w_step w))) as [v0 |] eqn:Hfresh.
  - injection Hrun as -> _. left. apply fresh_entry_hit. exact Hfresh.
  - right.
    destruct (guarded_read_delivery env (mb_holding env) MB_RANGE (mc_reg cfg) 2
                (set_step (S (w_step w)) w)) as (Hsrc & _).
    change (guarded_read env (mb_holding env) MB_RANGE (mc_reg cfg) 2) with
      (read_holding_regs env MB_RANGE (mc_reg cfg) 2) in Hsrc.
    destruct (read_holding_regs env MB_RANGE (mc_reg cfg) 2 (set_step (S (w_step w)) w))
      as [[[[| r0 [| r1 rest]] |] | e |] w1] eqn:Hread; try discriminate Hrun.
    injection Hrun as -> ->.
    destruct (Hsrc _ _ eq_refl) as (n & Hn & Hv). cbn [w_step set_step set_cache] in *.
    exists n, r0, r1, rest. split; [lia |]. split; [exact Hv | reflexivity].
Qed.

(** X14. The MIN-only rule, in terms of the minima the range cache gives
    when it is asked, position by position, from the world the call
    starts in to the world it leaves.  When [_invalid_min_only] answers
    [True], the cache gave for some position a minimum above the value at
    that position, the values before it having passed, and no minimum
    was asked for after it; when it answers [False], every value passed
    (a position without a configured minimum, or for which the cache
    gave none, passes).  A minimum the cache gives is a fresh entry of
    the cache or the float of two registers the range device delivered to
    the read made for it.  With values that are all numbers the call
    returns and never raises; and it fails open: while the range device
    is down and nothing is cached, the answer is [False] whatever the
    values. *)
Theorem invalid_min_only_rule (env : Env) (h : Historian) (values : list (option float))
    (w : World) :
  let minima := fun k : nat => read_each (minimum_at env (min_map h)) (positions 1 k) in
  (forall s', _invalid_min_only env values (h, w) = (Ok true, s') ->
     fst s' = h /\
     exists (k : nat) (v mn : float) (mns : list (option float)),
       minima (S k) w = (Ok (mns ++ [Some mn]), snd s') /\
       Forall2 passes (firstn k values) mns /\
       nth_error values k = Some (Some v) /\ PrimFloat.ltb v mn = true) /\
  (forall s', _invalid_min_only env values (h, w) = (Ok false, s') ->
     fst s' = h /\
     exists mns : list (option float),
       minima (length values) w = (Ok mns, snd s') /\ Forall2 passes values mns) /\
  (forall idx w0 w1 mn, minimum_at env (min_map h) idx w0 = (Ok (Some mn), w1) ->
     exists cfg,
       min_map h !! idx = Some cfg /\
       let reg := mc_reg cfg in
       let order := default RANGE_HOLDING_ORDER_DEFAULT (mc_order cfg) in
       (cache_hit (w_cache w0) (reg, order) (time_time env (w_step w0)) mn \/
        exists n r0 r1 rest, (w_step w0 <= n < w_step w1)%nat /\
          fst (mb_holding env MB_RANGE reg 2 n) = Values (r0 :: r1 :: rest) /\
          mn = decode_float r0 r1 order)) /\
  (Forall (fun v => v <> None) values ->
     exists b w', _invalid_min_only env values (h, w) = (Ok b, (h, w')) /\ reads_only env w w') /\
  (down env MB_RANGE w -> cache (w_cache w) = ∅ ->
     exists w', _invalid_min_only env values (h, w) = (Ok false, (h, w'))).
Proof.
  intros minima. subst minima.
  assert (Hrun : _invalid_min_only env values (h, w) =
            (fst (invalid_from env (min_map h) 1 values w),
             (h, snd (invalid_from env (min_map h) 1 values w)))).
  { unfold _invalid_min_only, bind, self, gets, in_world. cbn [fst snd].
    destruct (invalid_from env (min_map h) 1 values w). reflexivity. }
  rewrite Hrun. split; [| split; [| split; [| split]]].
  - intros s' H. destruct (invalid_from env (min_map h) 1 values w) as [r w0] eqn:E.
    cbn [fst snd] in H. injection H as -> <-. cbn [fst snd].
    split; [reflexivity |]. exact (invalid_from_true_inv env (min_map h) values 1 w w0 E).
  - intros s' H. destruct (invalid_from env (min_map h) 1 values w) as [r w0] eqn:E.
    cbn [fst snd] in H. injection H as -> <-. cbn [fst snd].
    split; [reflexivity |]. exact (invalid_from_false_inv env (min_map h) values 1 w w0 E).
  - intros idx w0 w1 mn. apply minimum_source.
  - intros Hall. destruct (invalid_from_total env (min_map h) values 1 w Hall)
      as (b & w' & H & Hf).
    exists b, w'. rewrite H. auto.
  - intros Hd Hempty. destruct (invalid_from_down env (min_map h) values 1 w Hd Hempty)
      as (w' & H & _).
    exists w'. rewrite H. reflexivity.
Qed.

(** With every minimum at 10.0 two values of 5.0 are flagged, on a
    minimum the cache gave in this call; with the range device refusing
    the connection a value of 5.0 is not flagged. *)
Lemma invalid_min_only_rule_witness :
  (exists (s' : Historian * World) (k : nat) (v mn : float) (mns : list (option float)),
     _invalid_min_only env_below_min [Some 5%float; Some 5%float] (hist1, initial_world)
       = (Ok true, s') /\
     read_each (minimum_at env_below_min (min_map hist1)) (positions 1 (S k)) initial_world
       = (Ok (mns ++ [Some mn]), snd s') /\
     nth_error [Some 5%float; Some 5%float] k = Some (Some v) /\
     PrimFloat.ltb v mn = true) /\
  down env_refused MB_RANGE initial_world /\
  cache (w_cache initial_world) = ∅ /\
  exists w', _invalid_min_only env_refused [Some 5%float] (hist1, initial_world)
               = (Ok false, (hist1, w')).
Proof.
  assert (Hd : down env_refused MB_RANGE initial_world).
  { split; [intros n; discriminate | reflexivity]. }
  split; [| split; [exact Hd | split; [reflexivity |]]].
  - destruct (_invalid_min_only env_below_min [Some 5%float; Some 5%float] (hist1, initial_world))
      as [r s'] eqn:Hrun.
    assert (Hr : r = Ok true)
      by (change r with (fst (r, s')); rewrite <- Hrun; vm_compute; reflexivity).
    subst r.
    destruct (invalid_min_only_rule env_below_min hist1 [Some 5%float; Some 5%float] initial_world)
      as (Htrue & _).
    destruct (Htrue s' Hrun) as (_ & k & v & mn & mns & Hmin & _ & Hv & Hlt).
    exists s', k, v, mn, mns. auto.
  - destruct (invalid_min_only_rule env_refused hist1 [Some 5%float] initial_world)
      as (_ & _ & _ & _ & H).
    exact (H Hd eq_refl).
Defined.

(* ===================================================================== *)
(** * Calibration capture: the rows of a cycle                           *)
(* ===================================================================== *)

Lemma capture_tag_captured (env : Env) (cw : CalWorker) (ts : float) (tag : string) (w : World) :
  exists w' rows,
    capture_tag env cw ts tag w = (Ok tt, w') /\
    tag_captured env cw ts tag w rows w' /\
    w_queue w' = w_queue w ++ rows.
Proof.
  unfold capture_tag, tag_captured.
  destruct (cw_range_map cw !! tag) as [e |] eqn:Htag.
  - destruct (read_measured_total env (cw_mb_an cw) (cw_range_map cw) tag e w Htag)
      as (val & w1 & Hread & Hr1 & _).
    unfold bind at 1. rewrite Hread.
    destruct val as [v |].
    + destruct (evaluate_total env tag v (ti_name (cw_info cw)) (cw_range_map cw) e w1 Htag)
        as (expected & err & acc & status & w2 & Heval & Hr2 & _).
      unfold bind. rewrite Heval. unfold q_put, modify.
      eexists _, _. split; [reflexivity |]. split.
      * exists (Some v), w1. split; [reflexivity |].
        exists expected, err, acc, status, w2. split; [exact Heval |]. split; reflexivity.
      * cbn [w_queue set_queue].
        destruct Hr1 as (Hq1 & _), Hr2 as (Hq2 & _). rewrite Hq2, Hq1. reflexivity.
    + exists w1, []. split; [reflexivity |]. split.
      * exists None, w1. auto.
      * rewrite app_nil_r. apply Hr1.
  - exists w, []. split; [reflexivity |]. split; [auto | rewrite app_nil_r; reflexivity].
Qed.

Lemma capture_cycle_captured (env : Env) (cw : CalWorker) (ts : float) (tags : list string)
    (w : World) :
  exists w' rows,
    for_each tags (capture_tag env cw ts) w = (Ok tt, w') /\
    cycle_captured env cw ts tags w rows w' /\
    w_queue w' = w_queue w ++ rows.
Proof.
  revert w. induction tags as [| tag rest IH]; intros w.
  - exists w, []. split; [reflexivity |]. split; [split; reflexivity |].
    rewrite app_nil_r. reflexivity.
  - destruct (capture_tag_captured env cw ts tag w) as (w1 & r1 & Hrun1 & Hcap1 & Hq1).
    destruct (IH w1) as (w' & r2 & Hrun2 & Hcap2 & Hq2).
    exists w', (r1 ++ r2). split; [| split].
    + cbn [for_each]. unfold bind. rewrite Hrun1. exact Hrun2.
    + exists r1, w1, r2. auto.
    + rewrite Hq2, Hq1, <- app_assoc. reflexivity.
Qed.

(** X20. One capture cycle of a calibration worker never raises, and its
    rows are these: a tag the range map lacks gives none; a tag of the
    map is measured, and gives none when the measurement has no value;
    every other tag gives exactly one row, stamped with the time of the
    cycle, that carries the measured value and the expected value, error,
    accuracy and status that [evaluate] returned for it.  The rows are
    appended to the queue in the order of the tags, at most one per tag;
    the cycle starts no thread and does not sleep, and when the analyzer
    is down it appends nothing. *)
Theorem capture_cycle_rows (env : Env) (cw : CalWorker) (ts : float) (w : World) :
  exists w' rows,
    for_each (ti_capture (cw_info cw)) (capture_tag env cw ts) w = (Ok tt, w') /\
    cycle_captured env cw ts (ti_capture (cw_info cw)) w rows w' /\
    w_queue w' = w_queue w ++ rows /\
    (length rows <= length (ti_capture (cw_info cw)))%nat /\
    w_threads w' = w_threads w /\ w_committed w' = w_committed w /\
    sleeps w' = sleeps w /\
    (down env (cw_mb_an cw) w -> rows = []).
Proof.
  destruct (capture_cycle_captured env cw ts (ti_capture (cw_info cw)) w)
    as (w' & rows & Hrun & Hcap & Hq).
  destruct (capture_cycle_outcome env cw ts (ti_capture (cw_info cw)) w)
    as (w'' & rows' & Hrun' & Hq' & Hlen & _ & Hth & Hco & _ & Hsl & _ & Hdown).
  rewrite Hrun in Hrun'. injection Hrun' as <-.
  assert (rows' = rows) as -> by (rewrite Hq in Hq'; exact (app_inv_head _ _ _ (eq_sym Hq'))).
  exists w', rows. auto 10.
Qed.

(** A cycle of the zero calibration of analyzer 1 with every channel at
    20.0: three rows, one per tag and in the order of the tags; with the
    analyzer refusing the connection: none. *)
Lemma capture_cycle_rows_witness :
  (exists rows,
     w_queue (snd (for_each ["N2O"; "NO"; "O2"] (capture_tag env_idle zero_worker (clock 0))
                     initial_world)) = rows /\
     cycle_captured env_idle zero_worker (clock 0) ["N2O"; "NO"; "O2"] initial_world rows
       (snd (for_each ["N2O"; "NO"; "O2"] (capture_tag env_idle zero_worker (clock 0))
               initial_world)) /\
     map (fun row => firstn 2 (skipn 1 (params row))) rows =
       [[PStr "N2O ZERO"; PStr "N2O"]; [PStr "N2O ZERO"; PStr "NO"];
        [PStr "N2O ZERO"; PStr "O2"]]) /\
  down env_refused MB_AN1 initial_world /\
  w_queue (snd (for_each ["N2O"; "NO"; "O2"] (capture_tag env_refused zero_worker (clock 0))
                  initial_world)) = [].
Proof.
  split; [| split].
  - destruct (capture_cycle_rows env_idle zero_worker (clock 0) initial_world)
      as (w' & rows & Hrun & Hcap & Hq & _).
    change (ti_capture (cw_info zero_worker)) with ["N2O"; "NO"; "O2"] in *.
    rewrite Hrun. cbn [snd]. exists rows. split; [exact Hq |]. split; [exact Hcap |].
    assert (Hw : w' = snd (for_each ["N2O"; "NO"; "O2"]
                             (capture_tag env_idle zero_worker (clock 0)) initial_world))
      by (rewrite Hrun; reflexivity).
    change (w_queue initial_world ++ rows) with rows in Hq.
    rewrite <- Hq, Hw. vm_compute. reflexivity.
  - split; [intros n; discriminate | reflexivity].
  - destruct (capture_cycle_rows env_refused zero_worker (clock 0) initial_world)
      as (w' & rows & Hrun & _ & Hq & _ & _ & _ & _ & Hnone).
    change (ti_capture (cw_info zero_worker)) with ["N2O"; "NO"; "O2"] in *.
    rewrite Hrun. cbn [snd]. rewrite Hq, Hnone; [reflexivity |].
    split; [intros n; discriminate | reflexivity].
Defined.

(* ===================================================================== *)
(** * SQL writer: the outcomes of a batch                                *)
(* ===================================================================== *)

(** A pass whose batch raises an exception that is not the database's. *)
Lemma pass_on_unexpected_error (env : Env) (s s1 s3 : SQLWriter) (w w1 w2 w3 : World)
    (batch : list Item) (e : exn) :
  open_connection env (s, w) = (Ok tt, (s1, w1)) ->
  take_batch env w1 = (Ok (Some batch), w2) ->
  flush env batch (s1, w2) = (Raise e, (s3, w3)) ->
  is_PyodbcError e = false ->
  exists w',
    SQLWriter_pass env (s, w) = (Ok tt, (s3, w')) /\
    conn s3 <> None /\
    (exists done rest, batch = done ++ rest /\ pending_rows s3 = pending_rows s1 ++ done) /\
    w_committed w' = w_committed w /\
    w_queue w' = w_queue w2 /\
    w_io w' = w_io w2 ++ [EvSleep 1%float].
Proof.
  intros Hopen Htake Hflush He.
  pose proof (open_connection_run env s w) as Hopen'. rewrite Hopen in Hopen'.
  assert (Hs1 : exists c, conn s1 = Some c /\ w_committed w1 = w_committed w).
  { destruct (conn s) as [c |] eqn:Hc.
    - injection Hopen' as -> ->. eauto.
    - simpl in Hopen'. destruct (db_connect env (w_step w)); try discriminate.
      injection Hopen' as -> ->. simpl. eauto. }
  destruct Hs1 as (c & Hc & Hco1).
  destruct (take_batch_outcome env w1) as (b & w2' & Hrun & _ & _ & Hco2 & _).
  rewrite Htake in Hrun. injection Hrun as <- <-.
  destruct (flush_unit env batch s1 s3 w2 w3 _ c Hc Hflush) as (Hq & Hio & _ & Hconn3 & _ & Hfail).
  assert (Htry : SQLWriter_try env (s, w) = (Raise e, (s3, w3))).
  { unfold SQLWriter_try. unfold bind at 1. rewrite Hopen.
    unfold bind, in_world. simpl. rewrite Htake. exact Hflush. }
  rewrite SQLWriter_pass_run, Htry, He.
  eexists. split; [reflexivity |]. split; [exact Hconn3 |].
  cbn [w_committed w_queue w_io set_io set_step].
  split; [| split; [rewrite Hfail by discriminate; congruence | split; [exact Hq | rewrite Hio; reflexivity]]].
  unfold flush, bind in Hflush.
  destruct (for_each batch (execute env) (s1, w2)) as [[[] | e0 |] [s4 w4]] eqn:Hexec.
  - destruct (rows_executed_prefix env batch s1 s4 w2 w4 _ Hexec) as (done & rest & Hb & Hc4).
    rewrite commit_run in Hflush.
    destruct (db_commit env (w_step w4)); try discriminate Hflush;
      injection Hflush as _ <- _; exists done, rest; (split; [exact Hb |]);
      unfold pending_rows; rewrite Hc4, Hc; reflexivity.
  - destruct (rows_executed_prefix env batch s1 s4 w2 w4 _ Hexec) as (done & rest & Hb & Hc4).
    injection Hflush as _ <- _.
    exists done, rest. split; [exact Hb |]. unfold pending_rows. rewrite Hc4, Hc. reflexivity.
  - discriminate Hflush.
Qed.

(** C9, as the code has it.  A pass of the writer never raises, whatever
    the sink and the queue do.  On a pass that has a connection and takes
    a batch: the batch has between 1
    and 300 items and was taken with a single bounded wait (the rest of
    the drain does not wait).  When the sink accepts the batch, its rows
    are committed together, along with the rows an earlier pass left in
    the open transaction.  When the batch fails with the database's own
    error ([pyodbc.Error]), nothing is committed, the connection is
    closed and forgotten, the writer sleeps 5 s, and the next pass
    starts by reconnecting.  When the batch fails with any other
    exception, the connection is kept, the writer sleeps 1 s, nothing is
    committed, and the rows executed before the exception stay in the
    open transaction.  In both failures the queue is as the drain left
    it: no item of the batch is put back. *)
Theorem sql_writer_pass_contract (env : Env) (s : SQLWriter) (w : World) :
  post (SQLWriter_pass env) (s, w) (fun _ _ => True) /\
  forall (s1 : SQLWriter) (w1 w2 : World) (batch : list Item),
  open_connection env (s, w) = (Ok tt, (s1, w1)) ->
  take_batch env w1 = (Ok (Some batch), w2) ->
  (1 <= length batch <= 300)%nat /\
  w_io w2 = w_io w1 ++ [EvQueueWait 1%float] /\
  (forall s3 w3,
     flush env batch (s1, w2) = (Ok tt, (s3, w3)) ->
     SQLWriter_pass env (s, w) = (Ok tt, (s3, w3)) /\
     w_committed w3 = w_committed w ++ pending_rows s1 ++ batch /\
     pending_rows s3 = [] /\
     w_queue w3 = w_queue w2) /\
  (forall s3 w3,
     flush env batch (s1, w2) = (Raise PyodbcError, (s3, w3)) ->
     exists w',
       SQLWriter_pass env (s, w) = (Ok tt, (mkSQLWriter None, w')) /\
       w_committed w' = w_committed w /\
       w_queue w' = w_queue w2 /\
       w_io w' = w_io w2 ++ [EvDbClose; EvSleep 5%float] /\
       exists rest,
         w_io (snd (snd (SQLWriter_pass env (mkSQLWriter None, w')))) =
           w_io w' ++ EvDbConnect :: rest) /\
  (forall e s3 w3,
     flush env batch (s1, w2) = (Raise e, (s3, w3)) ->
     e <> PyodbcError ->
     exists w',
       SQLWriter_pass env (s, w) = (Ok tt, (s3, w')) /\
       conn s3 <> None /\
       (exists done rest, batch = done ++ rest /\ pending_rows s3 = pending_rows s1 ++ done) /\
       w_committed w' = w_committed w /\
       w_queue w' = w_queue w2 /\
       w_io w' = w_io w2 ++ [EvSleep 1%float]).
Proof.
  split; [apply SQLWriter_pass_total |].
  intros s1 w1 w2 batch Hopen Htake.
  pose proof (open_connection_run env s w) as Hopen'. rewrite Hopen in Hopen'.
  assert (Hs1 : exists c, conn s1 = Some c /\ w_committed w1 = w_committed w).
  { destruct (conn s) as [c |] eqn:Hc.
    - injection Hopen' as -> ->. eauto.
    - simpl in Hopen'. destruct (db_connect env (w_step w)); try discriminate.
      injection Hopen' as -> ->. simpl. eauto. }
  destruct Hs1 as (c & Hc & Hco1).
  destruct (take_batch_post env w1) as (b & w2' & Hrun & Hio & Hco2 & Hlen).
  rewrite Htake in Hrun. injection Hrun as <- <-.
  split; [exact Hlen |]. split; [exact Hio |].
  assert (Htry : SQLWriter_try env (s, w) = flush env batch (s1, w2)).
  { unfold SQLWriter_try. unfold bind at 1. rewrite Hopen.
    unfold bind, in_world. simpl. rewrite Htake. reflexivity. }
  split; [| split].
  - intros s3 w3 Hflush.
    destruct (flush_unit env batch s1 s3 w2 w3 _ c Hc Hflush) as (Hq & _ & _ & _ & Hok & _).
    destruct (Hok eq_refl) as (Hcommitted & Hconn3).
    unfold SQLWriter_pass, try_except. rewrite Htry, Hflush.
    unfold pending_rows. rewrite Hc, Hconn3.
    repeat split; try assumption. congruence.
  - intros s3 w3 Hflush.
    destruct (flush_unit env batch s1 s3 w2 w3 _ c Hc Hflush)
      as (Hq & Hio3 & _ & Hconn3 & _ & Hfail).
    destruct (conn s3) as [c3 |] eqn:Hc3; [| contradiction].
    eexists. split; [| split; [| split; [| split]]].
    + unfold SQLWriter_pass, try_except. rewrite Htry, Hflush. simpl.
      rewrite on_pyodbc_error_run. rewrite Hc3. reflexivity.
    + simpl. rewrite Hfail by discriminate. congruence.
    + simpl. exact Hq.
    + simpl. rewrite Hio3. reflexivity.
    + apply pass_reconnects.
  - intros e s3 w3 Hflush He.
    apply (pass_on_unexpected_error env s s1 s3 w w1 w2 w3 batch e Hopen Htake Hflush).
    destruct e; try reflexivity. contradiction.
Qed.

(** Two rows wait in the queue.  With a sink that accepts them they are
    committed together; with a sink that fails with its own error, the
    writer drops its connection, sleeps 5 s and the queue stays empty;
    with a statement that raises another exception, the writer keeps its
    connection and sleeps 1 s. *)
Lemma sql_writer_pass_contract_witness :
  (exists s3 w3,
     SQLWriter_pass env_idle (mkSQLWriter None, world_two_rows) = (Ok tt, (s3, w3)) /\
     w_committed w3 = [row_a; row_b] /\ w_queue w3 = []) /\
  (exists w',
     SQLWriter_pass env_sink_error (mkSQLWriter None, world_two_rows)
       = (Ok tt, (mkSQLWriter None, w')) /\
     w_committed w' = [] /\ w_queue w' = [] /\
     w_io w' = [EvDbConnect; EvQueueWait 1%float; EvDbClose; EvSleep 5%float]) /\
  (exists s3 w',
     SQLWriter_pass env_sink_unexpected (mkSQLWriter None, world_two_rows) = (Ok tt, (s3, w')) /\
     conn s3 <> None /\
     w_committed w' = [] /\ w_queue w' = [] /\
     w_io w' = [EvDbConnect; EvQueueWait 1%float; EvSleep 1%float]).
Proof.
  split; [| split].
  - pose (s1 := mkSQLWriter (Some (mkSqlConn []))).
    pose (w1 := snd (snd (open_connection env_idle (mkSQLWriter None, world_two_rows)))).
    pose (w2 := snd (take_batch env_idle w1)).
    destruct (sql_writer_pass_contract env_idle (mkSQLWriter None) world_two_rows)
      as (_ & Hbatch).
    destruct (Hbatch s1 w1 w2 [row_a; row_b]) as (_ & _ & Hok & _);
      try (vm_compute; reflexivity).
    destruct (Hok (fst (snd (flush env_idle [row_a; row_b] (s1, w2))))
                  (snd (snd (flush env_idle [row_a; row_b] (s1, w2)))))
      as (Hrun & Hcommitted & _ & Hq); [vm_compute; reflexivity |].
    eexists _, _. split; [exact Hrun |]. split; [exact Hcommitted | exact Hq].
  - pose (s1 := mkSQLWriter (Some (mkSqlConn []))).
    pose (w1 := snd (snd (open_connection env_sink_error (mkSQLWriter None, world_two_rows)))).
    pose (w2 := snd (take_batch env_sink_error w1)).
    destruct (sql_writer_pass_contract env_sink_error (mkSQLWriter None) world_two_rows)
      as (_ & Hbatch).
    destruct (Hbatch s1 w1 w2 [row_a; row_b]) as (_ & _ & _ & Hfail & _);
      try (vm_compute; reflexivity).
    destruct (Hfail (fst (snd (flush env_sink_error [row_a; row_b] (s1, w2))))
                    (snd (snd (flush env_sink_error [row_a; row_b] (s1, w2)))))
      as (w' & Hrun & Hcommitted & Hq & Hio & _); [vm_compute; reflexivity |].
    exists w'. split; [exact Hrun |]. split; [exact Hcommitted |].
    split; [exact Hq | exact Hio].
  - pose (s1 := mkSQLWriter (Some (mkSqlConn []))).
    pose (w1 := snd (snd (open_connection env_sink_unexpected (mkSQLWriter None, world_two_rows)))).
    pose (w2 := snd (take_batch env_sink_unexpected w1)).
    destruct (sql_writer_pass_contract env_sink_unexpected (mkSQLWriter None) world_two_rows)
      as (_ & Hbatch).
    destruct (Hbatch s1 w1 w2 [row_a; row_b]) as (_ & _ & _ & _ & Hother);
      try (vm_compute; reflexivity).
    destruct (Hother RuntimeError
                (fst (snd (flush env_sink_unexpected [row_a; row_b] (s1, w2))))
                (snd (snd (flush env_sink_unexpected [row_a; row_b] (s1, w2)))))
      as (w' & Hrun & Hconn & _ & Hcommitted & Hq & Hio);
      [vm_compute; reflexivity | discriminate |].
    eexists _, w'. split; [exact Hrun |]. split; [exact Hconn |].
    split; [exact Hcommitted |]. split; [exact Hq | exact Hio].
Defined.

(** C9, counterexample: the second statement of a batch of two raises an
    exception that is not a [pyodbc.Error].  The connection is not
    dropped and the writer sleeps 1 s, not 5 s; the first row stays in
    the open transaction, and the next pass commits it together with the
    row of the next batch, while the second row is lost: the batch was
    neither committed nor discarded as a unit. *)
Lemma unexpected_error_keeps_connection :
  exists s' w' s'' w'',
    SQLWriter_pass env_sink_unexpected (mkSQLWriter None, world_two_rows) = (Ok tt, (s', w')) /\
    conn s' = Some (mkSqlConn [row_a]) /\
    w_committed w' = [] /\ w_queue w' = [] /\
    w_io w' = [EvDbConnect; EvQueueWait 1%float; EvSleep 1%float] /\
    SQLWriter_pass env_sink_unexpected (s', w') = (Ok tt, (s'', w'')) /\
    w_committed w'' = [row_a; row_c] /\ w_queue w'' = [].
Proof.
  eexists _, _, _, _.
  split; [vm_compute; reflexivity |]. split; [reflexivity |].
  do 3 (split; [reflexivity |]).
  split; [vm_compute; reflexivity |]. split; reflexivity.
Qed.
